(** * cql-studio-server: the acquisition-and-normalization core

    A shallow embedding of the token-bucket rate limiter, the search
    services, the HTTP 300 helper, the HTML-to-text extractor and the
    sitemap parser, with the properties the specification states about
    them.

    Conventions of the embedding.
    - A JavaScript [number] is a rational ([Q]): token counts, capacities
      and rates are computed exactly.  The program computes them in
      double precision, and the embedding leaves the rounding out: a count
      that is 1 here can be 0.9999999999999999 there, and a wait can differ
      by a millisecond.  The statements about the limiter are therefore
      about the order of the counts, their bounds and the shape of the
      updates, which rounding keeps; where one of them names a number, it
      does so at an input at which the rounded computation has the same
      outcome.  Time stamps ([Date.now()]) are integers ([Z],
      milliseconds).  The limiter has no [NaN] and no infinity: the only
      place where it could produce them is a division by a zero window,
      which the statements exclude.
    - A JavaScript [Map<string, number>] is a [gmap string _].
    - A JavaScript string used as text is a list of UTF-16 code units
      ([jsstring]), so that [length] is the [.length] of the program.
    - The wall clock is an input: every operation that reads [Date.now()]
      takes the value it reads as an argument. *)

From Stdlib Require Import ZArith QArith Qround Qminmax Lia Lqa.
From Stdlib Require Import String Ascii NArith DecimalString.
From stdpp Require Import base gmap strings list.

Local Open Scope Z_scope.

(** ** JavaScript truthiness of numbers *)

(** [!x] is false exactly when [x] is a non-zero number; a missing map entry
    ([undefined]) is falsy. *)
Definition truthyQ (o : option Q) : bool :=
  match o with
  | Some q => negb (Qeq_bool q 0)
  | None => false
  end.

(** [o || d] for a number read from a map. *)
Definition orQ (o : option Q) (d : Q) : Q :=
  match o with
  | Some q => if Qeq_bool q 0 then d else q
  | None => d
  end.

Definition orZ (o : option Z) (d : Z) : Z :=
  match o with
  | Some z => if z =? 0 then d else z
  | None => d
  end.

(** [x < y] on numbers. *)
Definition Qltb (x y : Q) : bool := negb (Qle_bool y x).

(** [Math.max(0, Math.floor(x))]. *)
Definition floor0 (x : Q) : Z := Z.max 0 (Qfloor x).

(** ** rate-limiter.ts *)

Module RateLimiter.

(** The four private maps of the class. *)
Record t : Type := mk {
  tokens : gmap string Q;
  maxTokens : gmap string Q;
  lastRefill : gmap string Z;
  refillRate : gmap string Q
}.

(** [new RateLimiter()]. *)
Definition create : t :=
  {| tokens := ∅; maxTokens := ∅; lastRefill := ∅; refillRate := ∅ |}.

(** [configure(operation, maxRequests, windowMs)]; [now] is the value of
    [Date.now()]. *)
Definition configure (s : t) (operation : string)
    (maxRequests windowMs : Q) (now : Z) : t :=
  {| maxTokens := <[operation := maxRequests]> (maxTokens s);
     tokens := <[operation := maxRequests]> (tokens s);
     refillRate :=
       <[operation := (maxRequests / (windowMs / 1000))%Q]> (refillRate s);
     lastRefill := <[operation := now]> (lastRefill s) |}.

(** The refill block, as it stands at the head of [acquire]. *)
Definition acquire_refill (s : t) (operation : string)
    (maxTokens_ refillRate_ : Q) (now : Z) : t :=
  let lastRefill_ := orZ (lastRefill s !! operation) now in
  let elapsed := now - lastRefill_ in
  if 0 <? elapsed then
    let currentTokens := orQ (tokens s !! operation) 0 in
    let tokensToAdd := (inject_Z elapsed / 1000 * refillRate_)%Q in
    let newTokens := Qmin maxTokens_ (currentTokens + tokensToAdd)%Q in
    {| tokens := <[operation := newTokens]> (tokens s);
       maxTokens := maxTokens s;
       lastRefill := <[operation := now]> (lastRefill s);
       refillRate := refillRate s |}
  else s.

(** What [acquire] has done when it first yields control. *)
Inductive acquire_step : Type :=
| NotConfigured
    (* throw new Error('Rate limiter not configured for operation: ...') *)
| Consumed (s' : t)
    (* a token was available: the promise resolves at once *)
| Suspended (s' : t) (waitTime : Z) (maxTokens_ refillRate_ : Q)
    (* await this.wait(waitTime); the two locals are kept for the resumption *).

(** [acquire(operation)] up to its return or its [await]. *)
Definition acquire_begin (s : t) (operation : string) (now : Z)
    : acquire_step :=
  let maxTokens_ := maxTokens s !! operation in
  let refillRate_ := refillRate s !! operation in
  if negb (truthyQ maxTokens_) || negb (truthyQ refillRate_) then
    NotConfigured
  else
    let m := orQ maxTokens_ 0 in
    let r := orQ refillRate_ 0 in
    let s1 := acquire_refill s operation m r now in
    let currentTokens := orQ (tokens s1 !! operation) 0 in
    if Qltb currentTokens 1 then
      let waitTime := Qceiling ((1 - currentTokens) / r * 1000)%Q in
      Suspended s1 waitTime m r
    else
      Consumed
        {| tokens := <[operation := (currentTokens - 1)%Q]> (tokens s1);
           maxTokens := maxTokens s1;
           lastRefill := lastRefill s1;
           refillRate := refillRate s1 |}.

(** The continuation of [acquire] after the wait; [s] is the limiter as it
    is when the timer fires, [resumed] the value of [Date.now()] then. *)
Definition acquire_resume (s : t) (operation : string)
    (maxTokens_ refillRate_ : Q) (resumed : Z) : t :=
  let newTokens := Qmin maxTokens_ refillRate_ in
  {| tokens := <[operation := (newTokens - 1)%Q]> (tokens s);
     maxTokens := maxTokens s;
     lastRefill := <[operation := resumed]> (lastRefill s);
     refillRate := refillRate s |}.

(** [acquire] run to completion with no other call in between; [None] is
    the configuration error. *)
Definition acquire (s : t) (operation : string) (now resumed : Z)
    : option t :=
  match acquire_begin s operation now with
  | NotConfigured => None
  | Consumed s' => Some s'
  | Suspended s' _ m r => Some (acquire_resume s' operation m r resumed)
  end.

(** [getRemainingTokens(operation)]: the value returned and the limiter
    afterwards. *)
Definition getRemainingTokens (s : t) (operation : string) (now : Z)
    : Z * t :=
  let maxTokens_ := maxTokens s !! operation in
  let refillRate_ := refillRate s !! operation in
  if negb (truthyQ maxTokens_) || negb (truthyQ refillRate_) then (0, s)
  else
    let m := orQ maxTokens_ 0 in
    let r := orQ refillRate_ 0 in
    let lastRefill_ := orZ (lastRefill s !! operation) now in
    let elapsed := now - lastRefill_ in
    let s1 :=
      if 0 <? elapsed then
        let currentTokens := orQ (tokens s !! operation) 0 in
        let tokensToAdd := (inject_Z elapsed / 1000 * r)%Q in
        let newTokens := Qmin m (currentTokens + tokensToAdd)%Q in
        {| tokens := <[operation := newTokens]> (tokens s);
           maxTokens := maxTokens s;
           lastRefill := <[operation := now]> (lastRefill s);
           refillRate := refillRate s |}
      else s in
    let tokens_ := orQ (tokens s1 !! operation) 0 in
    (floor0 tokens_, s1).

(** The token count of a class, as the limiter stores it. *)
Definition tokensOf (s : t) (operation : string) : Q :=
  orQ (tokens s !! operation) 0.

End RateLimiter.

(** ** JavaScript strings *)

Module Js.

(** A string is its sequence of UTF-16 code units. *)
Definition jsstring : Type := list N.

(** A literal of the program (all of them are ASCII). *)
Definition js (s : string) : jsstring :=
  map N_of_ascii (list_ascii_of_string s).

Definition LF : N := 10%N.

(** [s.length]. *)
Definition len (s : jsstring) : Z := Z.of_nat (length s).

(** WhiteSpace and LineTerminator of ECMAScript: what [trim], [parseInt]
    and the class [\s] skip. *)
Definition isWhitespace (c : N) : bool :=
  ((9 <=? c) && (c <=? 13) || (c =? 32) || (c =? 160) || (c =? 5760)
   || (8192 <=? c) && (c <=? 8202) || (c =? 8232) || (c =? 8233)
   || (c =? 8239) || (c =? 8287) || (c =? 12288) || (c =? 65279))%N.

Fixpoint trimStart (s : jsstring) : jsstring :=
  match s with
  | c :: s' => if isWhitespace c then trimStart s' else s
  | [] => []
  end.

Definition trimEnd (s : jsstring) : jsstring :=
  reverse (trimStart (reverse s)).

Definition trim (s : jsstring) : jsstring := trimEnd (trimStart s).

(** A string is truthy when it is not empty. *)
Definition truthy (s : jsstring) : bool :=
  match s with [] => false | _ => true end.

(** [a || b] where [a] may be [undefined]. *)
Definition orStr (a : option jsstring) (b : jsstring) : jsstring :=
  match a with
  | Some (c :: s) => c :: s
  | _ => b
  end.

Fixpoint startsWith (needle s : jsstring) : bool :=
  match needle, s with
  | [], _ => true
  | c :: needle', d :: s' => (c =? d)%N && startsWith needle' s'
  | _ :: _, [] => false
  end.

Definition endsWith (needle s : jsstring) : bool :=
  startsWith (reverse needle) (reverse s).

(** [s.includes(needle)]. *)
Fixpoint includes (needle s : jsstring) : bool :=
  startsWith needle s ||
  match s with
  | [] => false
  | _ :: s' => includes needle s'
  end.

(** [s.lastIndexOf(needle)]: the scan keeps the last position at which
    [needle] starts, [-1] when there is none. *)
Fixpoint lastIndexOf_from (needle s : jsstring) (i acc : Z) : Z :=
  let acc' := if startsWith needle s then i else acc in
  match s with
  | [] => acc'
  | _ :: s' => lastIndexOf_from needle s' (i + 1) acc'
  end.

Definition lastIndexOf (needle s : jsstring) : Z :=
  lastIndexOf_from needle s 0 (-1).

(** [s.substring(start, end)]: both indices are clamped to [0, length]
    and swapped when out of order. *)
Definition substring (s : jsstring) (start end_ : Z) : jsstring :=
  let clamp i := Z.min (Z.max i 0) (len s) in
  let a := Z.min (clamp start) (clamp end_) in
  let b := Z.max (clamp start) (clamp end_) in
  take (Z.to_nat (b - a)) (drop (Z.to_nat a) s).

(** [s.split(sep)] for a separator of one code unit. *)
Fixpoint split (sep : N) (s : jsstring) : list jsstring :=
  match s with
  | [] => [[]]
  | c :: s' =>
      if (c =? sep)%N then [] :: split sep s'
      else match split sep s' with
           | piece :: rest => (c :: piece) :: rest
           | [] => [[c]]
           end
  end.

(** [pieces.join(sep)]. *)
Fixpoint join (sep : jsstring) (pieces : list jsstring) : jsstring :=
  match pieces with
  | [] => []
  | [p] => p
  | p :: rest => p ++ sep ++ join sep rest
  end.

(** ASCII lower case: how a pattern of ASCII letters compares under the
    [i] flag (a code unit above 127 never folds onto an ASCII one). *)
Definition lower (c : N) : N :=
  if ((65 <=? c) && (c <=? 90))%N then (c + 32)%N else c.

Definition toLower (s : jsstring) : jsstring := map lower s.

Definition eqb (a b : jsstring) : bool := bool_decide (a = b).

(** [s.replace(/\n{3,}/g, '\n\n')]: [run] counts the line feeds
    of the run being read. *)
Fixpoint collapse_from (run : nat) (s : jsstring) : jsstring :=
  let flush := repeat LF (Nat.min run 2) in
  match s with
  | [] => flush
  | c :: s' =>
      if (c =? LF)%N then collapse_from (S run) s'
      else flush ++ c :: collapse_from 0 s'
  end.

Definition collapseNewlines (s : jsstring) : jsstring := collapse_from 0 s.

Definition isDigit (c : N) : bool := ((48 <=? c) && (c <=? 57))%N.

Fixpoint digits_value (acc : Z) (s : jsstring) : Z :=
  match s with
  | c :: s' =>
      if isDigit c then digits_value (10 * acc + (Z.of_N c - 48)) s'
      else acc
  | [] => acc
  end.

(** [parseInt(s, 10)]; [None] is [NaN].  Leading white space is skipped,
    a sign is read, then the longest run of decimal digits. *)
Definition parseInt (s : jsstring) : option Z :=
  let s1 := trimStart s in
  let '(sign, s2) :=
    match s1 with
    | 45%N :: r => (-1, r)
    | 43%N :: r => (1, r)
    | _ => (1, s1)
    end in
  match s2 with
  | c :: _ => if isDigit c then Some (sign * digits_value 0 s2) else None
  | [] => None
  end.

(** Decimal digits of a natural number, the way [String(n)] and template
    literals print an integer. *)
Definition digitsOfN (n : N) : jsstring :=
  js (NilZero.string_of_uint (N.to_uint n)).

Definition stringOfZ (z : Z) : jsstring :=
  if z <? 0 then 45%N :: digitsOfN (Z.to_N (- z)) else digitsOfN (Z.to_N z).

End Js.
Import Js.

(** ** The document tree of cheerio *)

Module Dom.

(** A node of the parsed document.  Element and attribute names are in
    lower case, as the HTML parser delivers them. *)
#[local] Unset Elimination Schemes.
Inductive node : Type :=
| Text (data : jsstring)
| Comment (data : jsstring)
| Element (name : jsstring) (attribs : list (jsstring * jsstring))
    (children : list node).
#[local] Set Elimination Schemes.

(** [attr(name)]: the first attribute of that name. *)
Fixpoint attr (name : jsstring) (attribs : list (jsstring * jsstring))
    : option jsstring :=
  match attribs with
  | [] => None
  | (k, v) :: rest => if eqb k name then Some v else attr name rest
  end.

Definition attribsOf (n : node) : list (jsstring * jsstring) :=
  match n with
  | Element _ a _ => a
  | _ => []
  end.

(** Type selector [name]. *)
Definition isTag (name : jsstring) (n : node) : bool :=
  match n with
  | Element nm _ _ => eqb nm name
  | _ => false
  end.

Definition isElement (n : node) : bool :=
  match n with
  | Element _ _ _ => true
  | _ => false
  end.

(** Node type 8. *)
Definition isComment (n : node) : bool :=
  match n with
  | Comment _ => true
  | _ => false
  end.

(** The white-space separated words of an attribute value. *)
Fixpoint words_from (cur : jsstring) (s : jsstring) : list jsstring :=
  let flush := match cur with [] => [] | _ => [reverse cur] end in
  match s with
  | [] => flush
  | c :: s' =>
      if isWhitespace c then flush ++ words_from [] s'
      else words_from (c :: cur) s'
  end.

Definition words (s : jsstring) : list jsstring := words_from [] s.

(** Class selector [.cls]. *)
Definition hasClass (cls : jsstring) (n : node) : bool :=
  isElement n &&
  match attr (js "class") (attribsOf n) with
  | Some v => existsb (eqb cls) (words v)
  | None => false
  end.

(** Attribute selector [[name*="part"]]. *)
Definition attrContains (name part : jsstring) (n : node) : bool :=
  isElement n &&
  match attr name (attribsOf n) with
  | Some v => includes part v
  | None => false
  end.

(** Attribute selector [[name="value"]]. *)
Definition attrIs (name value : jsstring) (n : node) : bool :=
  isElement n &&
  match attr name (attribsOf n) with
  | Some v => eqb v value
  | None => false
  end.

(** A selector list: the node matches one of the selectors. *)
Definition anyOf (sels : list (node -> bool)) (n : node) : bool :=
  existsb (fun sel => sel n) sels.

(** [remove()] of the nodes selected by [p], below [n]. *)
Fixpoint prune (p : node -> bool) (n : node) : node :=
  match n with
  | Element nm a cs =>
      Element nm a (flat_map (fun c => if p c then [] else [prune p c]) cs)
  | _ => n
  end.

(** [$(p).remove()] on the whole document, given as the children of its
    root. *)
Definition remove (p : node -> bool) (doc : list node) : list node :=
  flat_map (fun c => if p c then [] else [prune p c]) doc.

(** [$.root().find('*').contents().filter(p).remove()]: the nodes removed
    are children of elements, never children of the root. *)
Definition removeInElements (p : node -> bool) (doc : list node)
    : list node :=
  map (prune p) doc.

(** The nodes selected by [p] at or below [n], in document order. *)
Fixpoint selectIn (p : node -> bool) (n : node) : list node :=
  (if p n then [n] else []) ++
  match n with
  | Element _ _ cs => flat_map (selectIn p) cs
  | _ => []
  end.

(** [$(p)]. *)
Definition select (p : node -> bool) (doc : list node) : list node :=
  flat_map (selectIn p) doc.

(** [first()]. *)
Definition first (sel : list node) : list node := take 1 sel.

(** The text of one node: the data of the text nodes below it, in
    document order. *)
Fixpoint textContent (n : node) : jsstring :=
  match n with
  | Text d => d
  | Comment _ => []
  | Element _ _ cs => flat_map textContent cs
  end.

(** [text()] of a selection. *)
Definition text (sel : list node) : jsstring := flat_map textContent sel.

(** [attr(name)] of a selection: read on its first element. *)
Definition attrOf (name : jsstring) (sel : list node) : option jsstring :=
  match sel with
  | n :: _ => attr name (attribsOf n)
  | [] => None
  end.

End Dom.

(** ** web-search/html-parser.ts *)

Module HtmlParser.
Import Dom.

Definition MAX_TITLE_LEN : Z := 500.
Definition MAX_TEXT_LEN : Z := 50000.

Record ParsedHtmlContent : Type := {
  title : jsstring;
  content : jsstring;
  textContent : jsstring
}.

(** The selector list of the first [remove()]. *)
Definition removedSelectors : list (node -> bool) :=
  [ isTag (js "script"); isTag (js "style"); isTag (js "noscript");
    isTag (js "nav"); isTag (js "header"); isTag (js "footer");
    isTag (js "aside");
    hasClass (js "advertisement"); hasClass (js "ads");
    attrContains (js "class") (js "ad-");
    attrContains (js "class") (js "advertisement");
    attrContains (js "id") (js "ad-");
    attrContains (js "id") (js "advertisement") ].

(** The words of [/^(cookie|privacy|terms|skip|menu|search|login|register)$/i]. *)
Definition stoplist : list jsstring :=
  [ js "cookie"; js "privacy"; js "terms"; js "skip"; js "menu";
    js "search"; js "login"; js "register" ].

Definition isStopLine (line : jsstring) : bool :=
  existsb (eqb (toLower line)) stoplist.

(** The chain from [.text()] to the last [.trim()]. *)
Definition cleanText (raw : jsstring) : jsstring :=
  trim
    (collapseNewlines
       (join [LF]
          (List.filter (fun line => negb (isStopLine line))
             (List.filter (fun line => (0 <? len line) && (2 <? len line))
                (map trim (split LF raw)))))).

(** What is appended to a text that was cut. *)
Definition truncationSuffix : jsstring :=
  [LF; LF] ++ js "[Content truncated...]".

(** The block [if (textContent.length > MAX_TEXT_LEN) { ... }]. *)
Definition truncateText (textContent : jsstring) : jsstring :=
  if MAX_TEXT_LEN <? len textContent then
    let truncated := substring textContent 0 MAX_TEXT_LEN in
    let lastSentence := lastIndexOf (js ".") truncated in
    let lastParagraph := lastIndexOf [LF; LF] truncated in
    let cutPoint := Z.max lastSentence lastParagraph in
    substring truncated 0
      (if 40000 <? cutPoint then cutPoint else MAX_TEXT_LEN)
    ++ truncationSuffix
  else textContent.

(** [finalUrl.split('/').pop()?.split('?')[0]]. *)
Definition lastPathSegment (finalUrl : jsstring) : option jsstring :=
  match last (split 47%N finalUrl) with
  | Some seg => head (split 63%N seg)
  | None => None
  end.

Section Parser.

(** [cheerio.load]: the children of the root of the parsed document. *)
Variable load : jsstring -> list node.

(** [html()] of a selection: the serialised children of its first
    element, [None] when the selection is empty. *)
Variable innerHtml : list node -> option jsstring.

(** The document after the two [remove()] calls. *)
Definition cleaned (html : jsstring) : list node :=
  removeInElements isComment (remove (anyOf removedSelectors) (load html)).

(** The element the text is taken from. *)
Definition mainContentOf (doc : list node) : list node :=
  let mainContent :=
    first (select (anyOf [ isTag (js "main"); isTag (js "article");
                           attrIs (js "role") (js "main") ]) doc) in
  if bool_decide (mainContent = []) then
    let mainContent :=
      first (select (anyOf [ hasClass (js "content");
                             hasClass (js "main-content");
                             hasClass (js "post-content");
                             hasClass (js "entry-content");
                             hasClass (js "article-content") ]) doc) in
    if bool_decide (mainContent = []) then
      map (prune (anyOf [ isTag (js "nav"); isTag (js "header");
                          isTag (js "footer") ]))
          (select (isTag (js "body")) doc)
    else mainContent
  else mainContent.

Definition titleOf (doc : list node) (finalUrl : jsstring) : jsstring :=
  orStr (Some (trim (text (select (isTag (js "title")) doc))))
    (orStr (Some (trim (text (first (select (isTag (js "h1")) doc)))))
       (orStr (attrOf (js "content")
                 (select (fun n => isTag (js "meta") n &&
                            attrIs (js "property") (js "og:title") n) doc))
          (orStr (attrOf (js "content")
                    (select (fun n => isTag (js "meta") n &&
                               attrIs (js "name") (js "twitter:title") n)
                       doc))
             (orStr (lastPathSegment finalUrl) finalUrl)))).

Definition parseHtmlToContent (html finalUrl : jsstring)
    : ParsedHtmlContent :=
  let doc := cleaned html in
  let title_ := titleOf doc finalUrl in
  let mainContent := mainContentOf doc in
  let textContent_ := truncateText (cleanText (text mainContent)) in
  {| title := substring title_ 0 MAX_TITLE_LEN;
     content := orStr (innerHtml mainContent) [];
     textContent := textContent_ |}.

End Parser.

End HtmlParser.

(** ** web-search/sitemap-parser.ts *)

Module Sitemap.

(** The values [XMLParser.parse] builds: strings, numbers and booleans
    for leaf text, objects for elements with children, arrays for
    repeated elements.  It builds no [null]. *)
#[local] Unset Elimination Schemes.
Inductive jsval : Type :=
| JStr (s : jsstring)
| JNum (q : Q)
| JBool (b : bool)
| JObj (props : list (jsstring * jsval))
| JArr (items : list jsval).
#[local] Set Elimination Schemes.

(** [obj[key]] on own properties; [None] is [undefined]. *)
Fixpoint lookup (key : jsstring) (props : list (jsstring * jsval))
    : option jsval :=
  match props with
  | [] => None
  | (k, v) :: rest => if eqb k key then Some v else lookup key rest
  end.

(** [v.key] for one of the property names the parser reads ([url],
    [loc], [sitemap], ...): only an object has them. *)
Definition prop (v : jsval) (key : jsstring) : option jsval :=
  match v with
  | JObj props => lookup key props
  | _ => None
  end.

(** Truthiness of a value. *)
Definition truthy (v : jsval) : bool :=
  match v with
  | JStr s => Js.truthy s
  | JNum q => negb (Qeq_bool q 0)
  | JBool b => b
  | JObj _ | JArr _ => true
  end.

(** [typeof v === 'object']. *)
Definition isObject (v : jsval) : bool :=
  match v with
  | JObj _ | JArr _ => true
  | _ => false
  end.

(** [v && typeof v === 'object' && '#text' in v]. *)
Definition hasText (v : jsval) : bool :=
  match v with
  | JObj props => bool_decide (is_Some (lookup (js "#text") props))
  | _ => false
  end.

Inductive SitemapType : Type := urlset | sitemapindex.

Record SitemapUrl : Type := {
  loc : jsstring;
  lastmod : option jsval;
  changefreq : option jsval;
  priority : option jsval
}.

Record SitemapRef : Type := {
  ref_loc : jsstring;
  ref_lastmod : option jsval
}.

(** [Omit<FetchSitemapResult, 'url'>]. *)
Record FetchSitemapResult : Type := {
  type : SitemapType;
  urls : option (list SitemapUrl);
  sitemaps : option (list SitemapRef)
}.

(** [Array.isArray(x) ? x : x ? [x] : []]. *)
Definition asList (x : option jsval) : list jsval :=
  match x with
  | Some (JArr items) => items
  | Some v => if truthy v then [v] else []
  | None => []
  end.

Section Parser.

(** [String(v)] for a value that is not a string. *)
Variable toStringOther : jsval -> jsstring.

(** [XMLParser.parse] with [ignoreDeclaration]: the own properties of
    the object it returns, in insertion order. *)
Variable xmlParse : jsstring -> list (jsstring * jsval).

Definition String_ (v : jsval) : jsstring :=
  match v with
  | JStr s => s
  | _ => toStringOther v
  end.

Definition getStr (v : option jsval) : option jsval :=
  match v with
  | Some (JStr s) => Some (JStr s)
  | Some (JObj props) => lookup (js "#text") props
  | _ => None
  end.

(** [String(loc || '')] with [loc = getStr(u.loc) ?? '']. *)
Definition locOf (u : jsval) : jsstring :=
  match getStr (prop u (js "loc")) with
  | Some loc_ => if truthy loc_ then String_ loc_ else []
  | None => []
  end.

Definition toUrlList (urlset_ : jsval) : list SitemapUrl :=
  let urlList := asList (prop urlset_ (js "url")) in
  List.filter (fun u => Js.truthy (loc u))
    (map (fun u =>
            {| loc := locOf u;
               lastmod := getStr (prop u (js "lastmod"));
               changefreq := getStr (prop u (js "changefreq"));
               priority := getStr (prop u (js "priority")) |})
         urlList).

Definition toSitemapEntries (sitemapindex_ : jsval) : list SitemapRef :=
  let list_ := asList (prop sitemapindex_ (js "sitemap")) in
  omap (fun s_ =>
          let loc_ :=
            match prop s_ (js "loc") with
            | Some (JStr l) => JStr l
            | Some (JObj props) =>
                default (JStr []) (lookup (js "#text") props)
            | _ => JStr []
            end in
          (* the conditional on [lastmodRaw] is the one of [getStr] *)
          let lastmod_ := getStr (prop s_ (js "lastmod")) in
          match loc_ with
          | JStr (c :: l) =>
              Some {| ref_loc := c :: l; ref_lastmod := lastmod_ |}
          | _ => None
          end)
       list_.

(** [/word/i.test(key)]. *)
Definition testI (word key : jsstring) : bool :=
  includes word (toLower key).

(** [v && typeof v === 'object']. *)
Definition isTruthyObject (v : option jsval) : bool :=
  match v with
  | Some v => truthy v && isObject v
  | None => false
  end.

(** The value of the local [urlset] (or [sitemapindex]):
    [obj.word ?? obj['word'] ?? (rootKey && /word/i.test(rootKey) ?
    obj[rootKey] : undefined)]. *)
Definition rootValue (word : jsstring) (obj : list (jsstring * jsval))
    : option jsval :=
  let rootKey := head (map fst obj) in
  match lookup word obj with
  | Some v => Some v
  | None =>
      match rootKey with
      | Some k => if Js.truthy k && testI word k then lookup k obj else None
      | None => None
      end
  end.

(** The body of [parseSitemapXml] on the parsed object. *)
Definition parseSitemapObj (obj : list (jsstring * jsval))
    : FetchSitemapResult :=
  let urlset_ := rootValue (js "urlset") obj in
  let sitemapindex_ := rootValue (js "sitemapindex") obj in
  if isTruthyObject sitemapindex_ then
    {| type := sitemapindex; urls := None;
       sitemaps := Some (toSitemapEntries (default (JStr []) sitemapindex_)) |}
  else if isTruthyObject urlset_ then
    {| type := urlset;
       urls := Some (toUrlList (default (JStr []) urlset_));
       sitemaps := None |}
  else {| type := urlset; urls := Some []; sitemaps := None |}.

Definition parseSitemapXml (xml : jsstring) : FetchSitemapResult :=
  parseSitemapObj (xmlParse xml).

End Parser.

End Sitemap.

(** ** Effects: the limiter, the clock and the network *)

Module Eff.

(** The errors the program tells apart: by [name] ([AbortError]), by
    class ([RateLimitError], whose [code] is [RATE_LIMITED]) or only by
    message. *)
Inductive ErrorClass : Type :=
| PlainError | TypeError | SyntaxError | AbortError | RateLimitError.

Record exn : Type := { cls : ErrorClass; message : jsstring }.

(** [err.name === 'AbortError']. *)
Definition isAbortError (e : exn) : bool :=
  match cls e with AbortError => true | _ => false end.

(** [err instanceof RateLimitError]. *)
Definition isRateLimitError (e : exn) : bool :=
  match cls e with RateLimitError => true | _ => false end.

(** One entry of the result list of a search API, as decoded from JSON;
    every field may be missing. *)
Record RawResult : Type := {
  r_title : option jsstring;
  r_url : option jsstring;
  r_content : option jsstring;
  r_snippet : option jsstring;
  r_description : option jsstring
}.

Record Response : Type := {
  status : Z;
  statusText : jsstring;
  headers : list (jsstring * jsstring);
  url : jsstring;
  body : jsstring;
  (* [await response.json()]: [None] when the body is not JSON, else the
     result list of the decoded body, [None] when it has none *)
  json : option (option (list RawResult))
}.

(** [response.ok]. *)
Definition ok (r : Response) : bool :=
  (200 <=? status r) && (status r <=? 299).

(** [response.headers.get(name)]: header names compare without case. *)
Fixpoint header (name : jsstring) (hs : list (jsstring * jsstring))
    : option jsstring :=
  match hs with
  | [] => None
  | (k, v) :: rest =>
      if eqb (toLower k) (toLower name) then Some v else header name rest
  end.

Definition headers_get (r : Response) (name : jsstring) : option jsstring :=
  header name (headers r).

(** What the network answers to one request: after [latency]
    milliseconds, a response or a failure. *)
Record reply : Type := { latency : Z; outcome : exn + Response }.

Inductive event : Type :=
| Fetched (url : jsstring)   (* a request went out *)
| Waited (ms : Z)            (* the limiter suspended its caller *).

(** The state a service call runs in. *)
Record world : Type := {
  limiter : RateLimiter.t;
  clock : Z;
  events : list event   (* in the order they happened *)
}.

Inductive result (A : Type) : Type :=
| Return (a : A)
| Throw (e : exn).
Arguments Return {A} a.
Arguments Throw {A} e.

Definition M (A : Type) : Type := world -> result A * world.

Definition ret {A} (a : A) : M A := fun w => (Return a, w).
Definition throw {A} (e : exn) : M A := fun w => (Throw e, w).
Definition bind {A B} (m : M A) (k : A -> M B) : M B :=
  fun w =>
    match m w with
    | (Return a, w') => k a w'
    | (Throw e, w') => (Throw e, w')
    end.
Definition catch {A} (m : M A) (handler : exn -> M A) : M A :=
  fun w =>
    match m w with
    | (Return a, w') => (Return a, w')
    | (Throw e, w') => handler e w'
    end.

Definition Error {A} (msg : jsstring) : M A :=
  throw {| cls := PlainError; message := msg |}.

(** [await this.rateLimiter.acquire(operation)].  The timer of the
    suspended path fires after [waitTime] milliseconds, and no other call
    on the limiter runs in between. *)
Definition acquire (operation : string) : M unit :=
  fun w =>
    match RateLimiter.acquire_begin (limiter w) operation (clock w) with
    | RateLimiter.NotConfigured =>
        (Throw {| cls := PlainError;
                  message := js "Rate limiter not configured for operation: "
                             ++ js operation |}, w)
    | RateLimiter.Consumed s' =>
        (Return tt,
         {| limiter := s'; clock := clock w; events := events w |})
    | RateLimiter.Suspended s' waitTime m r =>
        let resumed := clock w + Z.max 0 waitTime in
        (Return tt,
         {| limiter := RateLimiter.acquire_resume s' operation m r resumed;
            clock := resumed;
            events := events w ++ [Waited waitTime] |})
    end.

Definition getRemainingTokens (operation : string) : M Z :=
  fun w =>
    let '(n, s') :=
      RateLimiter.getRemainingTokens (limiter w) operation (clock w) in
    (Return n, {| limiter := s'; clock := clock w; events := events w |}).

Definition configure (operation : string) (maxRequests windowMs : Q)
    : M unit :=
  fun w =>
    (Return tt,
     {| limiter := RateLimiter.configure (limiter w) operation
                     maxRequests windowMs (clock w);
        clock := clock w; events := events w |}).

Section Network.

(** The network: what a request sent at a given time to a given URL is
    answered. *)
Variable net : Z -> jsstring -> reply.

(** [fetch(url, { signal })] with [setTimeout(() => controller.abort(),
    timeoutMs)]: the request is aborted when no answer came in time. *)
Definition fetchAbortable (url_ : jsstring) (timeoutMs : Z)
    : M Response :=
  fun w =>
    let rp := net (clock w) url_ in
    let sent := events w ++ [Fetched url_] in
    if timeoutMs <? latency rp then
      (Throw {| cls := AbortError;
                message := js "The user aborted a request." |},
       {| limiter := limiter w; clock := clock w + timeoutMs;
          events := sent |})
    else
      let w' := {| limiter := limiter w;
                   clock := clock w + Z.max 0 (latency rp);
                   events := sent |} in
      match outcome rp with
      | inl e => (Throw e, w')
      | inr r => (Return r, w')
      end.

End Network.

(** The requests of a run, in order. *)
Definition fetches (evs : list event) : list jsstring :=
  omap (fun e => match e with Fetched u => Some u | Waited _ => None end)
    evs.

Definition waits (evs : list event) : list Z :=
  omap (fun e => match e with Waited ms => Some ms | Fetched _ => None end)
    evs.

End Eff.

Declare Scope eff_scope.
Delimit Scope eff_scope with eff.
Notation "'let*' x := m 'in' k" := (Eff.bind m (fun x => k))
  (at level 10, x name, m at level 100, k at level 200) : eff_scope.
Notation "m ;; k" := (Eff.bind m (fun _ => k))
  (at level 100, k at level 200, right associativity) : eff_scope.

(** ** web-search/http-utils.ts *)

Module HttpUtils.
Import Eff.

Section Utils.

Variable net : Z -> jsstring -> reply.

(** [new URL(url).href]; [None] when the constructor throws. *)
Variable URL_href : jsstring -> option jsstring.

(** [new URL(location, base).href]; [None] when the constructor
    throws. *)
Variable URL_resolve : jsstring -> jsstring -> option jsstring.

Definition InvalidURL {A} : M A :=
  throw {| cls := TypeError; message := js "Invalid URL" |}.

Definition cleanUrl (url_ : jsstring) : jsstring :=
  if negb (truthy url_) then url_
  else match URL_href url_ with
       | Some href => href
       | None => url_
       end.

(** The request headers do not appear in the model of the network. *)
Definition fetchWithTimeout (url_ : jsstring) (timeoutMs : Z)
    : M Response :=
  catch (fetchAbortable net url_ timeoutMs) (fun err => throw err).

Definition follow300Redirect (response : Response)
    (originalUrl : jsstring) (timeoutMs : Z) : M Response :=
  if negb (status response =? 300) then ret response
  else
    match headers_get response (js "Location") with
    | Some (c :: l) =>
        let location := c :: l in
        match URL_resolve location originalUrl with
        | Some redirectUrl => fetchWithTimeout redirectUrl timeoutMs
        | None => InvalidURL
        end
    | _ =>
        Error (js "HTTP 300: Multiple Choices - No Location header provided")
    end.

End Utils.

End HttpUtils.

(** ** web-search/web-search.service.ts *)

Module WebSearchService.
Import Eff HttpUtils.

Definition FETCH_TIMEOUT_MS : Z := 15000.

Record FetchResult : Type := {
  url : jsstring;
  title : jsstring;
  content : jsstring;
  textContent : jsstring
}.

(** The constructor: the limiter it is given, or a new one, configured for
    the class [fetch]. *)
Definition create (rateLimiter : option RateLimiter.t) (now : Z)
    : RateLimiter.t :=
  RateLimiter.configure (default RateLimiter.create rateLimiter)
    "fetch" 20 60000 now.

Section Service.

Variable net : Z -> jsstring -> reply.
Variable URL_href : jsstring -> option jsstring.
Variable URL_resolve : jsstring -> jsstring -> option jsstring.
Variable load : jsstring -> list Dom.node.
Variable innerHtml : list Dom.node -> option jsstring.

Definition unsupportedText (contentType : jsstring) : jsstring :=
  js "Content type " ++ contentType ++
  js " is not supported. Only HTML and plain text are supported.".

(** The statements of the [try] block after the two fetches. *)
Definition readResponse (response : Response) (normalized : jsstring)
    : M FetchResult :=
  (if negb (ok response) then
     Error (js "HTTP " ++ stringOfZ (status response) ++ js ": "
            ++ statusText response)
   else
     let contentType :=
       orStr (headers_get response (js "content-type")) [] in
     let finalUrl :=
       if truthy (Eff.url response) then Eff.url response
       else normalized in
     if negb (includes (js "text/html") contentType) &&
        negb (includes (js "text/plain") contentType) then
       ret {| url := finalUrl;
              title := js "Non-text content";
              content := [];
              textContent := unsupportedText contentType |}
     else
       let body_ := body response in
       if includes (js "text/plain") contentType then
         let truncated := substring body_ 0 50000 in
         ret {| url := finalUrl;
                title := orStr (last (split 47%N finalUrl)) finalUrl;
                content := truncated;
                textContent := truncated |}
       else
         let parsed :=
           HtmlParser.parseHtmlToContent load innerHtml body_ finalUrl in
         ret {| url := finalUrl;
                title := HtmlParser.title parsed;
                content := HtmlParser.content parsed;
                textContent := HtmlParser.textContent parsed |})%eff.

(** The [catch] block of [fetchUrl]. *)
Definition classify (url_ : jsstring) (err : exn) : M FetchResult :=
  if isAbortError err then
    Error (js "URL fetch request timed out after 15 seconds")
  else if includes (js "Invalid URL") (message err) then
    Error (js "Invalid URL: " ++ url_)
  else if includes (js "rate limit") (message err) then
    Error (js "Rate limit exceeded. Please wait before trying again.")
  else Error (js "Failed to fetch URL: " ++ message err).

Definition fetchUrl (url_ : jsstring) : M FetchResult :=
  (acquire "fetch" ;;
   let normalized := cleanUrl URL_href url_ in
   match URL_href normalized with
   | None => InvalidURL
   | Some _ =>
       catch
         (let* response :=
            fetchWithTimeout net normalized FETCH_TIMEOUT_MS in
          let* response :=
            follow300Redirect net URL_resolve response normalized
              FETCH_TIMEOUT_MS in
          readResponse response normalized)
         (classify url_)
   end)%eff.

Definition getRemainingFetchTokens : M Z := getRemainingTokens "fetch".

End Service.

End WebSearchService.

(** ** searxng.service.ts *)

Module SearXNGService.
Import Eff HttpUtils.

Record SearXNGResult : Type := {
  title : jsstring;
  url : jsstring;
  snippet : jsstring
}.

Record SearXNGSearchParams : Type := {
  searxng_base_url : jsstring;
  query : jsstring;
  format : option jsstring;
  categories : option jsstring;
  language : option jsstring;
  pageno : option Z;
  time_range : option jsstring;
  safesearch : option Z;
  max_results : option Z
}.

(** The constructor: the limiter it is given, or a new one, configured for
    the class [searxng] (30 requests per minute). *)
Definition create (rateLimiter : option RateLimiter.t) (now : Z)
    : RateLimiter.t :=
  RateLimiter.configure (default RateLimiter.create rateLimiter)
    "searxng" 30 60000 now.

(** [s.replace(/\/+$/, '')]. *)
Fixpoint dropSlashes (reversed : jsstring) : jsstring :=
  match reversed with
  | 47%N :: r => dropSlashes r
  | _ => reversed
  end.

Definition normalizeBaseUrl (baseUrl : jsstring) : jsstring :=
  if negb (truthy baseUrl) then baseUrl
  else reverse (dropSlashes (reverse (trim baseUrl))).

Definition whenSet (name : string) (v : option jsstring)
    : list (jsstring * jsstring) :=
  match v with
  | Some (c :: l) => [(js name, c :: l)]
  | _ => []
  end.

Definition whenNumber (name : string) (v : option Z)
    : list (jsstring * jsstring) :=
  match v with
  | Some z => [(js name, stringOfZ z)]
  | None => []
  end.

(** [slice(0, n)]. *)
Definition slice0 {A} (n : Z) (l : list A) : list A :=
  if 0 <=? n then take (Z.to_nat n) l
  else take (Z.to_nat (Z.of_nat (length l) + n)) l.

Definition rateLimitedMessage : jsstring :=
  js "SearXNG search rate limited (30 requests per minute). Try again later or check get_rate_limit_status for remaining tokens.".

Section Service.

Variable net : Z -> jsstring -> reply.

(** [new URL(path)] with its [searchParams] set in order, then
    [toString()]; [None] when the constructor throws. *)
Variable URL_withParams
  : jsstring -> list (jsstring * jsstring) -> option jsstring.

Definition buildSearchUrl (baseUrl : jsstring)
    (params : SearXNGSearchParams) : option jsstring :=
  let base := normalizeBaseUrl baseUrl in
  let searchPath :=
    if endsWith (js "/search") base then base
    else base ++ js "/search" in
  URL_withParams searchPath
    ([ (js "q", query params);
       (js "format", orStr (format params) (js "json")) ]
     ++ whenSet "categories" (categories params)
     ++ whenSet "language" (language params)
     ++ whenNumber "pageno" (pageno params)
     ++ whenSet "time_range" (time_range params)
     ++ whenNumber "safesearch" (safesearch params)).

(** The [try] block of [search]. *)
Definition request (searchUrl : jsstring) (max : Z)
    : M (list SearXNGResult) :=
  (let* response := fetchAbortable net searchUrl 20000 in
   if negb (ok response) then
     if status response =? 403 then
       Error (js "SearXNG returned 403. The instance may not allow JSON format or may block this client.")
     else if status response =? 429 then
       throw {| cls := RateLimitError;
                message := js "SearXNG instance rate limit exceeded (HTTP 429). Try again later." |}
     else
       Error (js "SearXNG returned " ++ stringOfZ (status response)
              ++ js ": " ++ statusText response)
   else
     let contentType :=
       orStr (headers_get response (js "content-type")) [] in
     if negb (includes (js "application/json") contentType) then
       Error (js "SearXNG returned non-JSON content type: "
              ++ contentType)
     else
       match json response with
       | None =>
           throw {| cls := SyntaxError;
                    message := js "Unexpected token in JSON" |}
       | Some data =>
           let rawResults := default [] data in
           ret (List.filter (fun r => truthy (url r))
                  (map (fun r =>
                          {| title :=
                               substring
                                 (orStr (r_title r) (js "No title"))
                                 0 500;
                             url := orStr (r_url r) [];
                             snippet :=
                               substring
                                 (orStr (r_content r)
                                    (orStr (r_snippet r) []))
                                 0 500 |})
                       (slice0 max rawResults)))
       end)%eff.

Definition search (params : SearXNGSearchParams)
    : M (list SearXNGResult) :=
  (if negb (truthy (searxng_base_url params)) ||
      negb (truthy (trim (searxng_base_url params))) then
     Error (js "searxng_base_url is required and must be a non-empty string")
   else if negb (truthy (query params)) ||
           negb (truthy (trim (query params))) then
     Error (js "query is required and must be a non-empty string")
   else
     let* remaining := getRemainingTokens "searxng" in
     if remaining <? 1 then
       throw {| cls := RateLimitError; message := rateLimitedMessage |}
     else
       acquire "searxng" ;;
       match buildSearchUrl (searxng_base_url params) params with
       | None => InvalidURL
       | Some searchUrl =>
           let max_ := default 10 (max_results params) in
           let max :=
             Z.min (Z.max 1 (if max_ =? 0 then 10 else max_)) 50 in
           catch (request searchUrl max)
             (fun err =>
                if isAbortError err then
                  Error (js "SearXNG request timed out")
                else throw err)
       end)%eff.

Definition getRemainingSearchTokens : M Z := getRemainingTokens "searxng".

End Service.

End SearXNGService.

(** ** services/web-search.service.ts, the service that queries the Brave
    Search API *)

Module BraveWebSearchService.
Import Eff HttpUtils.

Record SearchResult : Type := {
  title : jsstring;
  url : jsstring;
  snippet : jsstring
}.

(** The constructor configures the classes [search] and [fetch]. *)
Definition create (rateLimiter : option RateLimiter.t) (now : Z)
    : RateLimiter.t :=
  RateLimiter.configure
    (RateLimiter.configure (default RateLimiter.create rateLimiter)
       "search" 1 1000 now)
    "fetch" 20 60000 now.

(** [header.split(',').map(v => parseInt(v.trim(), 10))]. *)
Definition parseList (header : jsstring) : list (option Z) :=
  map (fun v => parseInt (trim v)) (split 44%N header).

(** A number in a template literal. *)
Definition showNumber (n : option Z) : jsstring :=
  match n with
  | Some z => stringOfZ z
  | None => js "NaN"
  end.

Definition nonEmpty (h : option jsstring) : option jsstring :=
  match h with
  | Some (c :: l) => Some (c :: l)
  | _ => None
  end.

Definition updateRateLimiterFromBraveHeaders (response : Response)
    : M unit :=
  match nonEmpty (headers_get response (js "X-RateLimit-Limit")) with
  | Some limitHeader =>
      let limits := parseList limitHeader in
      match head limits with
      | Some (Some perSecondLimit) =>
          if negb (perSecondLimit =? 0) && (0 <? perSecondLimit) then
            configure "search" (inject_Z perSecondLimit) 1000
          else ret tt
      | _ => ret tt
      end
  | None => ret tt
  end.

(** The message of the error raised on HTTP 429. *)
Definition rateLimitMessage (response : Response) : jsstring :=
  let retryAfter := nonEmpty (headers_get response (js "Retry-After")) in
  let resetHeader :=
    nonEmpty (headers_get response (js "X-RateLimit-Reset")) in
  let errorMessage := js "Brave API rate limit exceeded." in
  let errorMessage :=
    match retryAfter, resetHeader with
    | Some ra, _ =>
        errorMessage ++ js " Retry after " ++ showNumber (parseInt ra)
        ++ js " seconds."
    | None, Some rh =>
        errorMessage ++ js " Rate limit resets in "
        ++ showNumber (default None (head (parseList rh)))
        ++ js " seconds."
    | None, None => errorMessage
    end in
  match nonEmpty (headers_get response (js "X-RateLimit-Remaining")) with
  | Some rem =>
      let remaining := parseList rem in
      errorMessage ++ js " Remaining: "
      ++ showNumber (default None (head remaining))
      ++ js " per-second, "
      ++ match remaining with
         | _ :: second :: _ => showNumber second
         | _ => js "N/A"
         end
      ++ js " per-month."
  | None => errorMessage
  end.

Section Service.

Variable net : Z -> jsstring -> reply.
Variable URL_withParams
  : jsstring -> list (jsstring * jsstring) -> option jsstring.

Definition braveEndpoint : jsstring :=
  js "https://api.search.brave.com/res/v1/web/search".

(** The [try] block of [searchBrave]. *)
Definition request (searchUrl : jsstring) (maxResults : Z)
    : M (list SearchResult) :=
  (let* response := fetchAbortable net searchUrl 15000 in
   updateRateLimiterFromBraveHeaders response ;;
   if negb (ok response) then
     if (status response =? 401) || (status response =? 403) then
       Error (js "Brave API authentication failed ("
              ++ stringOfZ (status response)
              ++ js "). Please check your brave_api_key parameter.")
     else if status response =? 429 then
       Error (rateLimitMessage response)
     else
       Error (js "Brave API returned status "
              ++ stringOfZ (status response) ++ js ": "
              ++ statusText response)
   else
     match json response with
     | None =>
         throw {| cls := SyntaxError;
                  message := js "Unexpected token in JSON" |}
     | Some None | Some (Some []) => ret []
     | Some (Some results) =>
         ret (List.filter (fun r => truthy (url r) && truthy (title r))
                (map (fun r =>
                        {| title :=
                             orStr
                               (option_map (fun t => substring t 0 500)
                                  (r_title r))
                               (js "No title");
                           url := orStr (r_url r) [];
                           snippet :=
                             substring
                               (orStr (r_description r)
                                  (js "No description available"))
                               0 500 |})
                     (SearXNGService.slice0 maxResults results)))
     end)%eff.

Definition searchBrave (query braveApiKey : jsstring) (maxResults : Z)
    : M (list SearchResult) :=
  match URL_withParams braveEndpoint
          [ (js "q", query); (js "count", stringOfZ maxResults);
            (js "safesearch", js "moderate") ] with
  | None => InvalidURL
  | Some searchUrl =>
      catch (request searchUrl maxResults)
        (fun error =>
           if isAbortError error then
             Error (js "Brave Search API request timed out")
           else throw error)
  end.

Definition searchWeb (query braveApiKey : jsstring) (maxResults : Z)
    : M (list SearchResult) :=
  (if negb (truthy braveApiKey) || (len (trim braveApiKey) =? 0) then
     Error (js "Web search requires brave_api_key parameter to be provided. The API key must be included in the tool call parameters. Get your free API key at: https://brave.com/search/api")
   else
     acquire "search" ;;
     let max := Z.min maxResults 20 in
     searchBrave query braveApiKey max)%eff.

End Service.

End BraveWebSearchService.

(** ** Vocabulary of the statements about the limiter *)

Module Calls.
Import RateLimiter.

(** A call on the limiter, with the clock values it reads. *)
Inductive call : Type :=
| Configure (operation : string) (maxRequests windowMs : Q) (now : Z)
| Acquire (operation : string) (now resumed : Z)
| GetRemainingTokens (operation : string) (now : Z).

(** The limiter after a call; an [acquire] that throws leaves it as it
    was. *)
Definition step (s : t) (c : call) : t :=
  match c with
  | Configure op m w now => configure s op m w now
  | Acquire op now resumed => default s (acquire s op now resumed)
  | GetRemainingTokens op now => snd (getRemainingTokens s op now)
  end.

Definition run (s : t) (cs : list call) : t := fold_left step cs s.

(** A configuration has a positive capacity and a positive window, as
    every call of [configure] in the program has. *)
Definition sane (c : call) : Prop :=
  match c with
  | Configure _ m w _ => (0 < m)%Q /\ (0 < w)%Q
  | _ => True
  end.



(** What the calls maintain for a class: it is configured with a positive
    capacity and a positive rate and holds no more than its capacity, or
    it is not configured at all. *)
Definition bucket_ok (s : t) (op : string) : Prop :=
  match maxTokens s !! op, refillRate s !! op with
  | Some m, Some r => (0 < m)%Q /\ (0 < r)%Q /\ (tokensOf s op <= m)%Q
  | None, None => True
  | _, _ => False
  end.

End Calls.

(** The content-acquisition service as it starts ([fetch]: 20 requests per
    minute, configured when the clock shows 1000), then [n] calls of
    [acquire] at that same instant; a call that has to wait resumes 3000 ms
    later. *)
Definition fetchBurst (n : nat) : list Calls.call :=
  Calls.Configure "fetch" 20 60000 1000
  :: repeat (Calls.Acquire "fetch" 1000 4000) n.

(** A class of 10 requests per second, then [n] calls of [acquire] at the
    same instant; a call that has to wait resumes 100 ms later. *)
Definition fastBurst (n : nat) : list Calls.call :=
  Calls.Configure "search" 10 1000 1000
  :: repeat (Calls.Acquire "search" 1000 1100) n.

(** ** Vocabulary of the statements about text *)

(** [needle] starts at position [i] of [s]. *)
Definition occursAt (needle s : jsstring) (i : Z) : Prop :=
  0 <= i /\ startsWith needle (drop (Z.to_nat i) s) = true.

(** [i] is the last position at which [needle] starts in [s], or [-1] when
    it starts nowhere. *)
Definition lastOccurrence (needle s : jsstring) (i : Z) : Prop :=
  (i = -1 /\ forall j, ~ occursAt needle s j) \/
  (occursAt needle s i /\ forall j, occursAt needle s j -> j <= i).

(** The marker of a cut text, as the specification quotes it. *)
Definition truncationMarker : jsstring := js "[Content truncated...]".

(** A document whose body is one text of 50,001 letters [a], and no
    serialiser. *)
Definition longDocument (html : jsstring) : list Dom.node :=
  [ Dom.Element (js "html") []
      [ Dom.Element (js "head") [] [];
        Dom.Element (js "body") []
          [ Dom.Element (js "p") [] [ Dom.Text (repeat 97%N (Z.to_nat 50001)) ] ] ] ].

Definition noSerializer (sel : list Dom.node) : option jsstring := None.

(** ** Vocabulary of the statements about documents *)

(** The elements whose content is code or styling. *)
Definition scriptLike : Dom.node -> bool :=
  Dom.anyOf [ Dom.isTag (js "script"); Dom.isTag (js "style");
              Dom.isTag (js "noscript") ].

(** A selector that looks at the name and the attributes of a node only. *)
Definition shallow (p : Dom.node -> bool) : Prop :=
  forall nm a cs cs',
    p (Dom.Element nm a cs) = p (Dom.Element nm a cs').

(** The source [<script>malicious()</script><p>Hello world is long
    enough</p>] and the tree the HTML parser builds for it: the script goes
    to the head, the paragraph to the body. *)
Definition sampleHtml : jsstring :=
  js "<script>malicious()</script><p>Hello world is long enough</p>".

Definition sampleDocument (html : jsstring) : list Dom.node :=
  [ Dom.Element (js "html") []
      [ Dom.Element (js "head") []
          [ Dom.Element (js "script") [] [ Dom.Text (js "malicious()") ] ];
        Dom.Element (js "body") []
          [ Dom.Element (js "p") []
              [ Dom.Text (js "Hello world is long enough") ] ] ] ].

(** The same page with another script. *)
Definition otherSampleDocument (html : jsstring) : list Dom.node :=
  [ Dom.Element (js "html") []
      [ Dom.Element (js "head") []
          [ Dom.Element (js "script") [] [ Dom.Text (js "harmless()") ] ];
        Dom.Element (js "body") []
          [ Dom.Element (js "p") []
              [ Dom.Text (js "Hello world is long enough") ] ] ] ].

Definition sampleUrl : jsstring := js "https://example.org/page".

(** ** Vocabulary of the statements about sitemaps *)

Module SitemapDocs.
Import Sitemap.

(** What [XMLParser.parse] returns for [<url><loc>l</loc></url>] (or for
    [<sitemap><loc>l</loc></sitemap>]). *)
Definition locEntry (l : jsstring) : jsval := JObj [(js "loc", JStr l)].

(** The value of a child element that occurs once (the element itself) or
    several times (an array). *)
Definition repeated (entries : list jsval) : jsval :=
  match entries with
  | [e] => e
  | _ => JArr entries
  end.

(** What [XMLParser.parse] returns for a [<urlset>] whose children are
    [<url><loc>] entries with the given locations; an element without
    children is the empty string. *)
Definition urlsetObject (locs : list jsstring) : list (jsstring * jsval) :=
  [ (js "urlset",
     match locs with
     | [] => JStr []
     | _ => JObj [(js "url", repeated (map locEntry locs))]
     end) ].

(** The same for a [<sitemapindex>] of [<sitemap><loc>] entries. *)
Definition sitemapindexObject (locs : list jsstring)
    : list (jsstring * jsval) :=
  [ (js "sitemapindex",
     match locs with
     | [] => JStr []
     | _ => JObj [(js "sitemap", repeated (map locEntry locs))]
     end) ].

Definition plainUrl (l : jsstring) : SitemapUrl :=
  {| loc := l; lastmod := None; changefreq := None; priority := None |}.

Definition plainRef (l : jsstring) : SitemapRef :=
  {| ref_loc := l; ref_lastmod := None |}.


(** A parser for the examples: it prints no number and returns the empty
    index or the three-entry sitemap whatever the source. *)
Definition noToString (v : jsval) : jsstring := [].


Definition exampleLocs : list jsstring :=
  [ js "https://example.org/a"; js "https://example.org/b";
    js "https://example.org/c" ].

Definition exampleChildren : list jsstring :=
  [ js "https://example.org/sitemap-1.xml";
    js "https://example.org/sitemap-2.xml" ].

Definition urlsetParser (xml : jsstring) : list (jsstring * jsval) :=
  urlsetObject exampleLocs.

Definition indexParser (xml : jsstring) : list (jsstring * jsval) :=
  sitemapindexObject exampleChildren.

End SitemapDocs.

(** ** Vocabulary of the statements about the services *)

Module Scenario.
Import Eff.

(** The per-second limit a response reports: the first field of its
    [X-RateLimit-Limit] header, [None] when the header is missing or empty
    or the field is no number. *)
Definition perSecondLimit (response : Response) : option Z :=
  match BraveWebSearchService.nonEmpty
          (headers_get response (js "X-RateLimit-Limit")) with
  | Some limitHeader =>
      default None (head (BraveWebSearchService.parseList limitHeader))
  | None => None
  end.

(** A response with the given status, headers and body, obtained from
    [url_]. *)
Definition respond (status_ : Z) (headers_ : list (jsstring * jsstring))
    (url_ body_ : jsstring) : Response :=
  {| status := status_; statusText := [];
     headers := headers_; url := url_; body := body_;
     json := Some (Some []) |}.

(** A network that answers every request after 120 ms with the same
    response. *)
Definition always (response : Response) (now : Z) (url_ : jsstring) : reply :=
  {| latency := 120; outcome := inr response |}.

(** The URL functions of the scenarios: every string is a URL, a location
    resolves to itself, and the parameters of a query are left out. *)
Definition anyUrl (u : jsstring) : option jsstring := Some u.
Definition resolveToItself (location base : jsstring) : option jsstring :=
  Some location.
Definition pathOnly (path : jsstring) (params : list (jsstring * jsstring))
    : option jsstring := Some path.

(** A world whose limiter a fresh service has just configured, at the time
    its clock shows. *)
Definition braveWorld : world :=
  {| limiter := BraveWebSearchService.create None 5000;
     clock := 5000; events := [] |}.

Definition fetchWorld : world :=
  {| limiter := WebSearchService.create None 5000;
     clock := 5000; events := [] |}.

(** A search service that has used its thirty tokens within the same
    millisecond. *)
Definition exhaustedWorld : world :=
  {| limiter :=
       Calls.run (SearXNGService.create None 5000)
         (repeat (Calls.Acquire "searxng" 5000 5000) 30);
     clock := 5000; events := [] |}.

Definition someSearch : SearXNGService.SearXNGSearchParams :=
  {| SearXNGService.searxng_base_url := js "https://search.example.org";
     SearXNGService.query := js "rocq";
     SearXNGService.format := None;
     SearXNGService.categories := None;
     SearXNGService.language := None;
     SearXNGService.pageno := None;
     SearXNGService.time_range := None;
     SearXNGService.safesearch := None;
     SearXNGService.max_results := None |}.

(** Responses of the Brave API with a rate-limit header. *)
Definition braveReply (limit : string) : Response :=
  respond 200 [(js "x-ratelimit-limit", js limit)]
    BraveWebSearchService.braveEndpoint (js "{}").

(** A plain-text page, a page that answers 300 with a location, and its
    target. *)
Definition plainPage : Response :=
  respond 200 [(js "content-type", js "text/plain; charset=utf-8")]
    (js "https://example.org/notes.txt") (js "some notes").

Definition multipleChoices : Response :=
  respond 300 [(js "location", js "https://example.org/new")]
    (js "https://example.org/old") [].

End Scenario.

(** A computation that leaves the capacity and the rate of every class as
    they are. *)
Definition keepsConfig {A} (m : Eff.M A) : Prop :=
  forall w,
    RateLimiter.maxTokens (Eff.limiter (snd (m w)))
      = RateLimiter.maxTokens (Eff.limiter w) /\
    RateLimiter.refillRate (Eff.limiter (snd (m w)))
      = RateLimiter.refillRate (Eff.limiter w).

(** A SearXNG instance that reports a rate limit of five requests per
    second with its results. *)
Definition searxngReply : Eff.Response :=
  Scenario.respond 200
    [ (js "content-type", js "application/json");
      (js "x-ratelimit-limit", js "5, 100") ]
    (js "https://search.example.org/search") (js "{}").

Definition searxngWorld : Eff.world :=
  {| Eff.limiter := SearXNGService.create None 5000;
     Eff.clock := 5000; Eff.events := [] |}.

(** ** Further vocabulary about the limiter *)

(** The class a call works on. *)
Definition callOp (c : Calls.call) : string :=
  match c with
  | Calls.Configure op _ _ _ => op
  | Calls.Acquire op _ _ => op
  | Calls.GetRemainingTokens op _ => op
  end.

(** ** Further vocabulary about text *)

(** A line as the cleaned text has them: trimmed, longer than two
    characters, not one of the navigation words, without a line feed. *)
Definition cleanLine (l : jsstring) : Prop :=
  trim l = l /\ 2 < len l /\ HtmlParser.isStopLine l = false /\ ~ In LF l.

(** The lines [cleanText] keeps, before they are joined. *)
Definition keptLines (raw : jsstring) : list jsstring :=
  List.filter (fun line => negb (HtmlParser.isStopLine line))
    (List.filter (fun line => (0 <? len line) && (2 <? len line))
       (map trim (split LF raw))).

(** ** The platform's URL objects *)

(** What the program reads of a [URL] object. *)
Record URL : Type := { u_href : jsstring; u_origin : jsstring }.

(** ** web-search/link-extractor.ts *)

Module LinkExtractor.
Import Dom.

Record ExtractedLink : Type := { href : jsstring; text : jsstring }.

Definition SKIP_PREFIXES : list jsstring :=
  [ js "#"; js "javascript:"; js "mailto:"; js "tel:" ].

(** The selector [a[href]]. *)
Definition isAnchor (n : node) : bool :=
  isTag (js "a") n &&
  match attr (js "href") (attribsOf n) with
  | Some _ => true
  | None => false
  end.

Section Extractor.

(** [cheerio.load]. *)
Variable load : jsstring -> list node.

(** [new URL(u)]; [None] when the constructor throws. *)
Variable URL_parse : jsstring -> option URL.

(** [new URL(href, base).href]; [None] when the constructor throws. *)
Variable URL_resolve : jsstring -> jsstring -> option jsstring.

(** The callback of [each]: the links and the set of addresses seen so
    far, after one more anchor; an error when [new URL(absolute)]
    throws. *)
Definition visit (base : URL) (sameDomainOnly : bool)
    (acc : list ExtractedLink * gset jsstring) (el : node)
    : Eff.result (list ExtractedLink * gset jsstring) :=
  let '(links, seen) := acc in
  match option_map trim (attr (js "href") (attribsOf el)) with
  | Some (c :: h) =>
      let href_ := c :: h in
      if existsb (fun p => startsWith p href_) SKIP_PREFIXES then
        Eff.Return acc
      else
        match URL_resolve href_ (u_href base) with
        | None => Eff.Return acc
        | Some absolute =>
            let keep :=
              if bool_decide (absolute ∈ seen) then Eff.Return acc
              else
                let text_ := substring (trim (textContent el)) 0 200 in
                Eff.Return
                  (links ++ [ {| href := absolute;
                                 text := orStr (Some text_) absolute |} ],
                   {[ absolute ]} ∪ seen) in
            if sameDomainOnly then
              match URL_parse absolute with
              | None =>
                  Eff.Throw {| Eff.cls := Eff.TypeError;
                               Eff.message := js "Invalid URL" |}
              | Some u =>
                  if negb (eqb (u_origin u) (u_origin base)) then
                    Eff.Return acc
                  else keep
              end
            else keep
        end
  | _ => Eff.Return acc
  end.

(** [each]: the anchors in document order, up to the first error. *)
Fixpoint each (base : URL) (sameDomainOnly : bool) (els : list node)
    (acc : list ExtractedLink * gset jsstring)
    : Eff.result (list ExtractedLink * gset jsstring) :=
  match els with
  | [] => Eff.Return acc
  | el :: els' =>
      match visit base sameDomainOnly acc el with
      | Eff.Return acc' => each base sameDomainOnly els' acc'
      | Eff.Throw e => Eff.Throw e
      end
  end.

Definition extractLinksFromHtml (html finalUrl : jsstring)
    (sameDomainOnly : bool) : Eff.result (list ExtractedLink) :=
  match URL_parse finalUrl with
  | None =>
      Eff.Throw {| Eff.cls := Eff.TypeError; Eff.message := js "Invalid URL" |}
  | Some base =>
      match each base sameDomainOnly (select isAnchor (load html)) ([], ∅) with
      | Eff.Return (links, _) => Eff.Return links
      | Eff.Throw e => Eff.Throw e
      end
  end.

End Extractor.

End LinkExtractor.

(** ** web-search/feed-parser.ts *)

Module FeedParser.

(** A field of an item or of a feed as [rss-parser] delivers it: a string,
    or an object when the element has attributes or child elements. *)
Inductive value : Type :=
| VStr (s : jsstring)
| VObj.

(** An item and a feed as [rss-parser] delivers them; every field may be
    missing. *)
Record Item : Type := {
  i_title : option value;
  i_link : option value;
  i_guid : option value;
  i_contentSnippet : option value;
  i_content : option value;
  i_summary : option value;
  i_pubDate : option value;
  i_isoDate : option value
}.

Record Feed : Type := {
  f_title : option value;
  f_link : option value;
  f_description : option value;
  f_items : option (list Item)
}.

(** The fields [title] and [link] of the result are called [feedTitle] and
    [feedLink] here, apart from those of an entry. *)
Record FeedEntry : Type := {
  title : jsstring;
  link : jsstring;
  summary : jsstring;
  date : option value
}.

Record FetchFeedResult : Type := {
  feedTitle : jsstring;
  feedLink : jsstring;
  description : option jsstring;
  entries : list FeedEntry
}.

(** [a || b] where the result may stay [undefined]. *)
Definition orUndefined (a b : option jsstring) : option jsstring :=
  match a with
  | Some (c :: s) => Some (c :: s)
  | _ => match b with
         | Some (c :: s) => Some (c :: s)
         | _ => None
         end
  end.

(** Truthiness of a field: an object is truthy, a string when it is not
    empty. *)
Definition truthyValue (v : value) : bool :=
  match v with
  | VStr s => Js.truthy s
  | VObj => true
  end.

(** [a || b]. *)
Definition orElse (a : option value) (b : value) : value :=
  match a with
  | Some v => if truthyValue v then v else b
  | None => b
  end.

(** [a || b || undefined]. *)
Definition orMissing (a b : option value) : option value :=
  match a with
  | Some v => if truthyValue v then Some v else
                match b with
                | Some v' => if truthyValue v' then Some v' else None
                | None => None
                end
  | None => match b with
            | Some v' => if truthyValue v' then Some v' else None
            | None => None
            end
  end.

(** The error of a call of [trim] on a value that has no such method.  The
    text of its message is the engine's and names the expression; only its
    class is used. *)
Definition notAFunction : Eff.exn :=
  {| Eff.cls := Eff.TypeError; Eff.message := js "trim is not a function" |}.

(** [v.trim()]: [trim] is a method of strings. *)
Definition trimOf (v : value) : Eff.result jsstring :=
  match v with
  | VStr s => Eff.Return (trim s)
  | VObj => Eff.Throw notAFunction
  end.

(** Sequencing of computations that may throw. *)
Definition andThen {A B} (r : Eff.result A) (k : A -> Eff.result B)
    : Eff.result B :=
  match r with
  | Eff.Return a => k a
  | Eff.Throw e => Eff.Throw e
  end.

(** The callback of [map] on the items. *)
Definition toEntry (item : Item) : Eff.result FeedEntry :=
  andThen (trimOf (orElse (i_title item) (VStr []))) (fun title_ =>
  andThen (trimOf (orElse (i_link item) (orElse (i_guid item) (VStr []))))
    (fun link_ =>
  andThen (trimOf (orElse (i_contentSnippet item)
                     (orElse (i_content item)
                        (orElse (i_summary item) (VStr [])))))
    (fun summary_ =>
  Eff.Return {| title := substring title_ 0 500;
                link := link_;
                summary := substring summary_ 0 2000;
                date := orMissing (i_pubDate item) (i_isoDate item) |}))).

(** [items.map(...)]: the callback runs on the items in order, and the
    first error ends the call. *)
Fixpoint toEntries (items : list Item) : Eff.result (list FeedEntry) :=
  match items with
  | [] => Eff.Return []
  | item :: rest =>
      andThen (toEntry item) (fun e =>
      andThen (toEntries rest) (fun es => Eff.Return (e :: es)))
  end.

Section Parser.

(** [parser.parseString]: the feed, or the error the promise is rejected
    with. *)
Variable parseString : jsstring -> Eff.exn + Feed.

Definition parseFeedXml (xml baseUrl : jsstring)
    : Eff.result FetchFeedResult :=
  match parseString xml with
  | inl e => Eff.Throw e
  | inr feed =>
      andThen (toEntries (default [] (f_items feed))) (fun entries_ =>
      andThen (trimOf (orElse (f_title feed) (VStr (js "Untitled feed"))))
        (fun title_ =>
      andThen (trimOf (orElse (f_link feed) (VStr baseUrl))) (fun link_ =>
      andThen
        (match f_description feed with
         | Some d =>
             andThen (trimOf d) (fun d' =>
             Eff.Return (Some (substring d' 0 1000)))
         | None => Eff.Return None
         end)
        (fun description_ =>
      Eff.Return {| feedTitle := substring title_ 0 500;
                    feedLink := link_;
                    description := description_;
                    entries := entries_ |}))))
  end.

End Parser.

End FeedParser.

(** ** web-search/metadata-parser.ts *)

Module MetadataParser.
Import Dom.

Definition MAX_HEAD_BYTES : Z := 150000.

Record ParsedMetadata : Type := {
  title : option jsstring;
  description : option jsstring;
  imageUrl : option jsstring
}.

(** [$('meta[key="value"]').attr('content')]. *)
Definition metaContent (key value : jsstring) (doc : list node)
    : option jsstring :=
  attrOf (js "content")
    (select (fun n => isTag (js "meta") n && attrIs key value n) doc).

(** [x?.trim() || rest]. *)
Definition trimmedOr (x : option jsstring) (rest : option jsstring)
    : option jsstring :=
  match option_map trim x with
  | Some (c :: s) => Some (c :: s)
  | _ => rest
  end.

Section Parser.

Variable load : jsstring -> list node.
Variable URL_resolve : jsstring -> jsstring -> option jsstring.

Definition parseMetadataFromHtml (html finalUrl : jsstring)
    : Eff.result ParsedMetadata :=
  let headAndSome := substring html 0 MAX_HEAD_BYTES in
  let doc := load headAndSome in
  let title_ :=
    trimmedOr (metaContent (js "property") (js "og:title") doc)
      (trimmedOr (metaContent (js "name") (js "twitter:title") doc)
         (trimmedOr
            (Some (Dom.text (first (select (isTag (js "title")) doc))))
            None)) in
  let description_ :=
    trimmedOr (metaContent (js "property") (js "og:description") doc)
      (trimmedOr (metaContent (js "name") (js "twitter:description") doc)
         (trimmedOr (metaContent (js "name") (js "description") doc)
            None)) in
  let img :=
    FeedParser.orUndefined
      (metaContent (js "property") (js "og:image") doc)
      (metaContent (js "name") (js "twitter:image") doc) in
  match img with
  | None =>
      Eff.Return {| title := title_; description := description_;
                    imageUrl := None |}
  | Some i =>
      if startsWith (js "http") i then
        Eff.Return {| title := title_; description := description_;
                      imageUrl := Some i |}
      else
        match URL_resolve i finalUrl with
        | Some abs =>
            Eff.Return {| title := title_; description := description_;
                          imageUrl := Some abs |}
        | None =>
            Eff.Throw {| Eff.cls := Eff.TypeError;
                         Eff.message := js "Invalid URL" |}
        end
  end.

End Parser.

End MetadataParser.

(** ** web-search/web-search.service.ts, the other operations *)

Module Acquisition.
Import Eff HttpUtils.

Definition METADATA_TIMEOUT_MS : Z := 10000.

Record FetchMetadataResult : Type := {
  finalUrl : jsstring;
  statusCode : Z;
  contentType : jsstring;
  title : option jsstring;
  description : option jsstring;
  imageUrl : option jsstring
}.

Record FetchSitemapResult : Type := {
  type : Sitemap.SitemapType;
  url : jsstring;
  urls : option (list Sitemap.SitemapUrl);
  sitemaps : option (list Sitemap.SitemapRef)
}.

(** The [catch] block the operations share, up to two messages. *)
Definition classifyAs {A} (timedOut failed : string) (url_ : jsstring)
    (err : exn) : M A :=
  if isAbortError err then Error (js timedOut)
  else if includes (js "Invalid URL") (message err) then
    Error (js "Invalid URL: " ++ url_)
  else if includes (js "rate limit") (message err) then
    Error (js "Rate limit exceeded. Please wait before trying again.")
  else Error (js failed ++ message err).

(** A synchronous result inside an asynchronous function. *)
Definition lift {A} (r : result A) : M A :=
  match r with
  | Return a => ret a
  | Throw e => throw e
  end.

(** [for (...) { ... }] over a list, with the state threaded through. *)
Fixpoint forEach {A B} (f : B -> A -> M B) (l : list A) (acc : B) : M B :=
  match l with
  | [] => ret acc
  | x :: l' => bind (f acc x) (fun acc' => forEach f l' acc')
  end.

Section Service.

Variable net : Z -> jsstring -> reply.
Variable URL_href : jsstring -> option jsstring.
Variable URL_parse : jsstring -> option URL.
Variable URL_resolve : jsstring -> jsstring -> option jsstring.
Variable load : jsstring -> list Dom.node.
Variable innerHtml : list Dom.node -> option jsstring.
Variable parseString : jsstring -> exn + FeedParser.Feed.
Variable toStringOther : Sitemap.jsval -> jsstring.

(** [XMLParser.parse]: the object, or the error it throws. *)
Variable xmlParse : jsstring -> exn + list (jsstring * Sitemap.jsval).

(** [turndown(html)]; [None] when it throws. *)
Variable turndown : jsstring -> option jsstring.

Definition formatted (title_ url_ text_ : jsstring) : jsstring :=
  js "Title: " ++ title_ ++ [LF] ++ js "URL: " ++ url_ ++ [LF; LF] ++ text_.

Definition fetchUrl (url_ : jsstring) : M WebSearchService.FetchResult :=
  WebSearchService.fetchUrl net URL_href URL_resolve load innerHtml url_.

Definition fetchUrlFormatted (url_ : jsstring) : M jsstring :=
  (let* result := fetchUrl url_ in
   ret (formatted (WebSearchService.title result)
          (WebSearchService.url result)
          (WebSearchService.textContent result)))%eff.

Definition fetchMetadata (url_ : jsstring) : M FetchMetadataResult :=
  (acquire "fetch" ;;
   let normalized := cleanUrl URL_href url_ in
   match URL_href normalized with
   | None => InvalidURL
   | Some _ =>
       catch
         (let* response :=
            fetchWithTimeout net normalized METADATA_TIMEOUT_MS in
          let finalUrl_ :=
            if truthy (Eff.url response) then Eff.url response
            else normalized in
          let contentType_ :=
            orStr (headers_get response (js "content-type")) [] in
          let result :=
            {| finalUrl := finalUrl_;
               statusCode := status response;
               contentType :=
                 trim (default [] (head (split 59%N contentType_)));
               title := None; description := None; imageUrl := None |} in
          if negb (ok response) then ret result
          else if includes (js "text/html") contentType_ then
            let raw := body response in
            let* meta :=
              lift (MetadataParser.parseMetadataFromHtml load URL_resolve
                      (substring raw 0 150000) finalUrl_) in
            ret {| finalUrl := finalUrl_;
                   statusCode := status response;
                   contentType := contentType result;
                   title := MetadataParser.title meta;
                   description := MetadataParser.description meta;
                   imageUrl := MetadataParser.imageUrl meta |}
          else ret result)
         (classifyAs "Metadata fetch request timed out after 10 seconds"
            "Failed to fetch metadata: " url_)
   end)%eff.

(** [return parseFeedXml(xml, normalized)] hands the promise of the parser
    over without awaiting it: when that promise is rejected the [try] block
    has been left, and the [catch] block does not see the error. *)
Definition fetchFeed (url_ : jsstring) : M FeedParser.FetchFeedResult :=
  (acquire "fetch" ;;
   let normalized := cleanUrl URL_href url_ in
   match URL_href normalized with
   | None => InvalidURL
   | Some _ =>
       let* xml :=
         catch
           (let* response :=
              fetchWithTimeout net normalized
                WebSearchService.FETCH_TIMEOUT_MS in
            if negb (ok response) then
              Error (js "Feed fetch failed: HTTP "
                     ++ stringOfZ (status response) ++ js " "
                     ++ statusText response)
            else ret (body response))
           (classifyAs "Feed fetch request timed out after 15 seconds"
              "Failed to fetch feed: " url_) in
       lift (FeedParser.parseFeedXml parseString xml normalized)
   end)%eff.

Definition fetchUrlAsMarkdown (url_ : jsstring) : M jsstring :=
  (let* result := fetchUrl url_ in
   let html := WebSearchService.content result in
   let plain :=
     formatted (WebSearchService.title result) (WebSearchService.url result)
       (WebSearchService.textContent result) in
   if negb (truthy (trim html)) then ret plain
   else
     match turndown html with
     | Some markdown =>
         ret (formatted (WebSearchService.title result)
                (WebSearchService.url result) markdown)
     | None => ret plain
     end)%eff.

Definition extractLinks (url_ : jsstring) (sameDomainOnly : bool)
    : M (list LinkExtractor.ExtractedLink) :=
  (acquire "fetch" ;;
   let normalized := cleanUrl URL_href url_ in
   match URL_href normalized with
   | None => InvalidURL
   | Some _ =>
       catch
         (let* response :=
            fetchWithTimeout net normalized
              WebSearchService.FETCH_TIMEOUT_MS in
          if negb (ok response) then
            Error (js "HTTP " ++ stringOfZ (status response) ++ js ": "
                   ++ statusText response)
          else
            let contentType_ :=
              orStr (headers_get response (js "content-type")) [] in
            let finalUrl_ :=
              if truthy (Eff.url response) then Eff.url response
              else normalized in
            if negb (includes (js "text/html") contentType_) then ret []
            else
              lift (LinkExtractor.extractLinksFromHtml load URL_parse
                      URL_resolve (body response) finalUrl_ sameDomainOnly))
         (classifyAs "Extract links request timed out after 15 seconds"
            "Failed to extract links: " url_)
   end)%eff.

(** [fetchSitemap], with the call it makes for a child sitemap as an
    argument. *)
Definition fetchSitemapWith
    (child : jsstring -> M FetchSitemapResult)
    (url_ : jsstring) (expandIndex : bool) : M FetchSitemapResult :=
  (acquire "fetch" ;;
   let normalized := cleanUrl URL_href url_ in
   match URL_href normalized with
   | None => InvalidURL
   | Some _ =>
       catch
         (let* response :=
            fetchWithTimeout net normalized
              WebSearchService.FETCH_TIMEOUT_MS in
          if negb (ok response) then
            Error (js "Sitemap fetch failed: HTTP "
                   ++ stringOfZ (status response) ++ js " "
                   ++ statusText response)
          else
            let xml := body response in
            match xmlParse xml with
            | inl e => throw e
            | inr obj =>
                let parsed := Sitemap.parseSitemapObj toStringOther obj in
                match Sitemap.type parsed, Sitemap.sitemaps parsed with
                | Sitemap.sitemapindex, Some (s0 :: rest) =>
                    if expandIndex then
                      let maxExpand :=
                        Z.min 10 (Z.of_nat (length (s0 :: rest))) in
                      let* allUrls :=
                        forEach
                          (fun allUrls s_ =>
                             catch
                               (let* c := child (Sitemap.ref_loc s_) in
                                ret (allUrls ++ default [] (urls c)))
                               (fun _ => ret allUrls))
                          (take (Z.to_nat maxExpand) (s0 :: rest)) [] in
                      ret {| type := Sitemap.urlset; url := normalized;
                             urls := Some allUrls; sitemaps := None |}
                    else
                      ret {| type := Sitemap.type parsed; url := normalized;
                             urls := Sitemap.urls parsed;
                             sitemaps := Sitemap.sitemaps parsed |}
                | _, _ =>
                    ret {| type := Sitemap.type parsed; url := normalized;
                           urls := Sitemap.urls parsed;
                           sitemaps := Sitemap.sitemaps parsed |}
                end
            end)
         (classifyAs "Sitemap fetch request timed out after 15 seconds"
            "Failed to fetch sitemap: " url_)
   end)%eff.

(** [fetchSitemap(url, false)]: no child is fetched. *)
Definition fetchSitemapFlat (url_ : jsstring) : M FetchSitemapResult :=
  fetchSitemapWith (fun _ => Error (js "no child call")) url_ false.

(** [fetchSitemap(url, expandIndex)]: a child is fetched by
    [fetchSitemap(child, false)]. *)
Definition fetchSitemap (url_ : jsstring) (expandIndex : bool)
    : M FetchSitemapResult :=
  fetchSitemapWith fetchSitemapFlat url_ expandIndex.

Definition getRemainingFetchTokens : M Z := getRemainingTokens "fetch".

End Service.

End Acquisition.

(** ** Further vocabulary about links *)

(** What every extracted link satisfies: its address is the resolution,
    against the base, of a trimmed [href] that is not empty and starts with
    none of the skipped prefixes; its text is that address or has between 1
    and 200 characters; and when only the domain of the page is wanted, the
    address has the origin of the base. *)
Definition linkOk (URL_parse : jsstring -> option URL)
    (URL_resolve : jsstring -> jsstring -> option jsstring)
    (base : URL) (sameDomainOnly : bool) (anchors : list Dom.node)
    (l : LinkExtractor.ExtractedLink) : Prop :=
  (exists el raw,
     In el anchors /\
     Dom.attr (js "href") (Dom.attribsOf el) = Some raw /\
     trim raw <> [] /\
     existsb (fun p => startsWith p (trim raw)) LinkExtractor.SKIP_PREFIXES
       = false /\
     URL_resolve (trim raw) (u_href base) = Some (LinkExtractor.href l)) /\
  (LinkExtractor.text l = LinkExtractor.href l \/
   0 < len (LinkExtractor.text l) <= 200) /\
  (sameDomainOnly = true ->
   exists u,
     URL_parse (LinkExtractor.href l) = Some u /\
     u_origin u = u_origin base).

(** A page with three anchors, two of them to the same address, and one
    [mailto:] link. *)
Definition linkedDocument (html : jsstring) : list Dom.node :=
  [ Dom.Element (js "html") []
      [ Dom.Element (js "body") []
          [ Dom.Element (js "a") [(js "href", js "https://example.org/a")]
              [ Dom.Text (js "first") ];
            Dom.Element (js "a") [(js "href", js " https://example.org/a ")]
              [ Dom.Text (js "again") ];
            Dom.Element (js "a") [(js "href", js "mailto:me@example.org")]
              [ Dom.Text (js "mail") ];
            Dom.Element (js "a") [(js "href", js "https://example.org/b")]
              [] ] ] ].

(** URL functions for the examples: every string is a URL whose origin is
    [https://example.org], and an address resolves to itself. *)
Definition exampleParse (u : jsstring) : option URL :=
  Some {| u_href := u; u_origin := js "https://example.org" |}.

(** ** Further vocabulary about the services *)

(** The number of requests sent so far. *)
Definition requestCount (w : Eff.world) : nat :=
  length (Eff.fetches (Eff.events w)).

(** A computation that sends at most [k] requests. *)
Definition sendsAtMost {A} (k : nat) (m : Eff.M A) : Prop :=
  forall w, (requestCount (snd (m w)) <= requestCount w + k)%nat.

(** URL functions that reject every string. *)
Definition noUrl (u : jsstring) : option jsstring := None.

(** A feed parser for the examples: it fails on every source. *)
Definition brokenFeed (xml : jsstring) : Eff.exn + FeedParser.Feed :=
  inl {| Eff.cls := Eff.PlainError; Eff.message := js "Unable to parse XML." |}.

(** A feed with two items, the second without a title. *)
Definition exampleFeed (xml : jsstring) : Eff.exn + FeedParser.Feed :=
  inr {| FeedParser.f_title := Some (FeedParser.VStr (js " News "));
         FeedParser.f_link := None;
         FeedParser.f_description := None;
         FeedParser.f_items :=
           Some [ {| FeedParser.i_title := Some (FeedParser.VStr (js "One"));
                     FeedParser.i_link :=
                       Some (FeedParser.VStr (js "https://example.org/1"));
                     FeedParser.i_guid := Some FeedParser.VObj;
                     FeedParser.i_contentSnippet :=
                       Some (FeedParser.VStr (js "first item"));
                     FeedParser.i_content := None;
                     FeedParser.i_summary := None;
                     FeedParser.i_pubDate := None;
                     FeedParser.i_isoDate :=
                       Some (FeedParser.VStr (js "2026-01-01")) |};
                  {| FeedParser.i_title := None;
                     FeedParser.i_link := None;
                     FeedParser.i_guid := Some (FeedParser.VStr (js "urn:2"));
                     FeedParser.i_contentSnippet := None;
                     FeedParser.i_content := None;
                     FeedParser.i_summary := None;
                     FeedParser.i_pubDate := None;
                     FeedParser.i_isoDate := None |} ] |}.

(** A feed whose only item has a title with markup in it: the parser
    delivers an object for it. *)
Definition markupFeed (xml : jsstring) : Eff.exn + FeedParser.Feed :=
  inr {| FeedParser.f_title := Some (FeedParser.VStr (js "News"));
         FeedParser.f_link := None;
         FeedParser.f_description := None;
         FeedParser.f_items :=
           Some [ {| FeedParser.i_title := Some FeedParser.VObj;
                     FeedParser.i_link := None;
                     FeedParser.i_guid := None;
                     FeedParser.i_contentSnippet := None;
                     FeedParser.i_content := None;
                     FeedParser.i_summary := None;
                     FeedParser.i_pubDate := None;
                     FeedParser.i_isoDate := None |} ] |}.

(** The fields of an item, and of a feed, that are trimmed are strings:
    each of them is the first of its alternatives that is truthy, or the
    default. *)
Definition isString (v : FeedParser.value) : bool :=
  match v with FeedParser.VStr _ => true | FeedParser.VObj => false end.

Definition textualItem (item : FeedParser.Item) : bool :=
  isString (FeedParser.orElse (FeedParser.i_title item) (FeedParser.VStr []))
  && isString
       (FeedParser.orElse (FeedParser.i_link item)
          (FeedParser.orElse (FeedParser.i_guid item) (FeedParser.VStr [])))
  && isString
       (FeedParser.orElse (FeedParser.i_contentSnippet item)
          (FeedParser.orElse (FeedParser.i_content item)
             (FeedParser.orElse (FeedParser.i_summary item)
                (FeedParser.VStr [])))).

Definition textualFeed (feed : FeedParser.Feed) : bool :=
  forallb textualItem (default [] (FeedParser.f_items feed))
  && isString
       (FeedParser.orElse (FeedParser.f_title feed) (FeedParser.VStr []))
  && isString
       (FeedParser.orElse (FeedParser.f_link feed) (FeedParser.VStr []))
  && match FeedParser.f_description feed with
     | Some d => isString d
     | None => true
     end.

(** A page that is gone. *)
Definition notFound : Eff.Response :=
  {| Eff.status := 404; Eff.statusText := js "Not Found";
     Eff.headers := [(js "content-type", js "text/html; charset=utf-8")];
     Eff.url := js "https://example.org/gone"; Eff.body := [];
     Eff.json := None |}.

(** An XML parser for the examples: the index with two children for the
    address of the index, the three-entry sitemap for every other one. *)
Definition xmlOf (body_ : jsstring)
    : Eff.exn + list (jsstring * Sitemap.jsval) :=
  if eqb body_ (js "index") then
    inr (SitemapDocs.sitemapindexObject SitemapDocs.exampleChildren)
  else inr (SitemapDocs.urlsetObject SitemapDocs.exampleLocs).

(** A site whose [/sitemap.xml] is an index and whose other addresses are
    sitemaps. *)
Definition sitemapSite (now : Z) (url_ : jsstring) : Eff.reply :=
  {| Eff.latency := 50;
     Eff.outcome :=
       inr (Scenario.respond 200 [(js "content-type", js "text/xml")] url_
              (if eqb url_ (js "https://example.org/sitemap.xml")
               then js "index" else js "urlset")) |}.

(** An answer of a SearXNG instance with two entries, the second without
    an address, and the answer of an instance that limits its clients. *)
Definition foundPages : Eff.Response :=
  {| Eff.status := 200; Eff.statusText := js "OK";
     Eff.headers := [(js "content-type", js "application/json")];
     Eff.url := js "https://search.example.org/search"; Eff.body := [];
     Eff.json :=
       Some (Some [ {| Eff.r_title := Some (js "The Rocq Prover");
                       Eff.r_url := Some (js "https://rocq-prover.org");
                       Eff.r_content := Some (js "A proof assistant");
                       Eff.r_snippet := None;
                       Eff.r_description := None |};
                    {| Eff.r_title := None; Eff.r_url := None;
                       Eff.r_content := None; Eff.r_snippet := None;
                       Eff.r_description := None |} ]) |}.

Definition tooManyRequests : Eff.Response :=
  {| Eff.status := 429; Eff.statusText := js "Too Many Requests";
     Eff.headers := []; Eff.url := js "https://search.example.org/search";
     Eff.body := []; Eff.json := None |}.


(** ** mcp/tool-executor.ts *)

Module ToolExecutor.
Import Eff.

(** A parameter of a tool call, as far as the tools look at it. *)
#[local] Unset Elimination Schemes.
Inductive param : Type :=
| PUndefined
| PNull
| PBool (b : bool)
| PNumber (n : Z)
| PString (s : jsstring)
| PArray (l : list param)
| PObject.
#[local] Set Elimination Schemes.

(** What [fetch_url] and [batch_fetch] return of a page. *)
Record FetchSummary : Type := {
  url : jsstring;
  title : jsstring;
  contentLength : Z;
  textContent : jsstring;
  hasMoreContent : bool
}.


(** An entry of the result of [searxng_search_then_fetch]. *)
Record FetchedResult : Type := {
  f_url : jsstring;
  f_title : jsstring;
  f_snippet : jsstring;
  f_content : jsstring
}.

(** The parameters of [searxng_search_then_fetch]; the number of pages is
    absent or an integer. *)
Record SearchThenFetchParams : Type := {
  searxng_base_url : param;
  query : param;
  max_results_to_fetch : option Z;
  categories : option jsstring;
  language : option jsstring;
  time_range : option jsstring;
  safesearch : option Z
}.

Definition summary (result : WebSearchService.FetchResult) : FetchSummary :=
  {| url := WebSearchService.url result;
     title := WebSearchService.title result;
     contentLength := len (WebSearchService.textContent result);
     textContent := substring (WebSearchService.textContent result) 0 10000;
     hasMoreContent := 10000 <? len (WebSearchService.textContent result) |}.



Section Executor.

Variable net : Z -> jsstring -> reply.
Variable URL_href : jsstring -> option jsstring.
Variable URL_resolve : jsstring -> jsstring -> option jsstring.
Variable load : jsstring -> list Dom.node.
Variable innerHtml : list Dom.node -> option jsstring.
Variable URL_withParams
  : jsstring -> list (jsstring * jsstring) -> option jsstring.

(** [this.webSearchService.fetchUrl] and [fetchUrlFormatted]. *)
Definition fetchUrl (url_ : jsstring) : M WebSearchService.FetchResult :=
  Acquisition.fetchUrl net URL_href URL_resolve load innerHtml url_.

Definition fetchUrlFormatted (url_ : jsstring) : M jsstring :=
  Acquisition.fetchUrlFormatted net URL_href URL_resolve load innerHtml url_.

Definition executeFetchUrl (url_ : param) : M FetchSummary :=
  match url_ with
  | PString (c :: s) =>
      (let* result := fetchUrl (c :: s) in ret (summary result))%eff
  | _ => Error (js "URL parameter is required and must be a string")
  end.


(** [Math.min(5, Math.max(1, Number(max_results_to_fetch) || 3))]. *)
Definition toFetch (max_results_to_fetch : option Z) : Z :=
  let n := default 3 max_results_to_fetch in
  Z.min 5 (Z.max 1 (if n =? 0 then 3 else n)).

Definition executeSearXNGSearchThenFetch (params : SearchThenFetchParams)
    : M (list FetchedResult) :=
  match query params with
  | PString (qc :: qs) =>
      match searxng_base_url params with
      | PString (bc :: bs) =>
          if negb (truthy (trim (bc :: bs))) then
            Error (js "searxng_base_url is required and must be a non-empty string")
          else
            (let* results :=
               SearXNGService.search net URL_withParams
                 {| SearXNGService.searxng_base_url := trim (bc :: bs);
                    SearXNGService.query := trim (qc :: qs);
                    SearXNGService.format := Some (js "json");
                    SearXNGService.categories := categories params;
                    SearXNGService.language := language params;
                    SearXNGService.pageno := Some 1;
                    SearXNGService.time_range := time_range params;
                    SearXNGService.safesearch := safesearch params;
                    SearXNGService.max_results :=
                      Some (toFetch (max_results_to_fetch params)) |} in
             Acquisition.forEach
               (fun out r =>
                  if negb (truthy (SearXNGService.url r)) then ret out
                  else
                    let title_ :=
                      if truthy (SearXNGService.title r)
                      then SearXNGService.title r else js "No title" in
                    let snippet_ :=
                      substring (SearXNGService.snippet r) 0 500 in
                    catch
                      (let* content := fetchUrlFormatted
                                         (SearXNGService.url r) in
                       ret (out ++ [ {| f_url := SearXNGService.url r;
                                        f_title := title_;
                                        f_snippet := snippet_;
                                        f_content := content |} ]))
                      (fun err =>
                         ret (out ++ [ {| f_url := SearXNGService.url r;
                                          f_title := title_;
                                          f_snippet := snippet_;
                                          f_content :=
                                            js "[Failed to fetch: "
                                            ++ message err ++ js "]" |} ])))
               results [])%eff
      | _ =>
          Error (js "searxng_base_url is required and must be a non-empty string")
      end
  | _ => Error (js "query is required and must be a string")
  end.

End Executor.

End ToolExecutor.

(** ** Further vocabulary about the tools *)



Definition exampleSearchThenFetch : ToolExecutor.SearchThenFetchParams :=
  {| ToolExecutor.searxng_base_url :=
       ToolExecutor.PString (js "https://search.example.org");
     ToolExecutor.query := ToolExecutor.PString (js "rocq");
     ToolExecutor.max_results_to_fetch := Some 9;
     ToolExecutor.categories := None;
     ToolExecutor.language := None;
     ToolExecutor.time_range := None;
     ToolExecutor.safesearch := None |}.

(** A tool executor starts with the limiters of its two services, kept
    here in one: the classes [fetch] and [searxng] do not meet. *)
Definition toolWorld : Eff.world :=
  {| Eff.limiter :=
       SearXNGService.create (Some (WebSearchService.create None 5000)) 5000;
     Eff.clock := 5000; Eff.events := [] |}.

(** A markdown converter that fails. *)
Definition noMarkdown (html : jsstring) : option jsstring := None.

(** The errors the fetch operations let out: a plain [Error], or the
    [TypeError] of the URL constructor. *)
Definition plainOrInvalidUrl (e : Eff.exn) : Prop :=
  Eff.cls e = Eff.PlainError \/
  (Eff.cls e = Eff.TypeError /\ Eff.message e = js "Invalid URL").

(** A network that is rate limited and says so in its error. *)
Definition refusingNetwork (now : Z) (url_ : jsstring) : Eff.reply :=
  {| Eff.latency := 5;
     Eff.outcome :=
       inl {| Eff.cls := Eff.RateLimitError;
              Eff.message := js "upstream rate limit reached" |} |}.

(** ** Further vocabulary about redirections and content types *)

(** A resolution of addresses that rejects a location without a host, as
    the URL constructor does, and takes every other location as it is. *)
Definition hostRequired (location base : jsstring) : option jsstring :=
  if eqb location (js "https://") then None else Some location.

(** Answers with status 300: one whose location has no host, one whose
    [Location] header is empty. *)
Definition hostlessChoices : Eff.Response :=
  Scenario.respond 300 [(js "location", js "https://")]
    (js "https://example.org/old") [].

Definition emptyLocation : Eff.Response :=
  Scenario.respond 300 [(js "location", [])]
    (js "https://example.org/old") [].

(** A page of HTML, the same page under a content type written in capital
    letters, and a document that is no text. *)
Definition htmlPage : Eff.Response :=
  Scenario.respond 200 [(js "content-type", js "text/html; charset=utf-8")]
    (js "https://example.org/page") sampleHtml.

Definition capitalHtmlPage : Eff.Response :=
  Scenario.respond 200 [(js "content-type", js "Text/HTML; charset=utf-8")]
    (js "https://example.org/page") sampleHtml.

Definition pdfDocument : Eff.Response :=
  Scenario.respond 200 [(js "content-type", js "application/pdf")]
    (js "https://example.org/paper.pdf") (js "%PDF-1.7").

(** ** Further vocabulary about the roots of a sitemap *)





(** What the result of [fetchUrl] is for a successful response, by the
    [content-type] header as it is written: the explanation for a header
    that contains neither of the two types, the first 50,000 characters of
    the body for [text/plain], the extracted page for [text/html]. *)
Definition followsContentType
    (load : jsstring -> list Dom.node)
    (innerHtml : list Dom.node -> option jsstring)
    (response : Eff.Response) (normalized : jsstring)
    (res : WebSearchService.FetchResult) : Prop :=
  let contentType :=
    orStr (Eff.headers_get response (js "content-type")) [] in
  let finalUrl :=
    if truthy (Eff.url response) then Eff.url response else normalized in
  let page :=
    HtmlParser.parseHtmlToContent load innerHtml (Eff.body response)
      finalUrl in
  (includes (js "text/html") contentType = false ->
   includes (js "text/plain") contentType = false ->
   res = {| WebSearchService.url := finalUrl;
            WebSearchService.title := js "Non-text content";
            WebSearchService.content := [];
            WebSearchService.textContent :=
              js "Content type " ++ contentType
              ++ js " is not supported. Only HTML and plain text are supported." |}) /\
  (includes (js "text/plain") contentType = true ->
   res = {| WebSearchService.url := finalUrl;
            WebSearchService.title :=
              orStr (last (split 47%N finalUrl)) finalUrl;
            WebSearchService.content :=
              take (Z.to_nat 50000) (Eff.body response);
            WebSearchService.textContent :=
              take (Z.to_nat 50000) (Eff.body response) |} /\
   len (WebSearchService.textContent res) <= 50000) /\
  (includes (js "text/html") contentType = true ->
   includes (js "text/plain") contentType = false ->
   res = {| WebSearchService.url := finalUrl;
            WebSearchService.title := HtmlParser.title page;
            WebSearchService.content := HtmlParser.content page;
            WebSearchService.textContent := HtmlParser.textContent page |}).


(** A site that answers 300 at its old address, with the location of the
    new one, and the plain-text page there. *)
Definition redirectingSite (now : Z) (url_ : jsstring) : Eff.reply :=
  {| Eff.latency := 80;
     Eff.outcome :=
       inr (if eqb url_ (js "https://example.org/old")
            then Scenario.multipleChoices else Scenario.plainPage) |}.

(** * Properties *)

(** ** Arithmetic of the embedding *)

Lemma Qltb_lt (x y : Q) : Qltb x y = true <-> (x < y)%Q.
Proof.
  unfold Qltb. rewrite negb_true_iff.
  destruct (Qle_bool y x) eqn:E.
  - apply Qle_bool_iff in E. split; [discriminate | intros H; lra].
  - split; [intros _ | reflexivity].
    destruct (Qlt_le_dec x y) as [H | H]; [exact H |].
    apply Qle_bool_iff in H. congruence.
Qed.

Lemma Qltb_ge (x y : Q) : Qltb x y = false <-> (y <= x)%Q.
Proof.
  unfold Qltb. rewrite negb_false_iff. apply Qle_bool_iff.
Qed.

Lemma Qeq_bool_false (q : Q) : Qeq_bool q 0 = false -> ~ (q == 0)%Q.
Proof.
  intros E H. apply Qeq_bool_iff in H. congruence.
Qed.

Lemma orQ_some_nonzero (q d : Q) : Qeq_bool q 0 = false -> orQ (Some q) d = q.
Proof. intros E. unfold orQ. now rewrite E. Qed.

Lemma truthyQ_some (o : option Q) :
  truthyQ o = true -> exists q, o = Some q /\ Qeq_bool q 0 = false.
Proof.
  destruct o as [q |]; simpl; [| discriminate].
  intros H. exists q. split; [reflexivity |].
  now apply negb_true_iff.
Qed.


Lemma floor0_nonneg (x : Q) : 0 <= floor0 x.
Proof. unfold floor0. lia. Qed.


(** ** The token bucket *)

Section LimiterFacts.
Import RateLimiter Calls.

Lemma orQ_0 (o : option Q) : (orQ o 0 == default 0%Q o)%Q.
Proof.
  destruct o as [q |]; simpl; [| reflexivity].
  destruct (Qeq_bool q 0) eqn:E; [| reflexivity].
  apply Qeq_bool_iff in E. now rewrite E.
Qed.

Lemma tokensOf_insert (s : gmap string Q) (op : string) (q : Q) :
  (orQ (<[op := q]> s !! op) 0 == q)%Q.
Proof. rewrite lookup_insert_eq. apply (orQ_0 (Some q)). Qed.

(** The refill never lowers the count of a bucket within its capacity,
    and never lifts it above. *)
Lemma acquire_refill_tokens (s : t) (op : string) (m r : Q) (now : Z) :
  (0 < r)%Q -> (tokensOf s op <= m)%Q ->
  (tokensOf s op <= tokensOf (acquire_refill s op m r now) op)%Q /\
  (tokensOf (acquire_refill s op m r now) op <= m)%Q.
Proof.
  intros Hr Hle. unfold acquire_refill.
  destruct (0 <? now - orZ (lastRefill s !! op) now) eqn:E.
  - set (k := tokensOf s op) in *.
    unfold tokensOf. simpl. rewrite !tokensOf_insert.
    fold (tokensOf s op). fold k.
    apply Z.ltb_lt in E.
    assert (0 < inject_Z (now - orZ (lastRefill s !! op) now) / 1000 * r)%Q.
    { apply Qmult_lt_0_compat; [| exact Hr].
      apply Qlt_shift_div_l; [reflexivity |].
      rewrite Qmult_0_l. rewrite <- (Zlt_Qlt 0). exact E. }
    split.
    + apply Q.min_glb; lra.
    + apply Q.le_min_l.
  - split; [lra | exact Hle].
Qed.

Lemma acquire_refill_other (s : t) (op op' : string) (m r : Q) (now : Z) :
  op <> op' ->
  tokens (acquire_refill s op m r now) !! op' = tokens s !! op' /\
  maxTokens (acquire_refill s op m r now) = maxTokens s /\
  refillRate (acquire_refill s op m r now) = refillRate s.
Proof.
  intros Hne. unfold acquire_refill.
  destruct (0 <? _); simpl; [| done].
  now rewrite lookup_insert_ne.
Qed.

Lemma acquire_refill_config (s : t) (op : string) (m r : Q) (now : Z) :
  maxTokens (acquire_refill s op m r now) = maxTokens s /\
  refillRate (acquire_refill s op m r now) = refillRate s.
Proof. unfold acquire_refill. now destruct (0 <? _). Qed.

(** [getRemainingTokens] refills exactly as [acquire] does. *)
Lemma getRemainingTokens_refill (s : t) (op : string) (now : Z) (m r : Q) :
  maxTokens s !! op = Some m -> refillRate s !! op = Some r ->
  Qeq_bool m 0 = false -> Qeq_bool r 0 = false ->
  getRemainingTokens s op now =
    (floor0 (tokensOf (acquire_refill s op m r now) op),
     acquire_refill s op m r now).
Proof.
  intros Hm Hr Em Er. unfold getRemainingTokens, acquire_refill, tokensOf.
  rewrite Hm, Hr. simpl. rewrite Em, Er. simpl.
  now destruct (0 <? _).
Qed.

(** A call that keeps the configuration and leaves every other class
    alone keeps the buckets within their capacities as soon as it does so
    for its own class. *)
Lemma bucket_ok_frame (s s' : t) (op : string) :
  maxTokens s' = maxTokens s -> refillRate s' = refillRate s ->
  (forall op', op' <> op -> tokens s' !! op' = tokens s !! op') ->
  (forall m, maxTokens s !! op = Some m -> (tokensOf s' op <= m)%Q) ->
  (forall op', bucket_ok s op') -> forall op', bucket_ok s' op'.
Proof.
  intros Hm Hr Hother Hop Hok op'. specialize (Hok op').
  unfold bucket_ok in *. rewrite Hm, Hr.
  destruct (maxTokens s !! op') as [m |] eqn:Em,
           (refillRate s !! op') as [r |] eqn:Er; try done.
  destruct Hok as (H1 & H2 & H3). repeat split; try done.
  destruct (decide (op' = op)) as [-> | Hne].
  - now apply Hop.
  - unfold tokensOf in *. now rewrite Hother.
Qed.

Lemma configure_ok (s : t) (op : string) (m w : Q) (now : Z) :
  (0 < m)%Q -> (0 < w)%Q ->
  (forall op', bucket_ok s op') ->
  forall op', bucket_ok (configure s op m w now) op'.
Proof.
  intros Hm Hw Hok op'. specialize (Hok op').
  unfold bucket_ok, tokensOf in *. simpl.
  destruct (decide (op = op')) as [-> | Hne].
  - rewrite !lookup_insert_eq. repeat split; try done.
    + apply Qlt_shift_div_l; [| lra].
      apply Qlt_shift_div_l; [reflexivity | lra].
    + rewrite (orQ_0 (Some m)). simpl. lra.
  - now rewrite !lookup_insert_ne.
Qed.

(** The facts [acquire] and [getRemainingTokens] read off a bucket that
    passes their configuration test. *)
Lemma configured_bucket (s : t) (op : string) :
  bucket_ok s op ->
  negb (truthyQ (maxTokens s !! op)) || negb (truthyQ (refillRate s !! op))
    = false ->
  exists m r,
    maxTokens s !! op = Some m /\ refillRate s !! op = Some r /\
    Qeq_bool m 0 = false /\ Qeq_bool r 0 = false /\
    (0 < m)%Q /\ (0 < r)%Q /\ (tokensOf s op <= m)%Q.
Proof.
  intros Hok Hcfg. apply orb_false_iff in Hcfg as [H1 H2].
  apply negb_false_iff, truthyQ_some in H1 as (m & Hm & Em).
  apply negb_false_iff, truthyQ_some in H2 as (r & Hr & Er).
  exists m, r. unfold bucket_ok in Hok. rewrite Hm, Hr in Hok.
  destruct Hok as (? & ? & ?). eauto 10.
Qed.

(** A bucket with a positive capacity and rate passes the test. *)
Lemma bucket_ok_configured (s : t) (op : string) (m : Q) :
  bucket_ok s op -> maxTokens s !! op = Some m ->
  negb (truthyQ (maxTokens s !! op)) || negb (truthyQ (refillRate s !! op))
    = false.
Proof.
  intros Hok Hm. unfold bucket_ok in Hok. rewrite Hm in *.
  destruct (refillRate s !! op) as [r |]; [| done].
  destruct Hok as (H1 & H2 & _). simpl.
  assert (Qeq_bool m 0 = false) as ->.
  { destruct (Qeq_bool m 0) eqn:E; [| done].
    apply Qeq_bool_iff in E. lra. }
  assert (Qeq_bool r 0 = false) as ->.
  { destruct (Qeq_bool r 0) eqn:E; [| done].
    apply Qeq_bool_iff in E. lra. }
  done.
Qed.

Lemma acquire_ok (s : t) (op : string) (now resumed : Z) :
  (forall op', bucket_ok s op') ->
  forall op', bucket_ok (default s (acquire s op now resumed)) op'.
Proof.
  intros Hok. unfold acquire, acquire_begin.
  destruct (negb (truthyQ (maxTokens s !! op))
            || negb (truthyQ (refillRate s !! op))) eqn:Hcfg; [done |].
  destruct (configured_bucket s op (Hok op) Hcfg)
    as (m & r & Hm & Hr & Em & Er & Hm0 & Hr0 & Hle).
  rewrite Hm, Hr, (orQ_some_nonzero m 0 Em), (orQ_some_nonzero r 0 Er).
  destruct (acquire_refill_tokens s op m r now Hr0 Hle) as [_ Hle1].
  destruct (acquire_refill_config s op m r now) as [Hcm Hcr].
  set (s1 := acquire_refill s op m r now) in *.
  fold (tokensOf s1 op).
  destruct (Qltb (tokensOf s1 op) 1) eqn:Hlt; simpl.
  - apply (bucket_ok_frame s _ op); simpl; try done.
    + intros op' Hne. rewrite lookup_insert_ne by done.
      now apply acquire_refill_other.
    + intros m' Hm'. assert (m' = m) as -> by congruence.
      unfold tokensOf. simpl. rewrite tokensOf_insert.
      pose proof (Q.le_min_l m r). lra.
  - apply Qltb_ge in Hlt.
    apply (bucket_ok_frame s _ op); simpl; try done.
    + intros op' Hne. rewrite lookup_insert_ne by done.
      now apply acquire_refill_other.
    + intros m' Hm'. assert (m' = m) as -> by congruence.
      unfold tokensOf at 1. simpl. rewrite tokensOf_insert. lra.
Qed.

Lemma getRemainingTokens_ok (s : t) (op : string) (now : Z) :
  (forall op', bucket_ok s op') ->
  forall op', bucket_ok (snd (getRemainingTokens s op now)) op'.
Proof.
  intros Hok.
  destruct (negb (truthyQ (maxTokens s !! op))
            || negb (truthyQ (refillRate s !! op))) eqn:Hcfg.
  - unfold getRemainingTokens. now rewrite Hcfg.
  - destruct (configured_bucket s op (Hok op) Hcfg)
      as (m & r & Hm & Hr & Em & Er & Hm0 & Hr0 & Hle).
    rewrite (getRemainingTokens_refill s op now m r Hm Hr Em Er). simpl.
    destruct (acquire_refill_tokens s op m r now Hr0 Hle) as [_ Hle1].
    destruct (acquire_refill_config s op m r now) as [Hcm Hcr].
    apply (bucket_ok_frame s _ op); try done.
    + intros op' Hne. now apply acquire_refill_other.
    + intros m' Hm'. now assert (m' = m) as -> by congruence.
Qed.

Lemma step_ok (s : t) (c : call) :
  sane c -> (forall op, bucket_ok s op) -> forall op, bucket_ok (step s c) op.
Proof.
  destruct c as [op m w now | op now resumed | op now]; simpl.
  - intros [Hm Hw]. now apply configure_ok.
  - intros _. apply acquire_ok.
  - intros _. apply getRemainingTokens_ok.
Qed.

Lemma create_ok (op : string) : bucket_ok create op.
Proof. unfold bucket_ok, create. simpl. now rewrite !lookup_empty. Qed.

Lemma run_ok (cs : list call) (s : t) :
  Forall sane cs -> (forall op, bucket_ok s op) ->
  forall op, bucket_ok (run s cs) op.
Proof.
  revert s. induction cs as [| c cs IH]; intros s Hs Hok; [done |].
  inversion Hs; subst. simpl. apply IH; [done |]. now apply step_ok.
Qed.






(** The value returned by a peek at a configured bucket. *)
Lemma getRemainingTokens_value (s : t) (op : string) (now : Z) (m : Q) :
  bucket_ok s op -> maxTokens s !! op = Some m ->
  exists r,
    refillRate s !! op = Some r /\ (0 < r)%Q /\ (0 < m)%Q /\
    (tokensOf s op <= m)%Q /\
    getRemainingTokens s op now =
      (floor0 (tokensOf (acquire_refill s op m r now) op),
       acquire_refill s op m r now).
Proof.
  intros Hok Hm.
  pose proof (bucket_ok_configured s op m Hok Hm) as Hcfg.
  destruct (configured_bucket s op Hok Hcfg)
    as (m1 & r & Hm1 & Hr & Em & Er & Hm0 & Hr0 & Hle).
  assert (m1 = m) as -> by congruence.
  exists r. repeat split; try done.
  now apply getRemainingTokens_refill.
Qed.




(** X2.  On the path of [acquire] that finds a token, the count goes down
    by exactly one and stays within [0, capacity]. *)
Lemma acquire_consumes_one (s s' : t) (op : string) (now : Z) (m : Q) :
  (forall op', bucket_ok s op') -> maxTokens s !! op = Some m ->
  acquire_begin s op now = Consumed s' ->
  exists r,
    refillRate s !! op = Some r /\
    (tokensOf s' op == tokensOf (acquire_refill s op m r now) op - 1)%Q /\
    (0 <= tokensOf s' op)%Q /\ (tokensOf s' op <= m)%Q.
Proof.
  intros Hok Hm.
  pose proof (bucket_ok_configured s op m (Hok op) Hm) as Hcfg.
  destruct (configured_bucket s op (Hok op) Hcfg)
    as (m1 & r & Hm1 & Hr & Em & Er & Hm0 & Hr0 & Hle).
  assert (m1 = m) as -> by congruence.
  unfold acquire_begin. rewrite Hcfg, Hm, Hr.
  rewrite (orQ_some_nonzero m 0 Em), (orQ_some_nonzero r 0 Er).
  destruct (acquire_refill_tokens s op m r now Hr0 Hle) as [_ Hcap].
  set (s1 := acquire_refill s op m r now) in *. fold (tokensOf s1 op).
  set (k := tokensOf s1 op) in *.
  destruct (Qltb k 1) eqn:Hlt; [discriminate |].
  apply Qltb_ge in Hlt. intros [= <-]. exists r.
  unfold tokensOf. simpl. rewrite !tokensOf_insert.
  repeat split; try done; lra.
Qed.

(** C1, at the failing input.  Whatever the wait has refilled, the resumed
    [acquire] stores [min(maxTokens, refillRate) - 1].  The service
    configures [fetch] for 20 requests per minute; twenty calls of [acquire]
    empty the bucket, and the twenty-first has to wait 3000 ms.  When it
    resumes the count is [-2/3]: below 0, and it went down by [2/3], not by
    1.  With a rate above one token per second the same assignment hands
    out tokens that were never earned: a class of 10 requests per second
    that waited 100 ms for one token is left with 9. *)
Theorem acquire_after_wait_overdraws :
  (forall s op m r resumed,
     (tokensOf (acquire_resume s op m r resumed) op == Qmin m r - 1)%Q) /\
  (tokensOf (run create (fetchBurst 20)) "fetch" == 0)%Q /\
  (exists s1 m r,
     acquire_begin (run create (fetchBurst 20)) "fetch" 1000
       = Suspended s1 3000 m r /\
     (tokensOf s1 "fetch" == 0)%Q) /\
  (tokensOf (run create (fetchBurst 21)) "fetch" == - (2 # 3))%Q /\
  (tokensOf (run create (fetchBurst 21)) "fetch" < 0)%Q /\
  (tokensOf (run create (fastBurst 10)) "search" == 0)%Q /\
  (tokensOf (run create (fastBurst 11)) "search" == 9)%Q.
Proof.
  split.
  - intros s op m r resumed. unfold tokensOf. simpl. apply tokensOf_insert.
  - repeat split; try (vm_compute; reflexivity).
    eexists _, _, _.
    split; [vm_compute; reflexivity | vm_compute; reflexivity].
Qed.

End LimiterFacts.

(** ** Strings *)

Section StringFacts.

Lemma len_app (a b : jsstring) : len (a ++ b) = len a + len b.
Proof. unfold len. rewrite length_app. lia. Qed.

Lemma len_nonneg (s : jsstring) : 0 <= len s.
Proof. unfold len. lia. Qed.

(** [substring(0, n)] is the prefix of length [n]. *)
Lemma substring_prefix (s : jsstring) (n : Z) :
  0 <= n -> substring s 0 n = take (Z.to_nat n) s.
Proof.
  intros Hn. unfold substring.
  pose proof (len_nonneg s) as Hl.
  rewrite (Z.max_l 0 0) by lia. rewrite (Z.min_l 0 (len s)) by lia.
  rewrite (Z.max_l n 0) by lia.
  rewrite (Z.min_l 0 (Z.min n (len s))) by lia.
  rewrite (Z.max_r 0 (Z.min n (len s))) by lia.
  rewrite Z.sub_0_r. change (Z.to_nat 0) with 0%nat. rewrite drop_0.
  destruct (Z.le_gt_cases n (len s)) as [Hle | Hgt].
  - now rewrite Z.min_l by lia.
  - rewrite Z.min_r by lia. unfold len in *.
    rewrite Nat2Z.id. rewrite firstn_all.
    symmetry. apply take_ge. lia.
Qed.

Lemma len_take (s : jsstring) (n : Z) :
  0 <= n <= len s -> len (take (Z.to_nat n) s) = n.
Proof. unfold len. intros H. rewrite length_take. lia. Qed.

Lemma startsWith_length (needle s : jsstring) :
  startsWith needle s = true -> (length needle <= length s)%nat.
Proof.
  revert s. induction needle as [| c needle IH]; intros [| d s]; simpl;
    try lia; try discriminate.
  intros H. apply andb_true_iff in H as [_ H]. apply IH in H. lia.
Qed.

(** An occurrence lies inside the string. *)
Lemma occursAt_bound (needle s : jsstring) (i : Z) :
  needle <> [] -> occursAt needle s i -> 0 <= i /\ i + len needle <= len s.
Proof.
  intros Hne [Hi H]. apply startsWith_length in H.
  rewrite length_drop in H. unfold len.
  destruct needle as [| c needle]; [done |].
  simpl in *. lia.
Qed.

Lemma lastIndexOf_from_spec (needle : jsstring) :
  needle <> [] ->
  forall (s : jsstring) (i acc : Z),
    (lastIndexOf_from needle s i acc = acc /\
     forall j : nat, startsWith needle (drop j s) = false) \/
    (exists j : nat,
       lastIndexOf_from needle s i acc = i + Z.of_nat j /\
       startsWith needle (drop j s) = true /\
       forall j' : nat, startsWith needle (drop j' s) = true -> (j' <= j)%nat).
Proof.
  intros Hne. induction s as [| c s IH]; intros i acc.
  - left. destruct needle as [| d needle]; [done |]. simpl.
    split; [done |]. intros j. now rewrite drop_nil.
  - cbn [lastIndexOf_from].
    destruct (IH (i + 1)
                (if startsWith needle (c :: s) then i else acc))
      as [[Hr Hnone] | (j & Hr & Hj & Hmax)].
    + destruct (startsWith needle (c :: s)) eqn:Hhere.
      * right. exists 0%nat. rewrite Hr. repeat split; [lia | done |].
        intros [| j'] Hj'; [lia |]. simpl in Hj'.
        rewrite Hnone in Hj'. discriminate.
      * left. split; [done |]. intros [| j]; [done |]. apply Hnone.
    + right. exists (S j). rewrite Hr. repeat split; [lia | done |].
      intros [| j'] Hj'; [lia |]. simpl in Hj'. apply Hmax in Hj'. lia.
Qed.

(** [lastIndexOf] returns the last occurrence. *)
Lemma lastIndexOf_spec (needle s : jsstring) :
  needle <> [] -> lastOccurrence needle s (lastIndexOf needle s).
Proof.
  intros Hne. unfold lastIndexOf, lastOccurrence, occursAt.
  destruct (lastIndexOf_from_spec needle Hne s 0 (-1))
    as [[Hr Hnone] | (j & Hr & Hj & Hmax)].
  - left. split; [done |]. intros j [_ Hj]. rewrite Hnone in Hj. discriminate.
  - right. rewrite Hr. split.
    + split; [lia |]. now rewrite Z.add_0_l, Nat2Z.id.
    + intros j' [Hj'0 Hj']. apply Hmax in Hj'. lia.
Qed.

Lemma lastOccurrence_bound (needle s : jsstring) (i : Z) :
  needle <> [] -> lastOccurrence needle s i -> -1 <= i < len s.
Proof.
  intros Hne [[-> _] | [Hocc _]].
  - pose proof (len_nonneg s). lia.
  - apply occursAt_bound in Hocc; [| done].
    destruct needle as [| c needle]; [done |].
    unfold len in *. simpl in *. lia.
Qed.

End StringFacts.

(** ** Truncation of the extracted text *)

Section TruncationFacts.
Import HtmlParser.

Lemma startsWith_app (a b : jsstring) : startsWith a (a ++ b) = true.
Proof.
  induction a as [| c a IH]; [done |]. simpl. now rewrite N.eqb_refl.
Qed.

Lemma endsWith_app (a b : jsstring) : endsWith b (a ++ b) = true.
Proof. unfold endsWith. rewrite reverse_app. apply startsWith_app. Qed.

Lemma len_truncationSuffix : len truncationSuffix = 24.
Proof. reflexivity. Qed.

Lemma len_truncationMarker : len truncationMarker = 22.
Proof. reflexivity. Qed.

Lemma truncateText_short (text : jsstring) :
  len text <= MAX_TEXT_LEN -> truncateText text = text.
Proof.
  intros H. unfold truncateText.
  apply Z.ltb_ge in H. now rewrite H.
Qed.

Lemma truncateText_long (text : jsstring) :
  MAX_TEXT_LEN < len text ->
  exists p q cut,
    lastOccurrence (js ".") (take (Z.to_nat MAX_TEXT_LEN) text) p /\
    lastOccurrence [LF; LF] (take (Z.to_nat MAX_TEXT_LEN) text) q /\
    cut = (if 40000 <? Z.max p q then Z.max p q else MAX_TEXT_LEN) /\
    40000 < cut <= MAX_TEXT_LEN /\
    truncateText text
      = take (Z.to_nat cut) text ++ [LF; LF] ++ truncationMarker /\
    len (truncateText text) = cut + 24.
Proof.
  intros Hlong. unfold truncateText.
  pose proof Hlong as Hb. apply Z.ltb_lt in Hb. rewrite Hb. clear Hb.
  assert (Hmax : 0 <= MAX_TEXT_LEN) by (unfold MAX_TEXT_LEN; lia).
  rewrite (substring_prefix text MAX_TEXT_LEN Hmax).
  set (truncated := take (Z.to_nat MAX_TEXT_LEN) text).
  assert (Hlen : len truncated = MAX_TEXT_LEN).
  { apply len_take. lia. }
  assert (Hp : lastOccurrence (js ".") truncated (lastIndexOf (js ".") truncated))
    by (now apply lastIndexOf_spec).
  assert (Hq : lastOccurrence [LF; LF] truncated (lastIndexOf [LF; LF] truncated))
    by (now apply lastIndexOf_spec).
  set (p := lastIndexOf (js ".") truncated) in *.
  set (q := lastIndexOf [LF; LF] truncated) in *.
  apply lastOccurrence_bound in Hp as Hpb; [| done].
  apply lastOccurrence_bound in Hq as Hqb; [| done].
  set (cut := if 40000 <? Z.max p q then Z.max p q else MAX_TEXT_LEN).
  assert (Hcut : 40000 < cut <= MAX_TEXT_LEN).
  { unfold cut. destruct (40000 <? Z.max p q) eqn:E.
    - apply Z.ltb_lt in E. lia.
    - unfold MAX_TEXT_LEN. lia. }
  exists p, q, cut.
  assert (Htake : substring truncated 0 cut = take (Z.to_nat cut) text).
  { rewrite substring_prefix by lia. unfold truncated.
    rewrite take_take. f_equal. lia. }
  rewrite Htake. repeat split; try done; try lia.
  rewrite len_app, len_truncationSuffix, len_take; lia.
Qed.

(** C4, as the code has it.  The text content of a parsed document is the
    cleaned text of its main element when that text has at most 50,000
    characters.  When it has more, the text content is the cleaned text cut
    at the later of the last full stop and the last blank line within the
    first 50,000 characters if that point lies after 40,000, at exactly
    50,000 otherwise, followed by a blank line and the marker; it ends with
    the marker and has at most 50,000 + 24 characters, 24 being the length
    of the marker and of the two line feeds before it. *)
Theorem parseHtmlToContent_truncation
    (load : jsstring -> list Dom.node)
    (innerHtml : list Dom.node -> option jsstring)
    (html finalUrl : jsstring) :
  let text := cleanText (Dom.text (mainContentOf (cleaned load html))) in
  let out := textContent (parseHtmlToContent load innerHtml html finalUrl) in
  (len text <= 50000 -> out = text) /\
  (50000 < len text ->
   exists p q cut,
     lastOccurrence (js ".") (take (Z.to_nat 50000) text) p /\
     lastOccurrence [LF; LF] (take (Z.to_nat 50000) text) q /\
     cut = (if 40000 <? Z.max p q then Z.max p q else 50000) /\
     out = take (Z.to_nat cut) text ++ [LF; LF] ++ truncationMarker /\
     endsWith truncationMarker out = true /\
     len out = cut + 2 + len truncationMarker /\
     len out <= 50000 + 2 + len truncationMarker).
Proof.
  intros text out. unfold out, parseHtmlToContent.
  cbn [textContent]. fold text. split.
  - apply truncateText_short.
  - intros Hlong.
    destruct (truncateText_long text Hlong)
      as (p & q & cut & Hp & Hq & Hcut & Hb & Hout & Hlen).
    exists p, q, cut. rewrite len_truncationMarker.
    unfold MAX_TEXT_LEN in *.
    repeat split; try done; try lia.
    rewrite Hout. rewrite (app_assoc _ [LF; LF]). apply endsWith_app.
Qed.

(** C4, the bound as the claim words it fails: a body of 50,001 letters is
    cut at 50,000 and gets 24 more characters, two more than the marker
    has. *)
Lemma truncation_exceeds_marker_bound :
  len (textContent (parseHtmlToContent longDocument noSerializer [] []))
    = 50024 /\
  ~ len (textContent (parseHtmlToContent longDocument noSerializer [] []))
      <= 50000 + len truncationMarker.
Proof.
  assert (H : len (textContent
                     (parseHtmlToContent longDocument noSerializer [] []))
              = 50024) by (vm_compute; reflexivity).
  split; [exact H |]. rewrite H, len_truncationMarker. lia.
Qed.

(** The document of 50,001 letters: its text is cut, and the result is the
    cut text, a blank line and the marker. *)
Lemma parseHtmlToContent_truncation_witness :
  exists cut,
    len (textContent (parseHtmlToContent longDocument noSerializer [] []))
    = cut + 2 + len truncationMarker.
Proof.
  destruct (parseHtmlToContent_truncation longDocument noSerializer [] [])
    as [_ Hlong].
  destruct Hlong as (p & q & cut & _ & _ & _ & _ & _ & Hlen & _).
  - vm_compute. reflexivity.
  - exists cut. exact Hlen.
Defined.

End TruncationFacts.

(** ** Removal of nodes *)

Section DomFacts.
Import Dom HtmlParser.

(** Induction on a document tree, with the property at hand for every
    child of an element. *)
Lemma node_ind' (P : node -> Prop) :
  (forall d, P (Text d)) -> (forall d, P (Comment d)) ->
  (forall nm a cs, Forall P cs -> P (Element nm a cs)) ->
  forall n, P n.
Proof.
  intros HT HC HE. fix IH 1. intros [d | d | nm a cs].
  - apply HT.
  - apply HC.
  - apply HE. induction cs as [| c cs IHcs]; constructor.
    + apply IH.
    + apply IHcs.
Qed.

Lemma Forall_nodes (P : node -> Prop) (l : list node) :
  (forall n, P n) -> Forall P l.
Proof. intros H. apply Forall_forall. auto. Qed.

Lemma shallow_prune (p r : node -> bool) (n : node) :
  shallow p -> p (prune r n) = p n.
Proof. intros Hp. destruct n; simpl; [done | done | apply Hp]. Qed.

Lemma shallow_isTag (name : jsstring) : shallow (isTag name).
Proof. now intros nm a cs cs'. Qed.

Lemma shallow_hasClass (cls : jsstring) : shallow (hasClass cls).
Proof. now intros nm a cs cs'. Qed.

Lemma shallow_attrContains (name part : jsstring) :
  shallow (attrContains name part).
Proof. now intros nm a cs cs'. Qed.

Lemma shallow_anyOf (sels : list (node -> bool)) :
  Forall shallow sels -> shallow (anyOf sels).
Proof.
  intros H nm a cs cs'. unfold anyOf.
  induction H as [| sel sels Hsel _ IH]; simpl; [done |].
  now rewrite (Hsel nm a cs cs'), IH.
Qed.

Lemma shallow_removedSelectors : shallow (anyOf removedSelectors).
Proof.
  apply shallow_anyOf. unfold removedSelectors.
  repeat constructor;
    auto using shallow_isTag, shallow_hasClass, shallow_attrContains.
Qed.

Lemma shallow_scriptLike : shallow scriptLike.
Proof.
  apply shallow_anyOf. repeat constructor; apply shallow_isTag.
Qed.

(** Every node [scriptLike] selects is selected by the first [remove()]. *)
Lemma scriptLike_removed (n : node) :
  scriptLike n = true -> anyOf removedSelectors n = true.
Proof.
  unfold scriptLike, anyOf, removedSelectors. simpl.
  intros H. rewrite orb_false_r in H.
  apply orb_true_iff in H as [-> | H]; [done |].
  apply orb_true_iff in H as [-> | ->]; [now rewrite orb_true_r |].
  now rewrite !orb_true_r.
Qed.

Section Removal.

Variables p q : node -> bool.
Hypothesis p_shallow : shallow p.
Hypothesis q_in_p : forall n, q n = true -> p n = true.

Let keep (r : node -> bool) (c : node) : list node :=
  if r c then [] else [prune r c].

Lemma remove_remove_children (cs : list node) :
  Forall (fun c => prune p (prune q c) = prune p c) cs ->
  flat_map (keep p) (flat_map (keep q) cs) = flat_map (keep p) cs.
Proof.
  induction 1 as [| c cs Hc _ IH]; [done |].
  simpl. rewrite flat_map_app, IH. f_equal.
  unfold keep. destruct (q c) eqn:Hq.
  - now rewrite (q_in_p c Hq).
  - simpl. rewrite (shallow_prune p q c p_shallow), Hc.
    now rewrite app_nil_r.
Qed.

Lemma prune_prune (n : node) : prune p (prune q n) = prune p n.
Proof.
  induction n as [d | d | nm a cs IH] using node_ind'; [done | done |].
  simpl. f_equal. now apply remove_remove_children.
Qed.

(** Removing the nodes of [q] first changes nothing to a removal that
    takes them anyway. *)
Lemma remove_remove (doc : list node) :
  remove p (remove q doc) = remove p doc.
Proof.
  unfold remove. apply remove_remove_children.
  apply Forall_nodes, prune_prune.
Qed.

End Removal.

Section Selection.

Variables p q : node -> bool.
Hypothesis q_shallow : shallow q.
Hypothesis q_in_p : forall n, q n = true -> p n = true.

Let keep (r : node -> bool) (c : node) : list node :=
  if r c then [] else [prune r c].

Lemma select_removed_children (cs : list node) :
  Forall (fun c => selectIn q (prune p c)
                   = if q c then [prune p c] else []) cs ->
  flat_map (selectIn q) (flat_map (keep p) cs) = [].
Proof.
  induction 1 as [| c cs Hc _ IH]; [done |].
  simpl. rewrite flat_map_app, IH, app_nil_r.
  unfold keep. destruct (p c) eqn:Hp; [done |].
  simpl. rewrite app_nil_r, Hc.
  destruct (q c) eqn:Hq; [| done].
  apply q_in_p in Hq. congruence.
Qed.

Lemma selectIn_prune (n : node) :
  selectIn q (prune p n) = if q n then [prune p n] else [].
Proof.
  induction n as [d | d | nm a cs IH] using node_ind'.
  - simpl. now rewrite app_nil_r.
  - simpl. now rewrite app_nil_r.
  - cbn [prune selectIn]. fold (keep p).
    rewrite (select_removed_children cs IH), app_nil_r.
    now rewrite (q_shallow nm a (flat_map (keep p) cs) cs).
Qed.

(** Nothing [q] selects is left after the removal of [p]. *)
Lemma select_remove (doc : list node) : select q (remove p doc) = [].
Proof.
  unfold select, remove. apply select_removed_children.
  apply Forall_nodes, selectIn_prune.
Qed.

Variable r : node -> bool.

Lemma selectIn_nil_prune (n : node) :
  selectIn q n = [] -> selectIn q (prune r n) = [].
Proof.
  induction n as [d | d | nm a cs IH] using node_ind'; [done | done |].
  cbn [prune selectIn].
  rewrite (q_shallow nm a (flat_map (fun c => if r c then [] else [prune r c]) cs) cs).
  destruct (q (Element nm a cs)); [discriminate |]. simpl.
  induction IH as [| c cs Hc _ IHcs]; [done |].
  simpl. intros H. apply app_eq_nil in H as [H1 H2].
  rewrite flat_map_app, (IHcs H2), app_nil_r.
  destruct (r c); [done |]. simpl. rewrite app_nil_r. now apply Hc.
Qed.

Lemma select_nil_removeInElements (doc : list node) :
  select q doc = [] -> select q (removeInElements r doc) = [].
Proof.
  unfold select, removeInElements.
  induction doc as [| n doc IH]; [done |].
  simpl. intros H. apply app_eq_nil in H as [H1 H2].
  now rewrite (selectIn_nil_prune n H1), (IH H2).
Qed.

End Selection.

(** C5.  Whatever the document, no [script], [style] or [noscript]
    element is left in the tree the text is read from, and the text content
    is the one of the document from which these elements have been deleted
    beforehand; two documents that differ only inside such elements have
    the same text content, so that what these elements contain cannot
    reach the result.  For the sample of the specification the text
    content is the sentence of the paragraph; it contains that sentence and
    does not contain the script. *)
Theorem scripts_are_stripped :
  (forall (load : jsstring -> list node)
          (innerHtml : list node -> option jsstring)
          (html finalUrl : jsstring),
     select scriptLike (cleaned load html) = [] /\
     textContent (parseHtmlToContent load innerHtml html finalUrl)
     = textContent
         (parseHtmlToContent (fun h => remove scriptLike (load h))
            innerHtml html finalUrl)) /\
  (forall (load1 load2 : jsstring -> list node)
          (innerHtml : list node -> option jsstring)
          (html finalUrl : jsstring),
     remove scriptLike (load1 html) = remove scriptLike (load2 html) ->
     textContent (parseHtmlToContent load1 innerHtml html finalUrl)
     = textContent (parseHtmlToContent load2 innerHtml html finalUrl)) /\
  (let out :=
     textContent
       (parseHtmlToContent sampleDocument noSerializer sampleHtml sampleUrl) in
   out = js "Hello world is long enough" /\
   includes (js "Hello world is long enough") out = true /\
   includes (js "malicious()") out = false).
Proof.
  assert (Hclean : forall load html,
            cleaned load html
            = cleaned (fun h => remove scriptLike (load h)) html).
  { intros load html. unfold cleaned.
    now rewrite (remove_remove _ scriptLike shallow_removedSelectors
                   scriptLike_removed). }
  split; [| split].
  - intros load innerHtml html finalUrl. split.
    + unfold cleaned.
      apply select_nil_removeInElements; [apply shallow_scriptLike |].
      apply select_remove;
        [apply shallow_scriptLike | apply scriptLike_removed].
    + unfold parseHtmlToContent. cbn [textContent].
      now rewrite <- Hclean.
  - intros load1 load2 innerHtml html finalUrl Hsame.
    unfold parseHtmlToContent. cbn [textContent].
    rewrite (Hclean load1), (Hclean load2). unfold cleaned.
    now rewrite Hsame.
  - vm_compute. done.
Qed.

(** The sample and the same page with another script have the same text
    content. *)
Lemma scripts_are_stripped_witness :
  textContent
    (parseHtmlToContent sampleDocument noSerializer sampleHtml sampleUrl)
  = textContent
      (parseHtmlToContent otherSampleDocument noSerializer sampleHtml
         sampleUrl).
Proof.
  destruct scripts_are_stripped as (_ & Hsame & _).
  apply Hsame. reflexivity.
Defined.

End DomFacts.

(** ** Sitemaps *)

Section SitemapFacts.
Import Sitemap SitemapDocs.

Variable toStringOther : jsval -> jsstring.
Variable xmlParse : jsstring -> list (jsstring * jsval).

Lemma asList_repeated (locs : list jsstring) :
  locs <> [] ->
  asList (Some (repeated (map locEntry locs))) = map locEntry locs.
Proof.
  destruct locs as [| a [| b locs]]; [done | done | done].
Qed.

Lemma locOf_locEntry (l : jsstring) :
  l <> [] -> locOf toStringOther (locEntry l) = l.
Proof. now destruct l. Qed.

Lemma toUrlList_locs (locs : list jsstring) :
  Forall (fun l => l <> []) locs -> locs <> [] ->
  toUrlList toStringOther (JObj [(js "url", repeated (map locEntry locs))])
  = map plainUrl locs.
Proof.
  intros Hall Hne. unfold toUrlList.
  change (prop (JObj [(js "url", repeated (map locEntry locs))]) (js "url"))
    with (Some (repeated (map locEntry locs))).
  rewrite (asList_repeated locs Hne). clear Hne.
  induction Hall as [| l locs Hl _ IH]; [done |].
  cbn [map List.filter]. rewrite IH.
  destruct l as [| c l]; [done |]. reflexivity.
Qed.

Lemma toSitemapEntries_locs (locs : list jsstring) :
  Forall (fun l => l <> []) locs -> locs <> [] ->
  toSitemapEntries (JObj [(js "sitemap", repeated (map locEntry locs))])
  = map plainRef locs.
Proof.
  intros Hall Hne. unfold toSitemapEntries.
  change (prop (JObj [(js "sitemap", repeated (map locEntry locs))])
            (js "sitemap"))
    with (Some (repeated (map locEntry locs))).
  rewrite (asList_repeated locs Hne). clear Hne.
  induction Hall as [| l locs Hl _ IH]; [done |].
  destruct l as [| c l]; [done |].
  cbn [map]. rewrite <- IH. reflexivity.
Qed.

(** C6.  A [<urlset>] whose [<url><loc>] entries carry the locations
    [locs] parses to a [urlset] result with exactly these entries, in the
    order of the document; a [<sitemapindex>] whose [<sitemap><loc>]
    children carry them parses to a [sitemapindex] result with exactly
    these locations, in order.  The counts are kept: three entries give
    three, two children give two. *)
Theorem sitemap_keeps_count_and_order (xml : jsstring) (locs : list jsstring) :
  Forall (fun l => l <> []) locs -> locs <> [] ->
  (xmlParse xml = urlsetObject locs ->
   parseSitemapXml toStringOther xmlParse xml
   = {| type := urlset; urls := Some (map plainUrl locs); sitemaps := None |}
   /\ map loc (map plainUrl locs) = locs
   /\ length (map plainUrl locs) = length locs) /\
  (xmlParse xml = sitemapindexObject locs ->
   parseSitemapXml toStringOther xmlParse xml
   = {| type := sitemapindex; urls := None;
        sitemaps := Some (map plainRef locs) |}
   /\ map ref_loc (map plainRef locs) = locs
   /\ length (map plainRef locs) = length locs).
Proof.
  intros Hall Hne. split; intros Hparse.
  - split; [| split].
    + unfold parseSitemapXml. rewrite Hparse.
      destruct locs as [| a locs]; [done |].
      unfold parseSitemapObj, urlsetObject.
      change (rootValue (js "sitemapindex") _) with (@None jsval).
      change (rootValue (js "urlset")
                [(js "urlset",
                  JObj [(js "url", repeated (map locEntry (a :: locs)))])])
        with (Some (JObj [(js "url", repeated (map locEntry (a :: locs)))])).
      cbn [isTruthyObject truthy isObject andb default from_option id].
      now rewrite toUrlList_locs.
    + rewrite map_map. apply map_id.
    + apply length_map.
  - split; [| split].
    + unfold parseSitemapXml. rewrite Hparse.
      destruct locs as [| a locs]; [done |].
      unfold parseSitemapObj, sitemapindexObject.
      change (rootValue (js "sitemapindex")
                [(js "sitemapindex",
                  JObj [(js "sitemap", repeated (map locEntry (a :: locs)))])])
        with (Some (JObj [(js "sitemap",
                           repeated (map locEntry (a :: locs)))])).
      cbn [isTruthyObject truthy isObject andb default from_option id].
      now rewrite toSitemapEntries_locs.
    + rewrite map_map. apply map_id.
    + apply length_map.
Qed.









End SitemapFacts.



(** The two documents of the specification: three [<url>] entries, two
    child sitemaps. *)
Lemma sitemap_keeps_count_and_order_witness :
  Sitemap.parseSitemapXml SitemapDocs.noToString SitemapDocs.urlsetParser []
  = {| Sitemap.type := Sitemap.urlset;
       Sitemap.urls :=
         Some (map SitemapDocs.plainUrl SitemapDocs.exampleLocs);
       Sitemap.sitemaps := None |} /\
  Sitemap.parseSitemapXml SitemapDocs.noToString SitemapDocs.indexParser []
  = {| Sitemap.type := Sitemap.sitemapindex;
       Sitemap.urls := None;
       Sitemap.sitemaps :=
         Some (map SitemapDocs.plainRef SitemapDocs.exampleChildren) |}.
Proof.
  split.
  - apply (sitemap_keeps_count_and_order SitemapDocs.noToString
             SitemapDocs.urlsetParser [] SitemapDocs.exampleLocs).
    + repeat constructor; discriminate.
    + discriminate.
    + reflexivity.
  - apply (sitemap_keeps_count_and_order SitemapDocs.noToString
             SitemapDocs.indexParser [] SitemapDocs.exampleChildren).
    + repeat constructor; discriminate.
    + discriminate.
    + reflexivity.
Defined.

(** ** The services *)

Section MonadFacts.
Import Eff.

Lemma bind_Return_inv {A B} (m : M A) (k : A -> M B) (w w' : world) (b : B) :
  bind m k w = (Return b, w') ->
  exists a w1, m w = (Return a, w1) /\ k a w1 = (Return b, w').
Proof.
  unfold bind. destruct (m w) as [[a | e] w1]; [eauto | discriminate].
Qed.

Lemma catch_Return_inv {A} (m : M A) (h : exn -> M A) (w w' : world) (a : A) :
  (forall e w1, exists e', h e w1 = (Throw e', w1)) ->
  catch m h w = (Return a, w') -> m w = (Return a, w').
Proof.
  intros Hh. unfold catch. destruct (m w) as [[a' | e] w1]; [done |].
  destruct (Hh e w1) as [e' ->]. discriminate.
Qed.

Lemma fetches_app (evs evs' : list event) :
  fetches (evs ++ evs') = fetches evs ++ fetches evs'.
Proof. unfold fetches. apply omap_app. Qed.

Lemma waits_app (evs evs' : list event) :
  waits (evs ++ evs') = waits evs ++ waits evs'.
Proof. unfold waits. apply omap_app. Qed.

End MonadFacts.

Section SearchFacts.
Import Eff SearXNGService.

Variable net : Z -> jsstring -> reply.
Variable URL_withParams
  : jsstring -> list (jsstring * jsstring) -> option jsstring.

Lemma truthy_trim (s : jsstring) :
  truthy (trim s) = true -> truthy s = true.
Proof. now destruct s. Qed.

(** C3.  When the class [searxng] has fewer than one token left at the
    time of the call, a search with a base URL and a query fails with the
    [RateLimitError]: no request goes out, the caller is not suspended, the
    clock has not moved, and the limiter has only been refilled for the
    time elapsed. *)
Theorem search_precheck (params : SearXNGSearchParams) (w : world) :
  truthy (trim (searxng_base_url params)) = true ->
  truthy (trim (query params)) = true ->
  fst (RateLimiter.getRemainingTokens (limiter w) "searxng" (clock w)) < 1 ->
  exists e w',
    search net URL_withParams params w = (Throw e, w') /\
    isRateLimitError e = true /\ message e = rateLimitedMessage /\
    events w' = events w /\
    fetches (events w') = fetches (events w) /\
    waits (events w') = waits (events w) /\
    clock w' = clock w /\
    limiter w'
      = snd (RateLimiter.getRemainingTokens (limiter w) "searxng" (clock w)).
Proof.
  intros Hbase Hquery Hlow. unfold search.
  rewrite Hbase, Hquery, (truthy_trim _ Hbase), (truthy_trim _ Hquery).
  cbn [negb orb]. unfold bind, getRemainingTokens.
  destruct (RateLimiter.getRemainingTokens (limiter w) "searxng" (clock w))
    as [n s'] eqn:Hget.
  simpl in Hlow. apply Z.ltb_lt in Hlow. rewrite Hlow.
  eexists _, _. split; [reflexivity |]. now repeat split.
Qed.

End SearchFacts.

(** A service that has spent its thirty tokens refuses the next search at
    once. *)
Lemma search_precheck_witness :
  exists e w',
    SearXNGService.search (Scenario.always Scenario.plainPage)
      Scenario.pathOnly Scenario.someSearch Scenario.exhaustedWorld
    = (Eff.Throw e, w') /\
    Eff.isRateLimitError e = true /\ Eff.events w' = [].
Proof.
  destruct (search_precheck (Scenario.always Scenario.plainPage)
              Scenario.pathOnly Scenario.someSearch Scenario.exhaustedWorld)
    as (e & w' & Hrun & Hcls & _ & Hev & _).
  - reflexivity.
  - reflexivity.
  - vm_compute. reflexivity.
  - exists e, w'. repeat split; assumption.
Defined.

Section BraveFacts.
Import Eff BraveWebSearchService Scenario.

Variable net : Z -> jsstring -> reply.
Variable URL_withParams
  : jsstring -> list (jsstring * jsstring) -> option jsstring.

(** What the header update does to the limiter. *)
Lemma updateRateLimiter_limiter (response : Response) (w : world) :
  let w' := snd (updateRateLimiterFromBraveHeaders response w) in
  fst (updateRateLimiterFromBraveHeaders response w) = Return tt /\
  clock w' = clock w /\ events w' = events w /\
  limiter w' =
    match perSecondLimit response with
    | Some n =>
        if 0 <? n then
          RateLimiter.configure (limiter w) "search" (inject_Z n) 1000
            (clock w)
        else limiter w
    | None => limiter w
    end.
Proof.
  unfold updateRateLimiterFromBraveHeaders, perSecondLimit.
  destruct (nonEmpty (headers_get response (js "X-RateLimit-Limit")))
    as [h |]; [| done].
  destruct (head (parseList h)) as [[n |] |]; [| done | done].
  simpl. destruct (0 <? n) eqn:Hpos.
  - apply Z.ltb_lt in Hpos.
    assert ((n =? 0) = false) as -> by (apply Z.eqb_neq; lia). done.
  - now rewrite andb_false_r.
Qed.

Lemma catch_keeps_world {A} (m : M A) (h : exn -> M A) (w : world) :
  (forall e w1, snd (h e w1) = w1) -> snd (catch m h w) = snd (m w).
Proof.
  intros Hh. unfold catch. destruct (m w) as [[a | e] w1]; [done |].
  apply Hh.
Qed.

(** The statements after the header update change no state. *)
Lemma request_world (searchUrl : jsstring) (maxResults : Z) (w : world)
    (lat : Z) (response : Response) :
  net (clock w) searchUrl = {| latency := lat; outcome := inr response |} ->
  (15000 <? lat) = false ->
  snd (request net searchUrl maxResults w)
  = snd (updateRateLimiterFromBraveHeaders response
           {| limiter := limiter w; clock := clock w + Z.max 0 lat;
              events := events w ++ [Fetched searchUrl] |}).
Proof.
  intros Hnet Hlat. unfold request, bind at 1, fetchAbortable.
  rewrite Hnet. cbn [latency outcome]. rewrite Hlat.
  set (w1 := {| limiter := limiter w; clock := clock w + Z.max 0 lat;
                events := events w ++ [Fetched searchUrl] |}).
  unfold bind.
  destruct (updateRateLimiterFromBraveHeaders response w1)
    as [[[] | e] w2] eqn:Hupd; [| done].
  cbn [snd].
  destruct (negb (ok response)).
  - destruct ((status response =? 401) || (status response =? 403));
      [done |].
    now destruct (status response =? 429).
  - destruct (json response) as [[[| x l] |] |]; done.
Qed.

(** When the request of [searchBrave] is answered in time, the limiter is
    reconfigured for the class [search] exactly when the response reports a
    per-second limit that is a positive integer. *)
Lemma searchBrave_limiter
    (query braveApiKey searchUrl : jsstring) (maxResults : Z) (w : world)
    (lat : Z) (response : Response) :
  URL_withParams braveEndpoint
    [ (js "q", query); (js "count", stringOfZ maxResults);
      (js "safesearch", js "moderate") ] = Some searchUrl ->
  net (clock w) searchUrl = {| latency := lat; outcome := inr response |} ->
  lat <= 15000 ->
  let w' := snd (searchBrave net URL_withParams query braveApiKey
                   maxResults w) in
  (forall n,
     perSecondLimit response = Some n -> 0 < n ->
     limiter w'
     = RateLimiter.configure (limiter w) "search" (inject_Z n) 1000
         (clock w + Z.max 0 lat) /\
     RateLimiter.maxTokens (limiter w') !! "search" = Some (inject_Z n) /\
     RateLimiter.tokens (limiter w') !! "search" = Some (inject_Z n) /\
     (exists rate,
        RateLimiter.refillRate (limiter w') !! "search" = Some rate /\
        (rate == inject_Z n)%Q)) /\
  ((perSecondLimit response = None \/
    exists n, perSecondLimit response = Some n /\ n <= 0) ->
   limiter w' = limiter w).
Proof.
  intros Hurl Hnet Hlat w'. unfold w', searchBrave. rewrite Hurl.
  rewrite catch_keeps_world
    by (intros e w1; now destruct (isAbortError e)).
  rewrite (request_world searchUrl maxResults w lat response Hnet)
    by (apply Z.ltb_ge; lia).
  set (w1 := {| limiter := limiter w; clock := clock w + Z.max 0 lat;
                events := events w ++ [Fetched searchUrl] |}).
  destruct (updateRateLimiter_limiter response w1) as (_ & _ & _ & Hlim).
  rewrite Hlim. clear Hlim. split.
  - intros n Hn Hpos. rewrite Hn.
    apply Z.ltb_lt in Hpos. rewrite Hpos. simpl.
    rewrite !lookup_insert_eq. repeat split; try done.
    eexists. split; [reflexivity |]. field.
  - intros [Hnone | (n & Hn & Hle)].
    + now rewrite Hnone.
    + rewrite Hn. apply Z.ltb_ge in Hle. now rewrite Hle.
Qed.

End BraveFacts.

Section FetchFacts.
Import Eff HttpUtils WebSearchService.

Variable net : Z -> jsstring -> reply.
Variable URL_href : jsstring -> option jsstring.
Variable URL_resolve : jsstring -> jsstring -> option jsstring.
Variable load : jsstring -> list Dom.node.
Variable innerHtml : list Dom.node -> option jsstring.

(** One call of [fetchWithTimeout] sends one request, whatever comes
    back. *)
Lemma fetchWithTimeout_events (u : jsstring) (timeoutMs : Z) (w : world) :
  events (snd (fetchWithTimeout net u timeoutMs w))
  = events w ++ [Fetched u].
Proof.
  unfold fetchWithTimeout, catch, fetchAbortable.
  destruct (timeoutMs <? latency (net (clock w) u)); [done |].
  now destruct (outcome (net (clock w) u)).
Qed.

(** A response it returns is the one the network gave. *)
Lemma fetchWithTimeout_Return (u : jsstring) (timeoutMs : Z) (w w' : world)
    (r : Response) :
  fetchWithTimeout net u timeoutMs w = (Return r, w') ->
  outcome (net (clock w) u) = inr r /\
  latency (net (clock w) u) <= timeoutMs.
Proof.
  unfold fetchWithTimeout, catch, fetchAbortable.
  destruct (timeoutMs <? latency (net (clock w) u)) eqn:Hlat;
    [discriminate |].
  apply Z.ltb_ge in Hlat.
  destruct (outcome (net (clock w) u)); [discriminate |].
  now intros [= <- _].
Qed.

(** C7, as the code has it.  A response whose status is not 300 is
    returned as it is: no request, no change of state.  A response with
    status 300 and a [Location] header that is not empty and resolves
    against the original URL leads to exactly one more request, to the
    resolved address, and the result is the result of that request.  When
    the location does not resolve, the call fails with the [TypeError] of
    the URL constructor, and no request goes out.  A response with status
    300 and no [Location] header, or an empty one, fails with an error, and
    no request goes out. *)
Theorem follow300Redirect_cases
    (response : Response) (originalUrl : jsstring) (timeoutMs : Z)
    (w : world) :
  (status response <> 300 ->
   follow300Redirect net URL_resolve response originalUrl timeoutMs w
   = (Return response, w)) /\
  (status response = 300 ->
   forall location redirectUrl,
     headers_get response (js "Location") = Some location ->
     location <> [] ->
     URL_resolve location originalUrl = Some redirectUrl ->
     follow300Redirect net URL_resolve response originalUrl timeoutMs w
     = fetchWithTimeout net redirectUrl timeoutMs w /\
     fetches
       (events
          (snd (follow300Redirect net URL_resolve response originalUrl
                  timeoutMs w)))
     = fetches (events w) ++ [redirectUrl] /\
     (forall second,
        outcome (net (clock w) redirectUrl) = inr second ->
        latency (net (clock w) redirectUrl) <= timeoutMs ->
        fst (follow300Redirect net URL_resolve response originalUrl
               timeoutMs w)
        = Return second)) /\
  (status response = 300 ->
   forall location,
     headers_get response (js "Location") = Some location ->
     location <> [] ->
     URL_resolve location originalUrl = None ->
     follow300Redirect net URL_resolve response originalUrl timeoutMs w
     = (Throw {| cls := TypeError; message := js "Invalid URL" |}, w)) /\
  (status response = 300 ->
   headers_get response (js "Location") = None \/
   headers_get response (js "Location") = Some [] ->
   exists e,
     follow300Redirect net URL_resolve response originalUrl timeoutMs w
     = (Throw e, w) /\
     cls e = PlainError /\
     message e
     = js "HTTP 300: Multiple Choices - No Location header provided").
Proof.
  unfold follow300Redirect. split; [| split; [| split]].
  - intros Hst. apply Z.eqb_neq in Hst. now rewrite Hst.
  - intros Hst location redirectUrl Hloc Hne Hres.
    rewrite Hst, Hloc. cbn [Z.eqb Pos.eqb negb].
    destruct location as [| c l]; [done |]. rewrite Hres.
    split; [done |]. split.
    + rewrite fetchWithTimeout_events, fetches_app. reflexivity.
    + intros second Hnet Hlat.
      unfold fetchWithTimeout, catch, fetchAbortable.
      apply Z.ltb_ge in Hlat. rewrite Hlat.
      rewrite Hnet. reflexivity.
  - intros Hst location Hloc Hne Hres.
    rewrite Hst, Hloc. cbn [Z.eqb Pos.eqb negb].
    destruct location as [| c l]; [done |]. now rewrite Hres.
  - intros Hst [Hloc | Hloc]; rewrite Hst, Hloc; cbn [Z.eqb Pos.eqb negb];
      (eexists; split; [reflexivity |]; done).
Qed.

(** The [catch] block of [fetchUrl] always throws. *)
Lemma classify_throws (url_ : jsstring) (e : exn) (w : world) :
  exists e', classify url_ e w = (Throw e', w).
Proof.
  unfold classify, Error, throw.
  destruct (isAbortError e); [eauto |].
  destruct (includes (js "Invalid URL") (message e)); [eauto |].
  destruct (includes (js "rate limit") (message e)); eauto.
Qed.

(** A response [follow300Redirect] returns is its argument, or one the
    network gave. *)
Lemma follow300Redirect_Return (response : Response)
    (originalUrl : jsstring) (timeoutMs : Z) (w w' : world) (r : Response) :
  follow300Redirect net URL_resolve response originalUrl timeoutMs w
    = (Return r, w') ->
  r = response \/ exists t u, outcome (net t u) = inr r.
Proof.
  unfold follow300Redirect.
  destruct (negb (status response =? 300)).
  - intros [= <- _]. now left.
  - destruct (headers_get response (js "Location")) as [[| c l] |];
      try discriminate.
    destruct (URL_resolve (c :: l) originalUrl) as [u |]; [| discriminate].
    intros H. apply fetchWithTimeout_Return in H as [H _]. right. eauto.
Qed.

(** The dispatch on the content type: a successful response is read
    without a failure and without a change of the world, and a response
    that is read was successful. *)
Lemma readResponse_follows (response : Response) (normalized : jsstring)
    (w : world) :
  (ok response = true ->
   exists res,
     readResponse load innerHtml response normalized w = (Return res, w) /\
     followsContentType load innerHtml response normalized res) /\
  (forall res w',
     readResponse load innerHtml response normalized w = (Return res, w') ->
     ok response = true /\
     followsContentType load innerHtml response normalized res).
Proof.
  unfold readResponse, followsContentType, unsupportedText.
  destruct (ok response); cbn [negb].
  2: { split; [discriminate |]. intros res w'. discriminate. }
  set (contentType := orStr (headers_get response (js "content-type")) []).
  set (finalUrl := if truthy (Eff.url response) then Eff.url response
                   else normalized).
  rewrite substring_prefix by lia.
  assert (len (take (Z.to_nat 50000) (body response)) <= 50000) as Hlen.
  { unfold len. rewrite length_take. lia. }
  destruct (includes (js "text/html") contentType) eqn:Hhtml,
           (includes (js "text/plain") contentType) eqn:Hplain;
    cbn [negb andb]; unfold ret;
    (split;
     [ intros _; eexists; split; [reflexivity |]
     | intros res w' [= <- _]; split; [reflexivity |] ]);
    (split; [| split]); try discriminate; try done.
Qed.

(** C8, as the code has it.  When the limiter admits the call, the
    address is a URL and the server answers in time with a successful
    response, [fetchUrl] returns, after exactly one request, and its result
    follows the [content-type] header of the response as it is written: a
    header that contains neither [text/html] nor [text/plain] gives the
    explanation that the type is not supported, with an empty content, and
    no failure; a header that contains [text/plain] gives the first 50,000
    characters of the body, as content and as text content alike; a header
    that contains [text/html] and not [text/plain] gives what the
    HTML-to-text extractor makes of the body.  The same holds of the
    response a redirection ends with; and every call that returns has
    obtained a successful response from the network and follows the
    dispatch on it. *)
Theorem fetchUrl_dispatch (url_ : jsstring) (w : world) :
  let w1 := snd (acquire "fetch" w) in
  let normalized := cleanUrl URL_href url_ in
  (forall response,
     fst (acquire "fetch" w) = Return tt ->
     URL_href normalized <> None ->
     outcome (net (clock w1) normalized) = inr response ->
     latency (net (clock w1) normalized) <= 15000 ->
     ok response = true ->
     exists res w',
       fetchUrl net URL_href URL_resolve load innerHtml url_ w
       = (Return res, w') /\
       fetches (events w') = fetches (events w1) ++ [normalized] /\
       followsContentType load innerHtml response normalized res) /\
  (forall first w2 response w3,
     fst (acquire "fetch" w) = Return tt ->
     URL_href normalized <> None ->
     fetchWithTimeout net normalized 15000 w1 = (Return first, w2) ->
     follow300Redirect net URL_resolve first normalized 15000 w2
     = (Return response, w3) ->
     ok response = true ->
     exists res,
       fetchUrl net URL_href URL_resolve load innerHtml url_ w
       = (Return res, w3) /\
       followsContentType load innerHtml response normalized res) /\
  (forall res w',
     fetchUrl net URL_href URL_resolve load innerHtml url_ w
     = (Return res, w') ->
     exists response,
       (exists t u, outcome (net t u) = inr response) /\
       ok response = true /\
       followsContentType load innerHtml response normalized res).
Proof.
  cbv zeta.
  assert (Hgeneral :
            forall first w2 response w3,
              fst (acquire "fetch" w) = Return tt ->
              URL_href (cleanUrl URL_href url_) <> None ->
              fetchWithTimeout net (cleanUrl URL_href url_) 15000
                (snd (acquire "fetch" w)) = (Return first, w2) ->
              follow300Redirect net URL_resolve first (cleanUrl URL_href url_)
                15000 w2 = (Return response, w3) ->
              ok response = true ->
              exists res,
                fetchUrl net URL_href URL_resolve load innerHtml url_ w
                = (Return res, w3) /\
                followsContentType load innerHtml response
                  (cleanUrl URL_href url_) res).
  { intros first w2 response w3 Ha Hu Hfetch Hfollow Hok.
    unfold fetchUrl. unfold bind at 1.
    destruct (acquire "fetch" w) as [[[] | e0] w1]; [| discriminate].
    cbn [snd] in *.
    destruct (URL_href (cleanUrl URL_href url_)) as [href |]; [| done].
    unfold catch, bind. unfold FETCH_TIMEOUT_MS. rewrite Hfetch, Hfollow.
    destruct (readResponse_follows response (cleanUrl URL_href url_) w3)
      as [Hread _].
    destruct (Hread Hok) as (res & -> & Hres). now exists res. }
  split; [| split; [exact Hgeneral |]].
  - intros response Ha Hu Hout Hlat Hok.
    set (w1 := snd (acquire "fetch" w)) in *.
    set (normalized := cleanUrl URL_href url_) in *.
    set (w2 := {| limiter := limiter w1;
                  clock := clock w1
                           + Z.max 0 (latency (net (clock w1) normalized));
                  events := events w1 ++ [Fetched normalized] |}).
    destruct (Hgeneral response w2 response w2 Ha Hu) as (res & Hrun & Hres).
    + unfold fetchWithTimeout, catch, fetchAbortable.
      apply Z.ltb_ge in Hlat. now rewrite Hlat, Hout.
    + unfold follow300Redirect.
      assert (negb (status response =? 300) = true) as ->; [| reflexivity].
      unfold ok in Hok. apply andb_prop in Hok as [_ Hhi].
      apply Z.leb_le in Hhi. apply negb_true_iff, Z.eqb_neq. lia.
    + exact Hok.
    + exists res, w2. split; [exact Hrun |]. split; [| exact Hres].
      subst w2. cbn [events]. rewrite fetches_app. reflexivity.
  - intros res w'. unfold fetchUrl. intros Hrun.
    apply bind_Return_inv in Hrun as ([] & w1 & _ & Hrun).
    destruct (URL_href (cleanUrl URL_href url_)) as [href |];
      [| discriminate].
    apply catch_Return_inv in Hrun; [| apply classify_throws].
    apply bind_Return_inv in Hrun as (r1 & w2 & Hfetch & Hrun).
    apply bind_Return_inv in Hrun as (r2 & w3 & Hfollow & Hread).
    apply fetchWithTimeout_Return in Hfetch as [Hfetch _].
    apply readResponse_follows in Hread as [Hok Hres].
    apply follow300Redirect_Return in Hfollow as [-> | Hnet].
    + exists r1. split; [eauto |]. now split.
    + exists r2. split; [exact Hnet |]. now split.
Qed.

End FetchFacts.

(** The page that answers 300 with [Location: https://example.org/new]:
    one more request goes out, to that address. *)
Lemma follow300Redirect_cases_witness :
  Eff.fetches
    (Eff.events
       (snd (HttpUtils.follow300Redirect (Scenario.always Scenario.plainPage)
               Scenario.resolveToItself Scenario.multipleChoices
               (js "https://example.org/old") 15000 Scenario.fetchWorld)))
  = [js "https://example.org/new"] /\
  fst (HttpUtils.follow300Redirect (Scenario.always Scenario.plainPage)
         Scenario.resolveToItself Scenario.multipleChoices
         (js "https://example.org/old") 15000 Scenario.fetchWorld)
  = Eff.Return Scenario.plainPage.
Proof.
  destruct (follow300Redirect_cases (Scenario.always Scenario.plainPage)
              Scenario.resolveToItself Scenario.multipleChoices
              (js "https://example.org/old") 15000 Scenario.fetchWorld)
    as (_ & Hredirect & _).
  destruct (Hredirect eq_refl (js "https://example.org/new")
              (js "https://example.org/new"))
    as (_ & Hone & Hsecond).
  - reflexivity.
  - discriminate.
  - reflexivity.
  - split; [exact Hone |]. apply Hsecond; [reflexivity | simpl; lia].
Defined.

(** C7, the clause on the location as the claim words it fails.  An
    answer with status 300 carries the location [https://], which has no
    host and does not resolve: the call fails with the [TypeError], and no
    request goes out.  An answer with status 300 carries a [Location]
    header that is empty: the call fails as if there were none. *)
Lemma unresolved_location_sends_nothing :
  Eff.status hostlessChoices = 300 /\
  Eff.headers_get hostlessChoices (js "Location") = Some (js "https://") /\
  HttpUtils.follow300Redirect (Scenario.always Scenario.plainPage)
    hostRequired hostlessChoices (js "https://example.org/old") 15000
    Scenario.fetchWorld
  = (Eff.Throw {| Eff.cls := Eff.TypeError;
                  Eff.message := js "Invalid URL" |},
     Scenario.fetchWorld) /\
  Eff.status emptyLocation = 300 /\
  Eff.headers_get emptyLocation (js "Location") = Some [] /\
  HttpUtils.follow300Redirect (Scenario.always Scenario.plainPage)
    hostRequired emptyLocation (js "https://example.org/old") 15000
    Scenario.fetchWorld
  = (Eff.Throw
       {| Eff.cls := Eff.PlainError;
          Eff.message :=
            js "HTTP 300: Multiple Choices - No Location header provided" |},
     Scenario.fetchWorld).
Proof. repeat split. Qed.

(** A plain-text page, a page of HTML and a PDF document are fetched, and
    a page is reached through a redirection: the calls return, with the
    body, with the extracted text and with the explanation. *)
Lemma fetchUrl_dispatch_witness :
  (exists res w',
     WebSearchService.fetchUrl (Scenario.always Scenario.plainPage)
       Scenario.anyUrl Scenario.resolveToItself sampleDocument noSerializer
       (js "https://example.org/notes.txt") Scenario.fetchWorld
     = (Eff.Return res, w') /\
     WebSearchService.textContent res = js "some notes") /\
  (exists res w',
     WebSearchService.fetchUrl (Scenario.always htmlPage)
       Scenario.anyUrl Scenario.resolveToItself sampleDocument noSerializer
       sampleUrl Scenario.fetchWorld
     = (Eff.Return res, w') /\
     WebSearchService.textContent res = js "Hello world is long enough") /\
  (exists res w',
     WebSearchService.fetchUrl (Scenario.always pdfDocument)
       Scenario.anyUrl Scenario.resolveToItself sampleDocument noSerializer
       (js "https://example.org/paper.pdf") Scenario.fetchWorld
     = (Eff.Return res, w') /\
     WebSearchService.title res = js "Non-text content" /\
     WebSearchService.content res = []) /\
  (exists res w',
     WebSearchService.fetchUrl redirectingSite
       Scenario.anyUrl Scenario.resolveToItself sampleDocument noSerializer
       (js "https://example.org/old") Scenario.fetchWorld
     = (Eff.Return res, w') /\
     WebSearchService.textContent res = js "some notes" /\
     length (Eff.fetches (Eff.events w')) = 2%nat).
Proof.
  split; [| split; [| split]].
  - destruct (fetchUrl_dispatch (Scenario.always Scenario.plainPage)
                Scenario.anyUrl Scenario.resolveToItself sampleDocument
                noSerializer (js "https://example.org/notes.txt")
                Scenario.fetchWorld) as [Htotal _].
    destruct (Htotal Scenario.plainPage)
      as (res & w' & Hrun & _ & _ & Hplain & _).
    + vm_compute. reflexivity.
    + discriminate.
    + reflexivity.
    + simpl. lia.
    + reflexivity.
    + exists res, w'. split; [exact Hrun |].
      destruct Hplain as [-> _]; [vm_compute; reflexivity |].
      vm_compute. reflexivity.
  - destruct (fetchUrl_dispatch (Scenario.always htmlPage)
                Scenario.anyUrl Scenario.resolveToItself sampleDocument
                noSerializer sampleUrl Scenario.fetchWorld) as [Htotal _].
    destruct (Htotal htmlPage) as (res & w' & Hrun & _ & _ & _ & Hhtml).
    + vm_compute. reflexivity.
    + discriminate.
    + reflexivity.
    + simpl. lia.
    + reflexivity.
    + exists res, w'. split; [exact Hrun |].
      rewrite Hhtml; vm_compute; reflexivity.
  - destruct (fetchUrl_dispatch (Scenario.always pdfDocument)
                Scenario.anyUrl Scenario.resolveToItself sampleDocument
                noSerializer (js "https://example.org/paper.pdf")
                Scenario.fetchWorld) as [Htotal _].
    destruct (Htotal pdfDocument) as (res & w' & Hrun & _ & Hother & _).
    + vm_compute. reflexivity.
    + discriminate.
    + reflexivity.
    + simpl. lia.
    + reflexivity.
    + exists res, w'. split; [exact Hrun |].
      rewrite Hother; [| vm_compute; reflexivity | vm_compute; reflexivity].
      split; reflexivity.
  - destruct (fetchUrl_dispatch redirectingSite
                Scenario.anyUrl Scenario.resolveToItself sampleDocument
                noSerializer (js "https://example.org/old")
                Scenario.fetchWorld) as (_ & Hgeneral & _).
    destruct (Hgeneral Scenario.multipleChoices
                (snd (HttpUtils.fetchWithTimeout redirectingSite
                        (js "https://example.org/old") 15000
                        (snd (Eff.acquire "fetch" Scenario.fetchWorld))))
                Scenario.plainPage
                (snd (WebSearchService.fetchUrl redirectingSite
                        Scenario.anyUrl Scenario.resolveToItself
                        sampleDocument noSerializer
                        (js "https://example.org/old") Scenario.fetchWorld)))
      as (res & Hrun & _ & Hplain & _).
    + vm_compute. reflexivity.
    + discriminate.
    + vm_compute. reflexivity.
    + vm_compute. reflexivity.
    + reflexivity.
    + eexists res, _. split; [exact Hrun |].
      destruct Hplain as [-> _]; [vm_compute; reflexivity |].
      split; vm_compute; reflexivity.
Defined.

(** C8, the clause on HTML as the claim words it fails.  The header
    [Text/HTML; charset=utf-8] names the type [text/html], in capital
    letters; the page is not given to the extractor, and the result is the
    explanation that the type is not supported.  Under the header in small
    letters the same page gives the extracted text. *)
Lemma capital_content_type_is_unsupported :
  Eff.headers_get capitalHtmlPage (js "content-type")
  = Some (js "Text/HTML; charset=utf-8") /\
  fst (WebSearchService.fetchUrl (Scenario.always capitalHtmlPage)
         Scenario.anyUrl Scenario.resolveToItself sampleDocument noSerializer
         sampleUrl Scenario.fetchWorld)
  = Eff.Return
      {| WebSearchService.url := js "https://example.org/page";
         WebSearchService.title := js "Non-text content";
         WebSearchService.content := [];
         WebSearchService.textContent :=
           js "Content type Text/HTML; charset=utf-8 is not supported. Only HTML and plain text are supported." |} /\
  HtmlParser.textContent
    (HtmlParser.parseHtmlToContent sampleDocument noSerializer sampleHtml
       (js "https://example.org/page"))
  = js "Hello world is long enough" /\
  option_map WebSearchService.textContent
    (match fst (WebSearchService.fetchUrl (Scenario.always htmlPage)
                  Scenario.anyUrl Scenario.resolveToItself sampleDocument
                  noSerializer sampleUrl Scenario.fetchWorld) with
     | Eff.Return res => Some res
     | Eff.Throw _ => None
     end)
  = Some (js "Hello world is long enough").
Proof. repeat split; vm_compute; reflexivity. Qed.

(** ** Reconfiguration from response headers *)

Section ConfigFacts.
Import Eff.

Lemma keeps_ret {A} (a : A) : keepsConfig (ret a).
Proof. now intros w. Qed.

Lemma keeps_throw {A} (e : exn) : keepsConfig (@throw A e).
Proof. now intros w. Qed.

Lemma keeps_bind {A B} (m : M A) (k : A -> M B) :
  keepsConfig m -> (forall a, keepsConfig (k a)) -> keepsConfig (bind m k).
Proof.
  intros Hm Hk w. unfold bind. specialize (Hm w).
  destruct (m w) as [[a | e] w1]; [| exact Hm].
  destruct (Hk a w1) as [H1 H2]. simpl in Hm.
  destruct Hm as [<- <-]. now split.
Qed.

Lemma keeps_catch {A} (m : M A) (h : exn -> M A) :
  keepsConfig m -> (forall e, keepsConfig (h e)) -> keepsConfig (catch m h).
Proof.
  intros Hm Hh w. unfold catch. specialize (Hm w).
  destruct (m w) as [[a | e] w1]; [exact Hm |].
  destruct (Hh e w1) as [H1 H2]. simpl in Hm.
  destruct Hm as [<- <-]. now split.
Qed.

Lemma getRemainingTokens_config (s : RateLimiter.t) (op : string) (now : Z) :
  RateLimiter.maxTokens (snd (RateLimiter.getRemainingTokens s op now))
    = RateLimiter.maxTokens s /\
  RateLimiter.refillRate (snd (RateLimiter.getRemainingTokens s op now))
    = RateLimiter.refillRate s.
Proof.
  unfold RateLimiter.getRemainingTokens.
  destruct (negb _ || negb _); [done |]. simpl.
  now destruct (0 <? _).
Qed.

Lemma keeps_getRemainingTokens (op : string) :
  keepsConfig (getRemainingTokens op).
Proof.
  intros w. unfold getRemainingTokens.
  pose proof (getRemainingTokens_config (limiter w) op (clock w)) as H.
  now destruct (RateLimiter.getRemainingTokens (limiter w) op (clock w)).
Qed.

Lemma keeps_acquire (op : string) : keepsConfig (acquire op).
Proof.
  intros w. unfold acquire, RateLimiter.acquire_begin.
  destruct (negb _ || negb _); [done |].
  destruct (acquire_refill_config (limiter w) op
              (orQ (RateLimiter.maxTokens (limiter w) !! op) 0)
              (orQ (RateLimiter.refillRate (limiter w) !! op) 0) (clock w))
    as [H1 H2].
  now destruct (Qltb _ 1).
Qed.

Lemma keeps_fetchAbortable (net : Z -> jsstring -> reply) (u : jsstring)
    (timeoutMs : Z) :
  keepsConfig (fetchAbortable net u timeoutMs).
Proof.
  intros w. unfold fetchAbortable.
  destruct (timeoutMs <? _); [done |]. now destruct (outcome _).
Qed.

(** [SearXNGService.search] never reconfigures a class. *)
Lemma search_keeps_configuration (net : Z -> jsstring -> reply)
    (URL_withParams
       : jsstring -> list (jsstring * jsstring) -> option jsstring)
    (params : SearXNGService.SearXNGSearchParams) :
  keepsConfig (SearXNGService.search net URL_withParams params).
Proof.
  unfold SearXNGService.search.
  destruct (negb _ || negb _); [apply keeps_throw |].
  destruct (negb _ || negb _); [apply keeps_throw |].
  apply keeps_bind; [apply keeps_getRemainingTokens |]. intros remaining.
  destruct (remaining <? 1); [apply keeps_throw |].
  apply keeps_bind; [apply keeps_acquire |]. intros _.
  destruct (SearXNGService.buildSearchUrl _ _ _) as [searchUrl |];
    [| apply keeps_throw].
  apply keeps_catch.
  - unfold SearXNGService.request.
    apply keeps_bind; [apply keeps_fetchAbortable |]. intros response.
    destruct (negb (ok response)).
    + destruct (status response =? 403); [apply keeps_throw |].
      destruct (status response =? 429); apply keeps_throw.
    + destruct (negb _); [apply keeps_throw |].
      destruct (json response); [apply keeps_ret | apply keeps_throw].
  - intros e. destruct (isAbortError e); apply keeps_throw.
Qed.

End ConfigFacts.

(** C2, as the code has it.  The service that queries the Brave API
    reconfigures the class [search] from the header of a response that
    came in time exactly when the per-second limit it reports is a positive
    integer: the capacity, the token count and the rate per second become
    that limit (a full reset, by [configure] with a window of 1000 ms at
    the time of the answer); a response without the header, or whose first
    field is no positive integer, leaves the limiter as it was.  The
    SearXNG service reads no such header: a search leaves the capacity and
    the rate of every class as they were. *)
Theorem search_reconfiguration
    (net : Z -> jsstring -> Eff.reply)
    (URL_withParams
       : jsstring -> list (jsstring * jsstring) -> option jsstring) :
  (forall (query braveApiKey searchUrl : jsstring) (maxResults : Z)
          (w : Eff.world) (lat : Z) (response : Eff.Response),
     URL_withParams BraveWebSearchService.braveEndpoint
       [ (js "q", query); (js "count", stringOfZ maxResults);
         (js "safesearch", js "moderate") ] = Some searchUrl ->
     net (Eff.clock w) searchUrl
       = {| Eff.latency := lat; Eff.outcome := inr response |} ->
     lat <= 15000 ->
     let w' := snd (BraveWebSearchService.searchBrave net URL_withParams
                      query braveApiKey maxResults w) in
     (forall n,
        Scenario.perSecondLimit response = Some n -> 0 < n ->
        Eff.limiter w'
        = RateLimiter.configure (Eff.limiter w) "search" (inject_Z n) 1000
            (Eff.clock w + Z.max 0 lat) /\
        RateLimiter.maxTokens (Eff.limiter w') !! "search"
          = Some (inject_Z n) /\
        RateLimiter.tokens (Eff.limiter w') !! "search"
          = Some (inject_Z n) /\
        (exists rate,
           RateLimiter.refillRate (Eff.limiter w') !! "search" = Some rate /\
           (rate == inject_Z n)%Q)) /\
     ((Scenario.perSecondLimit response = None \/
       exists n, Scenario.perSecondLimit response = Some n /\ n <= 0) ->
      Eff.limiter w' = Eff.limiter w)) /\
  (forall params, keepsConfig (SearXNGService.search net URL_withParams params)).
Proof.
  split.
  - intros. now apply (searchBrave_limiter net URL_withParams query
                         braveApiKey searchUrl maxResults w lat response).
  - apply search_keeps_configuration.
Qed.

(** A response of the Brave API that reports [7, 15000] sets the class
    [search] to seven requests per second. *)
Lemma search_reconfiguration_witness :
  RateLimiter.maxTokens
    (Eff.limiter
       (snd (BraveWebSearchService.searchBrave
               (Scenario.always (Scenario.braveReply "7, 15000"))
               Scenario.pathOnly (js "rocq") (js "key") 10
               Scenario.braveWorld)))
    !! "search" = Some (inject_Z 7).
Proof.
  destruct (search_reconfiguration
              (Scenario.always (Scenario.braveReply "7, 15000"))
              Scenario.pathOnly) as [Hbrave _].
  apply (Hbrave (js "rocq") (js "key") BraveWebSearchService.braveEndpoint
           10 Scenario.braveWorld 120 (Scenario.braveReply "7, 15000")).
  - reflexivity.
  - reflexivity.
  - lia.
  - reflexivity.
  - lia.
Defined.

(** C2, as the claim words it, fails.  A response of the Brave API that
    reports a limit of zero is a pair of limits, and the limiter keeps the
    configuration it had (one request per second) instead of taking the
    reported one.  A response to a SearXNG search that reports five
    requests per second changes nothing either: the class [search] stays
    unconfigured and the class [searxng] keeps its capacity of 30. *)
Lemma reported_limit_is_not_applied :
  (Scenario.perSecondLimit (Scenario.braveReply "0, 15000") = Some 0 /\
   Eff.limiter
     (snd (BraveWebSearchService.searchBrave
             (Scenario.always (Scenario.braveReply "0, 15000"))
             Scenario.pathOnly (js "rocq") (js "key") 10
             Scenario.braveWorld))
   = Eff.limiter Scenario.braveWorld /\
   Eff.limiter
     (snd (BraveWebSearchService.searchBrave
             (Scenario.always (Scenario.braveReply "0, 15000"))
             Scenario.pathOnly (js "rocq") (js "key") 10
             Scenario.braveWorld))
   <> RateLimiter.configure (Eff.limiter Scenario.braveWorld) "search"
        (inject_Z 0) 1000 5120) /\
  (Scenario.perSecondLimit searxngReply = Some 5 /\
   let w' := snd (SearXNGService.search (Scenario.always searxngReply)
                    Scenario.pathOnly Scenario.someSearch searxngWorld) in
   fst (SearXNGService.search (Scenario.always searxngReply)
          Scenario.pathOnly Scenario.someSearch searxngWorld)
     = Eff.Return [] /\
   RateLimiter.maxTokens (Eff.limiter w') !! "search" = None /\
   RateLimiter.maxTokens (Eff.limiter w') !! "searxng" = Some 30%Q /\
   RateLimiter.tokens (Eff.limiter w') !! "searxng" = Some 29%Q).
Proof.
  split.
  - split; [reflexivity |]. split.
    + vm_compute. reflexivity.
    + intros H.
      apply (f_equal (fun s => RateLimiter.maxTokens s !! "search")) in H.
      vm_compute in H. discriminate.
  - split; [reflexivity |]. repeat split; vm_compute; reflexivity.
Qed.

(** * Further properties *)

(** ** The limiter *)

Section LimiterMore.
Import RateLimiter Calls.



(** The burst of four fetches leaves a bucket within its bounds, and the
    next [acquire] finds a token. *)
Lemma acquire_consumes_one_witness :
  exists s' r,
    acquire_begin (run create (fetchBurst 4)) "fetch" 1000 = Consumed s' /\
    refillRate (run create (fetchBurst 4)) !! "fetch" = Some r /\
    (0 <= tokensOf s' "fetch")%Q.
Proof.
  destruct (acquire_begin (run create (fetchBurst 4)) "fetch" 1000)
    as [| s' |] eqn:Hbegin; try (vm_compute in Hbegin; discriminate).
  destruct (acquire_consumes_one (run create (fetchBurst 4)) s' "fetch"
              1000 20) as (r & Hr & _ & Hpos & _).
  - intros op'. apply run_ok; [| apply create_ok].
    repeat constructor; simpl; lra.
  - reflexivity.
  - exact Hbegin.
  - exists s', r. repeat split; assumption.
Defined.

(** X4.  [acquire] throws exactly when the class has no capacity or no rate
    on record, a capacity or a rate of zero counting as none; it then
    throws the configuration error that names the class, and the limiter,
    the clock and the event log are as before. *)
Theorem acquire_unconfigured (op : string) (w : Eff.world) :
  (truthyQ (maxTokens (Eff.limiter w) !! op)
   && truthyQ (refillRate (Eff.limiter w) !! op) = false <->
   exists e, fst (Eff.acquire op w) = Eff.Throw e) /\
  (forall e,
     fst (Eff.acquire op w) = Eff.Throw e ->
     Eff.acquire op w = (Eff.Throw e, w) /\
     Eff.cls e = Eff.PlainError /\
     Eff.message e
     = js "Rate limiter not configured for operation: " ++ js op) /\
  (forall s maxRequests windowMs now,
     (maxRequests == 0)%Q ->
     acquire_begin (configure s op maxRequests windowMs now) op now
     = NotConfigured).
Proof.
  unfold Eff.acquire, acquire_begin.
  destruct (truthyQ (maxTokens (Eff.limiter w) !! op)) eqn:Hm,
           (truthyQ (refillRate (Eff.limiter w) !! op)) eqn:Hr;
    cbn [negb orb andb].
  1: { split; [| split].
       - split; [discriminate |]. intros [e He].
         now destruct (Qltb _ 1).
       - intros e He. now destruct (Qltb _ 1).
       - intros s m' w' now Hz. simpl. rewrite lookup_insert_eq. simpl.
         apply Qeq_bool_iff in Hz. now rewrite Hz. }
  all: split; [| split];
    [ split; [intros _; eauto | done]
    | intros e [= <-]; now repeat split
    | intros s m' w' now Hz; simpl; rewrite lookup_insert_eq; simpl;
      apply Qeq_bool_iff in Hz; now rewrite Hz ].
Qed.

(** X5.  A call on one class leaves every other class as it is: its
    record in the four maps is unchanged, and so is what
    [getRemainingTokens] returns for it. *)
Theorem classes_are_independent
    (s : t) (c : call) (op' : string) (now : Z) :
  callOp c <> op' ->
  tokens (step s c) !! op' = tokens s !! op' /\
  maxTokens (step s c) !! op' = maxTokens s !! op' /\
  refillRate (step s c) !! op' = refillRate s !! op' /\
  lastRefill (step s c) !! op' = lastRefill s !! op' /\
  fst (getRemainingTokens (step s c) op' now)
  = fst (getRemainingTokens s op' now).
Proof.
  intros Hne.
  assert (H4 : tokens (step s c) !! op' = tokens s !! op' /\
               maxTokens (step s c) !! op' = maxTokens s !! op' /\
               refillRate (step s c) !! op' = refillRate s !! op' /\
               lastRefill (step s c) !! op' = lastRefill s !! op').
  { destruct c as [op m w t0 | op t0 t1 | op t0]; simpl in Hne |- *.
    - now rewrite !lookup_insert_ne.
    - unfold acquire, acquire_begin.
      destruct (negb _ || negb _); [done |]. unfold acquire_refill.
      destruct (0 <? _); destruct (Qltb _ 1); simpl;
        now rewrite ?lookup_insert_ne.
    - unfold getRemainingTokens.
      destruct (negb _ || negb _); [done |]. simpl.
      destruct (0 <? _); simpl; now rewrite ?lookup_insert_ne. }
  destruct H4 as (Ht & Hm & Hr & Hl). repeat split; try done.
  unfold getRemainingTokens. rewrite Hm, Hr, Hl.
  destruct (negb _ || negb _); [done |]. simpl.
  destruct (0 <? _); simpl; now rewrite ?lookup_insert_eq, ?Ht.
Qed.

Lemma classes_are_independent_witness :
  fst (getRemainingTokens
         (step (BraveWebSearchService.create None 1000)
            (Acquire "fetch" 1000 1000))
         "search" 1000)
  = fst (getRemainingTokens (BraveWebSearchService.create None 1000)
           "search" 1000).
Proof.
  apply (classes_are_independent (BraveWebSearchService.create None 1000)
           (Acquire "fetch" 1000 1000) "search" 1000).
  discriminate.
Defined.

(** X6.  [configure] is a full reset: whatever the limiter held, be it an
    empty or an overdrawn bucket, a class configured with a positive
    capacity and window reports the floor of that capacity at any reading
    of the clock before a token is taken. *)
Theorem configure_resets (s : t) (op : string) (maxRequests windowMs : Q)
    (t0 now : Z) :
  (0 < maxRequests)%Q -> (0 < windowMs)%Q ->
  fst (getRemainingTokens (configure s op maxRequests windowMs t0) op now)
  = Qfloor maxRequests /\
  (tokensOf
     (snd (getRemainingTokens (configure s op maxRequests windowMs t0) op now))
     op == maxRequests)%Q.
Proof.
  intros Hm Hw.
  assert (Hok : bucket_ok (configure s op maxRequests windowMs t0) op).
  { unfold bucket_ok, tokensOf. simpl. rewrite !lookup_insert_eq.
    repeat split; try done.
    - apply Qlt_shift_div_l; [| lra].
      apply Qlt_shift_div_l; [reflexivity | lra].
    - rewrite (orQ_0 (Some maxRequests)). simpl. lra. }
  destruct (getRemainingTokens_value _ op now maxRequests Hok)
    as (r & Hr & Hr0 & _ & Hle & ->).
  { simpl. apply lookup_insert_eq. }
  cbn [fst snd].
  destruct (acquire_refill_tokens _ op maxRequests r now Hr0 Hle)
    as [Hlow Hhigh].
  assert (Hfull : (tokensOf (configure s op maxRequests windowMs t0) op
                   == maxRequests)%Q).
  { unfold tokensOf. simpl. apply tokensOf_insert. }
  assert (Heq : (tokensOf
                   (acquire_refill (configure s op maxRequests windowMs t0)
                      op maxRequests r now) op == maxRequests)%Q) by lra.
  split; [| exact Heq].
  unfold floor0. rewrite Heq.
  assert (0 <= Qfloor maxRequests); [| lia].
  change 0 with (Qfloor 0). apply Qfloor_resp_le. lra.
Qed.

Lemma configure_resets_witness :
  fst (getRemainingTokens
         (configure (run create (fetchBurst 21)) "fetch" 20 60000 9000)
         "fetch" 9500)
  = 20.
Proof.
  apply (configure_resets (run create (fetchBurst 21)) "fetch" 20 60000
           9000 9500); reflexivity.
Defined.

End LimiterMore.

(** ** The cleaned text *)

Section CleanTextFacts.
Import HtmlParser.

Lemma trimStart_In (s : jsstring) (c : N) : In c (trimStart s) -> In c s.
Proof.
  induction s as [| d s IH]; [done |]. simpl.
  destruct (isWhitespace d); [auto | done].
Qed.

Lemma trimStart_head (s : jsstring) :
  match trimStart s with
  | [] => True
  | c :: _ => isWhitespace c = false
  end.
Proof.
  induction s as [| d s IH]; [done |]. simpl.
  destruct (isWhitespace d) eqn:E; [exact IH | exact E].
Qed.

Lemma trimStart_fixed (s : jsstring) :
  match s with [] => True | c :: _ => isWhitespace c = false end ->
  trimStart s = s.
Proof. destruct s as [| c s]; [done |]. simpl. now intros ->. Qed.

(** [trimStart] drops a prefix. *)
Lemma trimStart_suffix (s : jsstring) : exists p, s = p ++ trimStart s.
Proof.
  induction s as [| d s [p IH]]; [now exists [] |]. simpl.
  destruct (isWhitespace d).
  - exists (d :: p). simpl. now rewrite <- IH.
  - now exists [].
Qed.

Lemma head_nonspace_app (a b : jsstring) :
  a <> [] ->
  match a ++ b with [] => True | c :: _ => isWhitespace c = false end ->
  match a with [] => True | c :: _ => isWhitespace c = false end.
Proof. now destruct a. Qed.

(** A trimmed string is empty or has no white space at either end. *)
Lemma trim_fixed (s : jsstring) :
  match s with [] => True | c :: _ => isWhitespace c = false end ->
  match reverse s with [] => True | c :: _ => isWhitespace c = false end ->
  trim s = s.
Proof.
  intros Hhead Hlast. unfold trim, trimEnd.
  rewrite (trimStart_fixed s Hhead), (trimStart_fixed _ Hlast).
  apply reverse_involutive.
Qed.

Lemma trim_ends (s : jsstring) :
  match trim s with [] => True | c :: _ => isWhitespace c = false end /\
  match reverse (trim s) with
  | [] => True
  | c :: _ => isWhitespace c = false
  end.
Proof.
  unfold trim, trimEnd. set (x := trimStart s).
  pose proof (trimStart_head s) as Hx. fold x in Hx.
  pose proof (trimStart_head (reverse x)) as Hy.
  destruct (trimStart_suffix (reverse x)) as [p Hp].
  set (y := trimStart (reverse x)) in *.
  split; [| now rewrite reverse_involutive].
  destruct (decide (y = [])) as [-> | Hne]; [done |].
  apply (f_equal reverse) in Hp.
  rewrite reverse_involutive, reverse_app in Hp.
  rewrite Hp in Hx.
  apply (head_nonspace_app (reverse y) (reverse p)); [| exact Hx].
  intros H. apply (f_equal reverse) in H.
  now rewrite reverse_involutive in H.
Qed.

Lemma trim_idempotent (s : jsstring) : trim (trim s) = trim s.
Proof. destruct (trim_ends s). now apply trim_fixed. Qed.

Lemma trim_In (s : jsstring) (c : N) : In c (trim s) -> In c s.
Proof.
  unfold trim, trimEnd. intros H.
  apply trimStart_In.
  rewrite <- list_elem_of_In, elem_of_reverse, list_elem_of_In in H.
  apply trimStart_In in H.
  now rewrite <- list_elem_of_In, elem_of_reverse, list_elem_of_In in H.
Qed.

(** No piece of a split holds the separator. *)
Lemma split_no_sep (sep : N) (s : jsstring) :
  Forall (fun piece => ~ In sep piece) (split sep s).
Proof.
  induction s as [| c s IH]; [repeat constructor; auto |].
  simpl. destruct (c =? sep)%N eqn:E.
  - constructor; [auto | exact IH].
  - destruct (split sep s) as [| piece rest]; [repeat constructor |].
    + intros [H | []]. subst. now rewrite N.eqb_refl in E.
    + inversion IH; subst. constructor; [| done].
      intros [H | H]; [| done]. subst. now rewrite N.eqb_refl in E.
Qed.

Lemma split_one (sep : N) (l : jsstring) :
  ~ In sep l -> split sep l = [l].
Proof.
  induction l as [| c l IH]; [done |]. intros H. simpl.
  destruct (c =? sep)%N eqn:E.
  - apply N.eqb_eq in E. subst. exfalso. apply H. now left.
  - rewrite IH; [done |]. intros Hin. apply H. now right.
Qed.

Lemma split_app (sep : N) (l rest : jsstring) :
  ~ In sep l -> split sep (l ++ sep :: rest) = l :: split sep rest.
Proof.
  induction l as [| c l IH]; intros H; simpl.
  - now rewrite N.eqb_refl.
  - destruct (c =? sep)%N eqn:E.
    + apply N.eqb_eq in E. subst. exfalso. apply H. now left.
    + rewrite IH; [done |]. intros Hin. apply H. now right.
Qed.

(** Splitting what was joined gives the pieces back. *)
Lemma split_join (sep : N) (ls : list jsstring) :
  ls <> [] -> Forall (fun l => ~ In sep l) ls ->
  split sep (join [sep] ls) = ls.
Proof.
  intros Hne Hall. induction Hall as [| l ls Hl Hall IH]; [done |].
  destruct ls as [| l' ls].
  - simpl. now apply split_one.
  - change (join [sep] (l :: l' :: ls))
      with (l ++ sep :: join [sep] (l' :: ls)).
    rewrite split_app by done. now rewrite IH.
Qed.

Lemma collapse_plain (l rest : jsstring) :
  ~ In LF l -> collapse_from 0 (l ++ rest) = l ++ collapse_from 0 rest.
Proof.
  induction l as [| c l IH]; [done |]. intros H. simpl.
  destruct (c =? LF)%N eqn:E.
  - apply N.eqb_eq in E. subst. exfalso. apply H. now left.
  - rewrite IH; [done |]. intros Hin. apply H. now right.
Qed.

Lemma collapse_after_run (run : nat) (l rest : jsstring) :
  (run <= 2)%nat -> l <> [] -> ~ In LF l ->
  collapse_from run (l ++ rest) = repeat LF run ++ l ++ collapse_from 0 rest.
Proof.
  intros Hrun Hne H. destruct l as [| c l]; [done |]. simpl.
  destruct (c =? LF)%N eqn:E.
  - apply N.eqb_eq in E. subst. exfalso. apply H. now left.
  - rewrite Nat.min_l by done. f_equal. f_equal.
    apply collapse_plain. intros Hin. apply H. now right.
Qed.

(** Lines that are not empty and hold no line feed, joined by single line
    feeds, have no run of three line feeds to collapse. *)
Lemma collapse_join (ls : list jsstring) (run : nat) :
  (run <= 1)%nat -> ls <> [] ->
  Forall (fun l => l <> [] /\ ~ In LF l) ls ->
  collapse_from run (join [LF] ls) = repeat LF run ++ join [LF] ls.
Proof.
  intros Hrun Hne Hall. revert run Hrun.
  induction Hall as [| l ls [Hl Hno] Hall IH]; [done |]. intros run Hrun.
  destruct ls as [| l' ls].
  - simpl. rewrite <- (app_nil_r l) at 1.
    rewrite collapse_after_run by (done || lia). simpl.
    now rewrite app_nil_r.
  - change (join [LF] (l :: l' :: ls))
      with (l ++ LF :: join [LF] (l' :: ls)).
    rewrite collapse_after_run by (done || lia).
    f_equal. f_equal.
    change (collapse_from 0 (LF :: join [LF] (l' :: ls)))
      with (collapse_from 1 (join [LF] (l' :: ls))).
    now rewrite IH.
Qed.

Lemma cleanText_keptLines (raw : jsstring) :
  cleanText raw = trim (collapseNewlines (join [LF] (keptLines raw))).
Proof. reflexivity. Qed.

Lemma keptLines_clean (raw : jsstring) : Forall cleanLine (keptLines raw).
Proof.
  apply Forall_forall. intros l Hl. unfold keptLines in Hl.
  apply list_elem_of_In, filter_In in Hl as [Hl Hstop].
  apply filter_In in Hl as [Hl Hlen].
  apply in_map_iff in Hl as (x & <- & Hx).
  apply andb_true_iff in Hlen as [_ Hlen]. apply Z.ltb_lt in Hlen.
  apply negb_true_iff in Hstop.
  repeat split; try done.
  - apply trim_idempotent.
  - intros Hin. apply trim_In in Hin.
    pose proof (split_no_sep LF raw) as Hno.
    rewrite Forall_forall in Hno.
    now apply (Hno x); [apply list_elem_of_In |].
Qed.

Lemma cleanLine_nonempty (l : jsstring) : cleanLine l -> l <> [].
Proof. intros (_ & Hlen & _) ->. unfold len in Hlen. simpl in Hlen. lia. Qed.

Lemma cleanLine_ends (l : jsstring) :
  cleanLine l ->
  (exists c rest, l = c :: rest /\ isWhitespace c = false) /\
  (exists c rest, reverse l = c :: rest /\ isWhitespace c = false).
Proof.
  intros Hl. pose proof (cleanLine_nonempty l Hl) as Hne.
  destruct Hl as (Htrim & _). destruct (trim_ends l) as [H1 H2].
  rewrite Htrim in H1, H2. split.
  - destruct l as [| c rest]; [done | eauto].
  - destruct (reverse l) as [| c rest] eqn:E; [| eauto].
    apply (f_equal reverse) in E. now rewrite reverse_involutive in E.
Qed.

Lemma join_clean_ends (ls : list jsstring) :
  ls <> [] -> Forall cleanLine ls ->
  (exists c rest, join [LF] ls = c :: rest /\ isWhitespace c = false) /\
  (exists c rest,
     reverse (join [LF] ls) = c :: rest /\ isWhitespace c = false).
Proof.
  intros Hne Hall. induction Hall as [| l ls Hl Hall IH]; [done |].
  destruct (cleanLine_ends l Hl) as [(c & rest & -> & Hc) Hlast].
  destruct ls as [| l' ls].
  - split; [simpl; eauto | exact Hlast].
  - change (join [LF] ((c :: rest) :: l' :: ls))
      with ((c :: rest) ++ LF :: join [LF] (l' :: ls)).
    split; [simpl; eauto |].
    destruct IH as [_ (d & rest' & Hd & Hdw)]; [done |].
    rewrite reverse_app, reverse_cons, Hd. simpl. eauto.
Qed.

(** Clean lines joined by line feeds are left as they are by the collapse
    and the last [trim]. *)
Lemma tidy_join (ls : list jsstring) :
  ls <> [] -> Forall cleanLine ls ->
  trim (collapseNewlines (join [LF] ls)) = join [LF] ls.
Proof.
  intros Hne Hall. unfold collapseNewlines.
  assert (Hplain : Forall (fun l => l <> [] /\ ~ In LF l) ls).
  { eapply Forall_impl; [exact Hall |].
    intros l Hl. split; [now apply cleanLine_nonempty | apply Hl]. }
  rewrite (collapse_join ls 0) by (lia || done).
  simpl.
  destruct (join_clean_ends ls Hne Hall)
    as [(c & rest & Hc & Hcw) (d & rest' & Hd & Hdw)].
  apply trim_fixed; [now rewrite Hc | now rewrite Hd].
Qed.

Lemma keptLines_join (ls : list jsstring) :
  ls <> [] -> Forall cleanLine ls -> keptLines (join [LF] ls) = ls.
Proof.
  intros Hne Hall. unfold keptLines.
  assert (Hplain : Forall (fun l => ~ In LF l) ls).
  { eapply Forall_impl; [exact Hall |]. intros l Hl. apply Hl. }
  rewrite split_join by done.
  clear Hne Hplain. induction Hall as [| l ls Hl Hall IH]; [done |].
  destruct Hl as (Htrim & Hlen & Hstop & _).
  cbn [map List.filter]. rewrite Htrim.
  assert ((0 <? len l) && (2 <? len l) = true) as ->.
  { apply andb_true_iff. split; apply Z.ltb_lt; lia. }
  cbn [List.filter]. rewrite Hstop. cbn [negb]. now rewrite IH.
Qed.

(** X8.  The cleaned text is a sequence of lines joined by single line
    feeds, each of them trimmed, longer than two characters and not one of
    the navigation words: it has no blank line and no white space at the
    start or the end of a line. *)
Theorem cleanText_lines (raw : jsstring) :
  cleanText raw = join [LF] (keptLines raw) /\
  Forall cleanLine (keptLines raw) /\
  keptLines (cleanText raw) = keptLines raw.
Proof.
  pose proof (keptLines_clean raw) as Hall.
  rewrite cleanText_keptLines.
  destruct (keptLines raw) as [| l ls] eqn:E; [done |].
  rewrite tidy_join by done.
  repeat split; try done. now apply keptLines_join.
Qed.

(** X9.  Cleaning is idempotent: text that went through the cleaning once
    comes out of a second pass unchanged. *)
Theorem cleanText_idempotent (raw : jsstring) :
  cleanText (cleanText raw) = cleanText raw.
Proof.
  pose proof (keptLines_clean raw) as Hall.
  rewrite (cleanText_keptLines raw).
  destruct (keptLines raw) as [| l ls] eqn:E; [done |].
  rewrite tidy_join by done.
  rewrite cleanText_keptLines, keptLines_join by done.
  now apply tidy_join.
Qed.

End CleanTextFacts.

(** ** Title and removed elements *)

Section ParserMore.
Import Dom HtmlParser.

Variable load : jsstring -> list node.
Variable innerHtml : list node -> option jsstring.

Lemma orStr_nonempty (a : option jsstring) (b : jsstring) :
  b <> [] -> orStr a b <> [].
Proof. now destruct a as [[| c s] |]. Qed.

Lemma substring_prefix_nonempty (s : jsstring) (n : Z) :
  0 < n -> s <> [] -> substring s 0 n <> [].
Proof.
  intros Hn Hs. rewrite substring_prefix by lia.
  destruct s as [| c s]; [done |].
  destruct (Z.to_nat n) eqn:E; [lia | done].
Qed.

(** X10.  The title of a parsed page has at most 500 characters, and it is
    not empty as long as the URL of the page is not: the URL is the last
    resort of the title. *)
Theorem title_bounded (html finalUrl : jsstring) :
  len (title (parseHtmlToContent load innerHtml html finalUrl)) <= 500 /\
  (finalUrl <> [] ->
   title (parseHtmlToContent load innerHtml html finalUrl) <> []).
Proof.
  unfold parseHtmlToContent. cbn [title]. split.
  - rewrite substring_prefix by (unfold MAX_TITLE_LEN; lia).
    unfold len, MAX_TITLE_LEN. rewrite length_take. lia.
  - intros Hurl. apply substring_prefix_nonempty; [done |].
    unfold titleOf. now repeat apply orStr_nonempty.
Qed.

End ParserMore.

Lemma title_bounded_witness :
  HtmlParser.title
    (HtmlParser.parseHtmlToContent sampleDocument noSerializer sampleHtml
       sampleUrl)
  <> [].
Proof.
  apply (title_bounded sampleDocument noSerializer sampleHtml sampleUrl).
  discriminate.
Defined.

(** X11.  Nothing the first [remove()] selects is left in the tree the
    title and the text are read from: no [nav], [header], [footer] or
    [aside] element, no element marked as an advertisement, and none that
    a selector included in that list selects. *)
Theorem cleaned_has_no_removed_element
    (load : jsstring -> list Dom.node) (html : jsstring)
    (q : Dom.node -> bool) :
  shallow q ->
  (forall n, q n = true ->
             Dom.anyOf HtmlParser.removedSelectors n = true) ->
  Dom.select q (HtmlParser.cleaned load html) = [].
Proof.
  intros Hq Hin. unfold HtmlParser.cleaned.
  apply select_nil_removeInElements; [exact Hq |].
  now apply select_remove.
Qed.

Lemma cleaned_has_no_removed_element_witness :
  Dom.select (Dom.isTag (js "nav")) (HtmlParser.cleaned sampleDocument [])
  = [].
Proof.
  apply (cleaned_has_no_removed_element sampleDocument []
           (Dom.isTag (js "nav"))).
  - apply shallow_isTag.
  - intros n Hn. unfold Dom.anyOf, HtmlParser.removedSelectors. simpl.
    rewrite Hn. now rewrite !orb_true_r.
Defined.

(** ** Links *)

Section LinkFacts.
Import Dom LinkExtractor.

Variable load : jsstring -> list node.
Variable URL_parse : jsstring -> option URL.
Variable URL_resolve : jsstring -> jsstring -> option jsstring.

(** What [each] maintains: the addresses of the links are distinct, they
    are the addresses seen, and every link is as [linkOk] says. *)
Let inv (base : URL) (same : bool) (anchors : list node)
    (acc : list ExtractedLink * gset jsstring) : Prop :=
  NoDup (map href (fst acc)) /\
  (forall x, x ∈ snd acc <-> In x (map href (fst acc))) /\
  Forall (linkOk URL_parse URL_resolve base same anchors) (fst acc).

Lemma text_bound (el : node) (absolute : jsstring) :
  let text_ := substring (trim (textContent el)) 0 200 in
  orStr (Some text_) absolute = absolute \/
  0 < len (orStr (Some text_) absolute) <= 200.
Proof.
  intros text_.
  assert (Hlen : len text_ <= 200).
  { unfold text_. rewrite substring_prefix by lia.
    unfold len. rewrite length_take. lia. }
  destruct text_ as [| c s] eqn:E; [now left |]. right.
  simpl. split; [unfold len; simpl; lia | exact Hlen].
Qed.

Lemma visit_inv (base : URL) (same : bool) (anchors : list node)
    (acc acc' : list ExtractedLink * gset jsstring) (el : node) :
  In el anchors -> inv base same anchors acc ->
  visit URL_parse URL_resolve base same acc el = Eff.Return acc' ->
  inv base same anchors acc'.
Proof.
  intros Hel Hinv. destruct acc as [links seen]. unfold visit.
  destruct (attr (js "href") (attribsOf el)) as [raw |] eqn:Hraw;
    [| now intros [= <-]].
  cbn [option_map].
  destruct (trim raw) as [| c h] eqn:Htrim; [now intros [= <-] |].
  destruct (existsb (fun p => startsWith p (c :: h)) SKIP_PREFIXES) eqn:Hskip;
    [now intros [= <-] |].
  destruct (URL_resolve (c :: h) (u_href base)) as [absolute |] eqn:Hres;
    [| now intros [= <-]].
  assert (Hkeep :
    forall acc'',
      (same = true ->
       exists u, URL_parse absolute = Some u /\ u_origin u = u_origin base) ->
      (if bool_decide (absolute ∈ seen) then Eff.Return (links, seen)
       else Eff.Return
              (links ++ [ {| href := absolute;
                             text := orStr
                                       (Some (substring
                                                (trim (textContent el)) 0 200))
                                       absolute |} ],
               {[ absolute ]} ∪ seen)) = Eff.Return acc'' ->
      inv base same anchors acc'').
  { intros acc'' Hsame. destruct Hinv as (Hnd & Hseen & Hall).
    simpl in Hnd, Hseen, Hall.
    destruct (bool_decide (absolute ∈ seen)) eqn:Hdec;
      intros [= <-]; [done |].
    apply bool_decide_eq_false in Hdec.
    repeat split; simpl.
    - rewrite map_app. simpl. apply NoDup_app. repeat split; [done | |].
      + intros x Hx [-> | []]%list_elem_of_In.
        apply Hdec, Hseen. now apply list_elem_of_In.
      + apply NoDup_singleton.
    - rewrite map_app, in_app_iff. simpl. intros Hx.
      apply elem_of_union in Hx as [Hx | Hx].
      + apply elem_of_singleton in Hx. subst. right. now left.
      + left. now apply Hseen.
    - rewrite map_app, in_app_iff. simpl. intros [Hx | [<- | []]].
      + apply elem_of_union_r. now apply Hseen.
      + apply elem_of_union_l. now apply elem_of_singleton.
    - apply Forall_app. split; [done |]. constructor; [| done].
      repeat split; simpl.
      + exists el, raw. rewrite Htrim. now repeat split.
      + apply text_bound.
      + exact Hsame. }
  destruct same.
  - destruct (URL_parse absolute) as [u |] eqn:Hu; [| discriminate].
    destruct (eqb (u_origin u) (u_origin base)) eqn:Ho; cbn [negb];
      [| now intros [= <-]].
    apply Hkeep. intros _. exists u. split; [done |].
    unfold eqb in Ho. now apply bool_decide_eq_true in Ho.
  - apply Hkeep. discriminate.
Qed.

Lemma each_inv (base : URL) (same : bool) (anchors els : list node)
    (acc acc' : list ExtractedLink * gset jsstring) :
  (forall el, In el els -> In el anchors) ->
  inv base same anchors acc ->
  each URL_parse URL_resolve base same els acc = Eff.Return acc' ->
  inv base same anchors acc'.
Proof.
  revert acc. induction els as [| el els IH]; intros acc Hsub Hinv.
  - now intros [= <-].
  - cbn [each].
    destruct (visit URL_parse URL_resolve base same acc el) as [acc1 | e]
      eqn:Hvisit; [| discriminate].
    apply IH.
    + intros el' Hel'. apply Hsub. now right.
    + apply (visit_inv base same anchors acc acc1 el); [| done | done].
      apply Hsub. now left.
Qed.

(** X12.  The links extracted from a page have pairwise distinct
    addresses; each address is the resolution against the page's URL of
    the trimmed [href] of an anchor, an [href] that is not empty and begins
    with none of [#], [javascript:], [mailto:], [tel:]; each text is the
    address itself or has between 1 and 200 characters; and with
    [sameDomainOnly] every address has the origin of the page. *)
Theorem extractLinks_distinct_and_bounded
    (html finalUrl : jsstring) (sameDomainOnly : bool)
    (links : list ExtractedLink) :
  extractLinksFromHtml load URL_parse URL_resolve html finalUrl
    sameDomainOnly = Eff.Return links ->
  exists base,
    URL_parse finalUrl = Some base /\
    NoDup (map href links) /\
    Forall (linkOk URL_parse URL_resolve base sameDomainOnly
              (select isAnchor (load html))) links.
Proof.
  unfold extractLinksFromHtml.
  destruct (URL_parse finalUrl) as [base |]; [| discriminate].
  destruct (each URL_parse URL_resolve base sameDomainOnly
              (select isAnchor (load html)) ([], ∅))
    as [[links' seen] | e] eqn:Heach; [| discriminate].
  intros [= <-]. exists base. split; [done |].
  apply each_inv with (anchors := select isAnchor (load html)) in Heach.
  - destruct Heach as (Hnd & _ & Hall). now split.
  - auto.
  - repeat split; simpl; [constructor | set_solver | done | constructor].
Qed.

End LinkFacts.

(** The page with four anchors gives two links: the repeated address and
    the [mailto:] link are left out, and the anchor without text gets its
    address as text. *)
Lemma extractLinks_distinct_and_bounded_witness :
  exists links,
    LinkExtractor.extractLinksFromHtml linkedDocument exampleParse
      Scenario.resolveToItself [] (js "https://example.org/") true
    = Eff.Return links /\
    map LinkExtractor.href links
    = [js "https://example.org/a"; js "https://example.org/b"] /\
    NoDup (map LinkExtractor.href links).
Proof.
  destruct (LinkExtractor.extractLinksFromHtml linkedDocument exampleParse
              Scenario.resolveToItself [] (js "https://example.org/") true)
    as [links | e] eqn:Hrun; [| vm_compute in Hrun; discriminate].
  destruct (extractLinks_distinct_and_bounded linkedDocument exampleParse
              Scenario.resolveToItself [] (js "https://example.org/") true
              links Hrun) as (base & _ & Hnd & _).
  exists links. split; [reflexivity |]. split; [| exact Hnd].
  vm_compute in Hrun. now injection Hrun as <-.
Defined.

(** ** Feeds *)

Section FeedFacts.
Import FeedParser.

Variable parseString : jsstring -> Eff.exn + Feed.

Lemma len_substring_le (s : jsstring) (n : Z) :
  0 <= n -> len (substring s 0 n) <= n.
Proof.
  intros Hn. rewrite substring_prefix by done.
  unfold len. rewrite length_take. lia.
Qed.

Lemma isString_orElse (a : option value) (s s' : jsstring) :
  isString (orElse a (VStr s)) = isString (orElse a (VStr s')).
Proof.
  unfold orElse. destruct a as [v |]; [| reflexivity].
  now destruct (truthyValue v).
Qed.

(** An item whose text fields are strings gives an entry within the
    bounds; any other item ends the call. *)
Lemma toEntry_textual (item : Item) :
  if textualItem item then
    exists e,
      toEntry item = Eff.Return e /\
      len (title e) <= 500 /\ len (summary e) <= 2000
  else toEntry item = Eff.Throw notAFunction.
Proof.
  unfold textualItem, toEntry.
  destruct (orElse (i_title item) (VStr [])) as [t |]; [| reflexivity].
  destruct (orElse (i_link item) (orElse (i_guid item) (VStr [])))
    as [l |]; [| reflexivity].
  destruct (orElse (i_contentSnippet item)
              (orElse (i_content item) (orElse (i_summary item) (VStr []))))
    as [c |]; [| reflexivity].
  cbn. eexists. split; [reflexivity |]. cbn [title summary].
  split; apply len_substring_le; lia.
Qed.

Lemma toEntries_textual (items : list Item) :
  if forallb textualItem items then
    exists es,
      toEntries items = Eff.Return es /\
      Forall2 (fun item e => toEntry item = Eff.Return e) items es /\
      Forall (fun e => len (title e) <= 500 /\ len (summary e) <= 2000) es
  else toEntries items = Eff.Throw notAFunction.
Proof.
  induction items as [| item items IH].
  - cbn. exists []. now repeat split.
  - cbn [forallb toEntries].
    pose proof (toEntry_textual item) as Hitem.
    destruct (textualItem item); cbn [andb].
    + destruct Hitem as (e & He & Hbound). rewrite He. cbn [andThen].
      destruct (forallb textualItem items).
      * destruct IH as (es & -> & Hall & Hbounds). cbn [andThen].
        exists (e :: es). split; [reflexivity |]. split; now constructor.
      * now rewrite IH.
    + now rewrite Hitem.
Qed.

(** X13.  [rss-parser] delivers a string for a field, or an object when
    the element has attributes or child elements.  When every field that
    is trimmed is a string, a feed that parses gives one entry per item, in
    the order of the items; no entry title has more than 500 characters and
    no summary more than 2000; the title of the feed has at most 500
    characters and its description at most 1000.  When one of these fields
    is an object, the call fails with a [TypeError].  A feed that does not
    parse gives the error of the parser. *)
Theorem parseFeedXml_bounds (xml baseUrl : jsstring) :
  (forall feed,
     parseString xml = inr feed ->
     (textualFeed feed = true ->
      exists r,
        parseFeedXml parseString xml baseUrl = Eff.Return r /\
        Forall2 (fun item e => toEntry item = Eff.Return e)
          (default [] (f_items feed)) (entries r) /\
        length (entries r) = length (default [] (f_items feed)) /\
        Forall (fun e => len (title e) <= 500 /\ len (summary e) <= 2000)
          (entries r) /\
        len (feedTitle r) <= 500 /\
        (forall d, description r = Some d -> len d <= 1000)) /\
     (textualFeed feed = false ->
      exists e,
        parseFeedXml parseString xml baseUrl = Eff.Throw e /\
        Eff.cls e = Eff.TypeError)) /\
  (forall e,
     parseString xml = inl e ->
     parseFeedXml parseString xml baseUrl = Eff.Throw e).
Proof.
  unfold parseFeedXml. split; [| now intros e ->].
  intros feed ->. unfold textualFeed.
  pose proof (toEntries_textual (default [] (f_items feed))) as Hitems.
  rewrite (isString_orElse (f_title feed) [] (js "Untitled feed")).
  rewrite (isString_orElse (f_link feed) [] baseUrl).
  destruct (forallb textualItem (default [] (f_items feed))); cbn [andb].
  2: { split; [discriminate |]. intros _. rewrite Hitems.
       eexists. split; reflexivity. }
  destruct Hitems as (es & -> & Hall & Hbounds). cbn [andThen].
  destruct (orElse (f_title feed) (VStr (js "Untitled feed"))) as [t |];
    cbn [isString trimOf andThen andb].
  2: { split; [discriminate |]. intros _. eexists. split; reflexivity. }
  destruct (orElse (f_link feed) (VStr baseUrl)) as [l |];
    cbn [isString trimOf andThen andb].
  2: { split; [discriminate |]. intros _. eexists. split; reflexivity. }
  destruct (f_description feed) as [[d |] |]; cbn [isString trimOf andThen].
  - split; [| discriminate]. intros _. eexists. split; [reflexivity |].
    cbn [entries feedTitle description]. split; [exact Hall |].
    split; [symmetry; exact (Forall2_length _ _ _ Hall) |].
    split; [exact Hbounds |]. split; [apply len_substring_le; lia |].
    intros d' [= <-]. apply len_substring_le. lia.
  - split; [discriminate |]. intros _. eexists. split; reflexivity.
  - split; [| discriminate]. intros _. eexists. split; [reflexivity |].
    cbn [entries feedTitle description]. split; [exact Hall |].
    split; [symmetry; exact (Forall2_length _ _ _ Hall) |].
    split; [exact Hbounds |]. split; [apply len_substring_le; lia |].
    discriminate.
Qed.

End FeedFacts.

(** The feed of two items gives two entries; the feed whose item has a
    title with markup fails. *)
Lemma parseFeedXml_bounds_witness :
  (exists r,
     FeedParser.parseFeedXml exampleFeed [] (js "https://example.org/feed")
     = Eff.Return r /\
     length (FeedParser.entries r) = 2%nat /\
     FeedParser.feedTitle r = js "News" /\
     FeedParser.feedLink r = js "https://example.org/feed") /\
  (exists e,
     FeedParser.parseFeedXml markupFeed [] (js "https://example.org/feed")
     = Eff.Throw e /\
     Eff.cls e = Eff.TypeError).
Proof.
  split.
  - destruct (parseFeedXml_bounds exampleFeed []
                (js "https://example.org/feed")) as [Hok _].
    destruct (exampleFeed []) as [e | feed] eqn:Hfeed; [discriminate |].
    destruct (Hok feed eq_refl) as [Hyes _].
    injection Hfeed as <-.
    destruct (Hyes eq_refl) as (r & Hr & _ & Hlen & _).
    exists r. split; [exact Hr |].
    vm_compute in Hr. injection Hr as <-. now repeat split.
  - destruct (parseFeedXml_bounds markupFeed []
                (js "https://example.org/feed")) as [Hok _].
    destruct (markupFeed []) as [e | feed] eqn:Hfeed; [discriminate |].
    destruct (Hok feed eq_refl) as [_ Hno].
    injection Hfeed as <-. exact (Hno eq_refl).
Defined.

(** ** Requests and failures of the fetch operations *)

Section FetchMore.
Import Eff HttpUtils WebSearchService.

Variable net : Z -> jsstring -> reply.
Variable URL_href : jsstring -> option jsstring.
Variable URL_resolve : jsstring -> jsstring -> option jsstring.
Variable load : jsstring -> list Dom.node.
Variable innerHtml : list Dom.node -> option jsstring.

Lemma requestCount_acquire (op : string) (w : world) :
  requestCount (snd (acquire op w)) = requestCount w.
Proof.
  unfold acquire, requestCount.
  destruct (RateLimiter.acquire_begin _ _ _); cbn [snd events]; try done.
  rewrite fetches_app, length_app. cbn. lia.
Qed.

Lemma acquire_Throw (op : string) (w w' : world) (e : exn) :
  acquire op w = (Throw e, w') -> w' = w.
Proof.
  unfold acquire.
  destruct (RateLimiter.acquire_begin _ _ _); congruence.
Qed.

Lemma fetchWithTimeout_count (u : jsstring) (timeoutMs : Z) (w : world) :
  requestCount (snd (fetchWithTimeout net u timeoutMs w))
  = S (requestCount w).
Proof.
  unfold requestCount. rewrite fetchWithTimeout_events, fetches_app, length_app.
  cbn. lia.
Qed.

Lemma fetchWithTimeout_limiter (u : jsstring) (timeoutMs : Z) (w : world) :
  limiter (snd (fetchWithTimeout net u timeoutMs w)) = limiter w.
Proof.
  unfold fetchWithTimeout, catch, fetchAbortable.
  destruct (timeoutMs <? latency (net (clock w) u)); [done |].
  now destruct (outcome (net (clock w) u)).
Qed.

Lemma follow300Redirect_world (response : Response) (originalUrl : jsstring)
    (timeoutMs : Z) (w : world) :
  let w' :=
    snd (follow300Redirect net URL_resolve response originalUrl timeoutMs w) in
  limiter w' = limiter w /\
  (requestCount w <= requestCount w' <= requestCount w + 1)%nat.
Proof.
  cbv zeta. unfold follow300Redirect.
  unfold ret, Error, InvalidURL, throw.
  destruct (negb (status response =? 300)); [cbn [snd]; split; [done | lia] |].
  destruct (headers_get response (js "Location")) as [[| c l] |];
    try (cbn [snd]; split; [done | lia]).
  destruct (URL_resolve (c :: l) originalUrl);
    [| cbn [snd]; split; [done | lia]].
  rewrite fetchWithTimeout_limiter, fetchWithTimeout_count.
  split; [done | lia].
Qed.

Lemma readResponse_world (response : Response) (normalized : jsstring)
    (w : world) :
  snd (readResponse load innerHtml response normalized w) = w.
Proof.
  unfold readResponse.
  repeat match goal with
         | |- context [if ?b then _ else _] => destruct b
         end; reflexivity.
Qed.

(** The messages the [catch] block of [fetchUrl] can produce. *)
Lemma classify_shape (url_ : jsstring) (e0 e : exn) (w0 w' : world) :
  classify url_ e0 w0 = (Throw e, w') ->
  w' = w0 /\ cls e = PlainError /\
  (message e = js "URL fetch request timed out after 15 seconds" \/
   message e = js "Invalid URL: " ++ url_ \/
   message e = js "Rate limit exceeded. Please wait before trying again." \/
   message e = js "Failed to fetch URL: " ++ message e0).
Proof.
  unfold classify, Error, throw.
  repeat match goal with
         | |- context [if ?b then _ else _] => destruct b
         end; intros [= <- <-]; cbn [cls message]; tauto.
Qed.

(** The part of [fetchUrl] inside [try]. *)
Lemma fetchUrl_try (url_ normalized : jsstring) (w1 : world) :
  let m :=
    catch
      (bind (fetchWithTimeout net normalized FETCH_TIMEOUT_MS)
         (fun response =>
            bind (follow300Redirect net URL_resolve response normalized
                    FETCH_TIMEOUT_MS)
              (fun response => readResponse load innerHtml response
                                 normalized)))
      (classify url_) in
  limiter (snd (m w1)) = limiter w1 /\
  (requestCount w1 < requestCount (snd (m w1)) <= requestCount w1 + 2)%nat /\
  (forall e,
     fst (m w1) = Throw e ->
     cls e = PlainError /\
     (message e = js "URL fetch request timed out after 15 seconds" \/
      message e = js "Invalid URL: " ++ url_ \/
      message e = js "Rate limit exceeded. Please wait before trying again." \/
      exists reason, message e = js "Failed to fetch URL: " ++ reason)).
Proof.
  cbv zeta. unfold catch, bind.
  pose proof (fetchWithTimeout_count normalized FETCH_TIMEOUT_MS w1) as Hc.
  pose proof (fetchWithTimeout_limiter normalized FETCH_TIMEOUT_MS w1) as Hl.
  destruct (fetchWithTimeout net normalized FETCH_TIMEOUT_MS w1)
    as [[response | e1] w2]; cbn [snd] in Hc, Hl.
  - pose proof (follow300Redirect_world response normalized FETCH_TIMEOUT_MS
                  w2) as [Hl2 Hc2].
    destruct (follow300Redirect net URL_resolve response normalized
                FETCH_TIMEOUT_MS w2) as [[response2 | e2] w3];
      cbn [snd] in Hl2, Hc2.
    + pose proof (readResponse_world response2 normalized w3) as Hr.
      destruct (readResponse load innerHtml response2 normalized w3)
        as [[res | e3] w4]; cbn [snd] in Hr; subst w4.
      * cbn [fst snd]. split; [congruence |]. split; [lia |]. intros e [=].
      * destruct (classify_throws url_ e3 w3) as [e' He']. rewrite He'.
        apply classify_shape in He' as (_ & Hcls & Hmsg).
        cbn [fst snd]. split; [congruence |]. split; [lia |].
        intros e [= <-]. split; [done |].
        destruct Hmsg as [? | [? | [? | ?]]]; eauto.
    + destruct (classify_throws url_ e2 w3) as [e' He']. rewrite He'.
      apply classify_shape in He' as (_ & Hcls & Hmsg).
      cbn [fst snd]. split; [congruence |]. split; [lia |].
      intros e [= <-]. split; [done |].
      destruct Hmsg as [? | [? | [? | ?]]]; eauto.
  - destruct (classify_throws url_ e1 w2) as [e' He']. rewrite He'.
    apply classify_shape in He' as (_ & Hcls & Hmsg).
    cbn [fst snd]. split; [congruence |]. split; [lia |].
    intros e [= <-]. split; [done |].
    destruct Hmsg as [? | [? | [? | ?]]]; eauto.
Qed.

(** X14.  A call of [fetchUrl] that fails does so in one of three ways.
    The limiter rejects the class: nothing has changed.  The address is no
    URL: the error is the [TypeError] of the URL constructor, raised before
    the [try] block and so with its own message, after a token was taken
    and before any request.  Or a request was sent: the error is a plain
    [Error] whose message is one of the four of the [catch] block. *)
Theorem fetchUrl_failures (url_ : jsstring) (w w' : world) (e : exn) :
  fetchUrl net URL_href URL_resolve load innerHtml url_ w = (Throw e, w') ->
  (fst (acquire "fetch" w) = Throw e /\ w' = w) \/
  (URL_href (cleanUrl URL_href url_) = None /\
   e = {| cls := TypeError; message := js "Invalid URL" |} /\
   w' = snd (acquire "fetch" w)) \/
  (cls e = PlainError /\
   (requestCount w < requestCount w')%nat /\
   (message e = js "URL fetch request timed out after 15 seconds" \/
    message e = js "Invalid URL: " ++ url_ \/
    message e = js "Rate limit exceeded. Please wait before trying again." \/
    exists reason, message e = js "Failed to fetch URL: " ++ reason)).
Proof.
  unfold fetchUrl. unfold bind at 1.
  pose proof (requestCount_acquire "fetch" w) as Hc.
  destruct (acquire "fetch" w) as [[[] | e0] w1] eqn:Ha; cbn [snd fst] in *.
  - destruct (URL_href (cleanUrl URL_href url_)) as [href |] eqn:Hu.
    + intros H. right. right.
      pose proof (fetchUrl_try url_ (cleanUrl URL_href url_) w1)
        as (_ & Hn & He).
      cbv zeta in Hn, He. rewrite H in Hn, He. cbn [fst snd] in Hn, He.
      destruct (He e eq_refl) as [Hcls Hmsg].
      split; [done |]. split; [lia | done].
    + intros [= <- <-]. right. left. done.
  - intros [= <- <-]. left. split; [done |]. now apply acquire_Throw in Ha.
Qed.

(** A call of [fetchUrl] sends at most two requests. *)
Lemma fetchUrl_count (url_ : jsstring) (w : world) :
  (requestCount
     (snd (fetchUrl net URL_href URL_resolve load innerHtml url_ w))
   <= requestCount w + 2)%nat.
Proof.
  unfold fetchUrl. unfold bind at 1.
  pose proof (requestCount_acquire "fetch" w) as Hc.
  destruct (acquire "fetch" w) as [[[] | e0] w1]; cbn [snd] in *; [| lia].
  destruct (URL_href (cleanUrl URL_href url_)) as [href |];
    [| cbn [InvalidURL throw snd]; lia].
  pose proof (fetchUrl_try url_ (cleanUrl URL_href url_) w1) as (_ & Hn & _).
  cbv zeta in Hn. lia.
Qed.

(** X15.  A call of [fetchUrl] changes the limiter as one [acquire] does,
    also when it sends a second request for a [300] answer; it sends at
    most two requests, and none when the limiter rejects the class or the
    address is no URL. *)
Theorem fetchUrl_budget (url_ : jsstring) (w : world) :
  let w' := snd (fetchUrl net URL_href URL_resolve load innerHtml url_ w) in
  limiter w' = limiter (snd (acquire "fetch" w)) /\
  (requestCount w <= requestCount w' <= requestCount w + 2)%nat /\
  ((forall e, fst (acquire "fetch" w) <> Throw e) ->
   URL_href (cleanUrl URL_href url_) <> None ->
   (requestCount w < requestCount w')%nat) /\
  (URL_href (cleanUrl URL_href url_) = None -> requestCount w' = requestCount w).
Proof.
  cbv zeta.
  remember (fetchUrl net URL_href URL_resolve load innerHtml url_ w) as res
    eqn:Hres.
  unfold fetchUrl in Hres. unfold bind at 1 in Hres.
  pose proof (requestCount_acquire "fetch" w) as Hc.
  destruct (acquire "fetch" w) as [[[] | e0] w1] eqn:Ha; cbn [snd fst] in *.
  - destruct (URL_href (cleanUrl URL_href url_)) as [href |] eqn:Hu.
    + pose proof (fetchUrl_try url_ (cleanUrl URL_href url_) w1)
        as (Hl & Hn & _).
      cbv zeta in Hl, Hn. rewrite <- Hres in Hl, Hn.
      repeat split; try done; try lia.
    + subst res. cbn [InvalidURL throw snd]. repeat split; try done; lia.
  - subst res. pose proof (acquire_Throw _ _ _ _ Ha) as ->. cbn [snd].
    repeat split; try done; try lia.
    intros H. now destruct (H e0).
Qed.

End FetchMore.

Lemma fetchUrl_failures_witness :
  exists w',
    WebSearchService.fetchUrl (Scenario.always Scenario.plainPage) noUrl
      Scenario.resolveToItself sampleDocument noSerializer (js "not a url")
      Scenario.fetchWorld
    = (Eff.Throw {| Eff.cls := Eff.TypeError;
                    Eff.message := js "Invalid URL" |}, w') /\
    w' = snd (Eff.acquire "fetch" Scenario.fetchWorld) /\
    requestCount w' = 0%nat.
Proof.
  eexists. split; [vm_compute; reflexivity |].
  match goal with
  | |- ?w' = _ /\ _ =>
      destruct (fetchUrl_failures (Scenario.always Scenario.plainPage) noUrl
                  Scenario.resolveToItself sampleDocument noSerializer
                  (js "not a url") Scenario.fetchWorld w'
                  {| Eff.cls := Eff.TypeError;
                     Eff.message := js "Invalid URL" |})
        as [[H _] | [(_ & _ & H) | [H _]]]
  end.
  - vm_compute. reflexivity.
  - vm_compute in H. discriminate.
  - split; [exact H | reflexivity].
  - discriminate.
Defined.

Lemma fetchUrl_budget_witness :
  (requestCount
     (snd (WebSearchService.fetchUrl
             (Scenario.always Scenario.multipleChoices) Scenario.anyUrl
             Scenario.resolveToItself sampleDocument noSerializer
             (js "https://example.org/old") Scenario.fetchWorld)) <= 2)%nat.
Proof.
  destruct (fetchUrl_budget (Scenario.always Scenario.multipleChoices)
              Scenario.anyUrl Scenario.resolveToItself sampleDocument
              noSerializer (js "https://example.org/old")
              Scenario.fetchWorld) as (_ & H & _).
  exact (proj2 H).
Defined.

(** ** Metadata, feeds and sitemaps *)

Section AcquisitionFacts.
Import Eff HttpUtils Acquisition.

Variable net : Z -> jsstring -> reply.
Variable URL_href : jsstring -> option jsstring.
Variable URL_parse : jsstring -> option URL.
Variable URL_resolve : jsstring -> jsstring -> option jsstring.
Variable load : jsstring -> list Dom.node.
Variable innerHtml : list Dom.node -> option jsstring.
Variable parseString : jsstring -> exn + FeedParser.Feed.
Variable toStringOther : Sitemap.jsval -> jsstring.
Variable xmlParse : jsstring -> exn + list (jsstring * Sitemap.jsval).
Variable turndown : jsstring -> option jsstring.

Lemma sends_ret {A} (k : nat) (a : A) : sendsAtMost k (ret a).
Proof. intros w. cbn. lia. Qed.

Lemma sends_throw {A} (k : nat) (e : exn) : sendsAtMost k (@throw A e).
Proof. intros w. cbn. lia. Qed.

Lemma sends_bind {A B} (k1 k2 k : nat) (m : M A) (f : A -> M B) :
  (k1 + k2 <= k)%nat ->
  sendsAtMost k1 m -> (forall a, sendsAtMost k2 (f a)) ->
  sendsAtMost k (bind m f).
Proof.
  intros Hk Hm Hf w. unfold bind. specialize (Hm w).
  destruct (m w) as [[a | e] w1]; cbn [snd] in *.
  - specialize (Hf a w1). lia.
  - lia.
Qed.

Lemma sends_catch {A} (k1 k2 k : nat) (m : M A) (h : exn -> M A) :
  (k1 + k2 <= k)%nat ->
  sendsAtMost k1 m -> (forall e, sendsAtMost k2 (h e)) ->
  sendsAtMost k (catch m h).
Proof.
  intros Hk Hm Hh w. unfold catch. specialize (Hm w).
  destruct (m w) as [[a | e] w1]; cbn [snd] in *.
  - lia.
  - specialize (Hh e w1). lia.
Qed.

Lemma sends_acquire (k : nat) (op : string) : sendsAtMost k (acquire op).
Proof. intros w. rewrite requestCount_acquire. lia. Qed.

Lemma sends_fetch (k : nat) (u : jsstring) (timeoutMs : Z) :
  (1 <= k)%nat -> sendsAtMost k (fetchWithTimeout net u timeoutMs).
Proof. intros Hk w. rewrite fetchWithTimeout_count. lia. Qed.

Lemma sends_classifyAs {A} (k : nat) (timedOut failed : string)
    (url_ : jsstring) (e : exn) :
  sendsAtMost k (@classifyAs A timedOut failed url_ e).
Proof.
  unfold classifyAs.
  repeat match goal with
         | |- context [if ?b then _ else _] => destruct b
         end; apply sends_throw.
Qed.

Lemma classifyAs_throws (A : Type) (timedOut failed : string)
    (url_ : jsstring) (e : exn) (w : world) :
  exists e', @classifyAs A timedOut failed url_ e w = (Throw e', w).
Proof.
  unfold classifyAs, Error, throw.
  repeat match goal with
         | |- context [if ?b then _ else _] => destruct b
         end; eauto.
Qed.

Lemma sends_forEach {A B} (k : nat) (f : B -> A -> M B) (l : list A) :
  (forall acc x, sendsAtMost k (f acc x)) ->
  forall acc, sendsAtMost (length l * k) (forEach f l acc).
Proof.
  intros Hf. induction l as [| x l IH]; intros acc.
  - apply sends_ret.
  - cbn [forEach length]. apply (sends_bind k (length l * k)); [lia | apply Hf |].
    intros acc'. apply IH.
Qed.

(** A loop whose body catches every error runs to its end. *)
Lemma forEach_returns {A B} (f : B -> A -> M B) (l : list A) :
  (forall acc x w, exists acc' w', f acc x w = (Return acc', w')) ->
  forall acc w, exists acc' w', forEach f l acc w = (Return acc', w').
Proof.
  intros Hf. induction l as [| x l IH]; intros acc w.
  - now exists acc, w.
  - cbn [forEach]. unfold bind.
    destruct (Hf acc x w) as (acc1 & w1 & ->). apply IH.
Qed.

Lemma sends_fetchSitemapWith (k : nat)
    (child : jsstring -> M FetchSitemapResult) (url_ : jsstring)
    (expandIndex : bool) :
  (forall u, sendsAtMost k (child u)) ->
  sendsAtMost (1 + 10 * k)
    (fetchSitemapWith net URL_href toStringOther xmlParse child url_
       expandIndex).
Proof.
  intros Hchild. unfold fetchSitemapWith.
  apply (sends_bind 0 (1 + 10 * k)); [lia | apply sends_acquire |].
  intros _. destruct (URL_href _); [| apply sends_throw].
  apply (sends_catch (1 + 10 * k) 0); [lia | | intros e; apply sends_classifyAs].
  apply (sends_bind 1 (10 * k)); [lia | now apply sends_fetch |].
  intros response. destruct (negb (ok response)); [apply sends_throw |].
  destruct (xmlParse (body response)) as [e | obj]; [apply sends_throw |].
  destruct (Sitemap.type _), (Sitemap.sitemaps _) as [[| s0 rest] |];
    try apply sends_ret.
  destruct expandIndex; [| apply sends_ret].
  apply (sends_bind (10 * k) 0); [lia | | intros; apply sends_ret].
  set (l := take _ _).
  assert (length l <= 10)%nat as Hl.
  { subst l. rewrite length_take. lia. }
  intros w. 
  pose proof (sends_forEach k
                (fun allUrls s_ =>
                   catch
                     (bind (child (Sitemap.ref_loc s_))
                        (fun c => ret (allUrls ++ default [] (urls c))))
                     (fun _ => ret allUrls)) l) as H.
  specialize (H (fun acc x =>
                   sends_catch k 0 k _ _ (Nat.eq_le_incl _ _ (Nat.add_0_r k))
                     (sends_bind k 0 k _ _
                        (Nat.eq_le_incl _ _ (Nat.add_0_r k))
                        (Hchild _) (fun c => sends_ret 0 _))
                     (fun _ => sends_ret 0 _)) [] w).
  nia.
Qed.

(** X16.  Expanding a sitemap index sends at most eleven requests: one for
    the index and one for each of its first ten children.  A child that
    cannot be fetched is left out: the call fails exactly when the call
    without expansion fails, and with the same error.  The result names
    the address that was fetched, and a result of type [sitemapindex] lists
    no child. *)
Theorem fetchSitemap_expansion (url_ : jsstring) (w : world) :
  let expanded :=
    fetchSitemap net URL_href toStringOther xmlParse url_ true w in
  let flat := fetchSitemap net URL_href toStringOther xmlParse url_ false w in
  (requestCount (snd expanded) <= requestCount w + 11)%nat /\
  (requestCount (snd flat) <= requestCount w + 1)%nat /\
  (forall e, fst expanded = Throw e <-> fst flat = Throw e) /\
  (forall r,
     fst expanded = Return r ->
     url r = cleanUrl URL_href url_ /\
     (type r = Sitemap.sitemapindex -> default [] (sitemaps r) = [])).
Proof.
  clear URL_parse URL_resolve load innerHtml parseString turndown.
  cbv zeta.
  assert (forall b u,
            sendsAtMost 1
              (fetchSitemapWith net URL_href toStringOther xmlParse
                 (fun _ => Error (js "no child call")) u b)) as Hflat.
  { intros b u.
    apply (sends_fetchSitemapWith 0 (fun _ => Error (js "no child call"))).
    intros _. apply sends_throw. }
  split.
  { apply (sends_fetchSitemapWith 1). intros u. apply Hflat. }
  split; [exact (Hflat false url_ w) |].
  unfold fetchSitemap, fetchSitemapWith, bind, catch.
  destruct (acquire "fetch" w) as [[[] | e0] w1]; [| split; [tauto | intros r [=]]].
  destruct (URL_href (cleanUrl URL_href url_)) as [href |];
    [| split; [tauto | intros r [=]]].
  destruct (fetchWithTimeout net (cleanUrl URL_href url_)
              WebSearchService.FETCH_TIMEOUT_MS w1) as [[response | e1] w2].
  2: { split; [tauto |]. intros r.
       destruct (classifyAs_throws FetchSitemapResult
                   "Sitemap fetch request timed out after 15 seconds"
                   "Failed to fetch sitemap: " url_ e1 w2) as [e' ->].
       intros [=]. }
  destruct (negb (ok response)).
  { split; [tauto |]. intros r.
    unfold Error, throw.
    match goal with
    | |- context [classifyAs ?a ?b ?c ?e ?w] =>
        destruct (classifyAs_throws FetchSitemapResult a b c e w) as [e' ->]
    end.
    intros [=]. }
  destruct (xmlParse (body response)) as [e | obj].
  { split; [tauto |]. intros r. unfold throw.
    match goal with
    | |- context [classifyAs ?a ?b ?c ?e ?w] =>
        destruct (classifyAs_throws FetchSitemapResult a b c e w) as [e' ->]
    end.
    intros [=]. }
  destruct (Sitemap.type (Sitemap.parseSitemapObj toStringOther obj)) eqn:Ht,
    (Sitemap.sitemaps (Sitemap.parseSitemapObj toStringOther obj))
      as [[| s0 rest] |] eqn:Hs; unfold ret; cbn [fst];
    try (split; [tauto |]; intros r [= <-]; cbn [url type sitemaps];
         split; [done |]; first [done | now rewrite Hs]).
  match goal with
  | |- context [forEach ?f ?l ?acc ?w] =>
      assert (exists acc' w', forEach f l acc w = (Return acc', w'))
        as (allUrls & w3 & ->)
  end.
  { apply forEach_returns. intros acc x w0. unfold catch, bind, ret.
    destruct (fetchSitemapFlat net URL_href toStringOther xmlParse
                (Sitemap.ref_loc x) w0) as [[c | e] w']; eauto. }
  cbn [fst]. split.
  - intros e. split; intros [=].
  - intros r [= <-]. cbn [url type]. split; [done | discriminate].
Qed.

Lemma fetchWithTimeout_answer (u : jsstring) (timeoutMs : Z) (w : world)
    (response : Response) :
  outcome (net (clock w) u) = inr response ->
  latency (net (clock w) u) <= timeoutMs ->
  exists w',
    fetchWithTimeout net u timeoutMs w = (Return response, w') /\
    limiter w' = limiter w /\ requestCount w' = S (requestCount w).
Proof.
  intros Hout Hlat.
  pose proof (fetchWithTimeout_count net u timeoutMs w) as Hc.
  pose proof (fetchWithTimeout_limiter net u timeoutMs w) as Hl.
  revert Hc Hl. unfold fetchWithTimeout, catch, fetchAbortable.
  apply Z.ltb_ge in Hlat. rewrite Hlat, Hout. cbn [snd]. eauto.
Qed.

(** X17.  [fetchMetadata] reports an answer that is no success as a
    result, not as an error: when the limiter admits the call, the address
    is a URL and the server answers in time with a status outside 200-299,
    the call returns that status with the address of the answer, and
    neither title nor description nor image; one request was sent. *)
Theorem fetchMetadata_reports_status (url_ : jsstring) (w : world)
    (response : Response) :
  let w1 := snd (acquire "fetch" w) in
  let normalized := cleanUrl URL_href url_ in
  fst (acquire "fetch" w) = Return tt ->
  URL_href normalized <> None ->
  outcome (net (clock w1) normalized) = inr response ->
  latency (net (clock w1) normalized) <= 10000 ->
  ok response = false ->
  exists r w',
    fetchMetadata net URL_href URL_resolve load url_ w = (Return r, w') /\
    statusCode r = status response /\
    finalUrl r =
      (if truthy (Eff.url response) then Eff.url response else normalized) /\
    title r = None /\ description r = None /\ imageUrl r = None /\
    requestCount w' = S (requestCount w).
Proof.
  cbv zeta. intros Ha Hu Hout Hlat Hok.
  unfold fetchMetadata. unfold bind at 1.
  pose proof (requestCount_acquire "fetch" w) as Hc.
  destruct (acquire "fetch" w) as [[[] | e0] w1]; [| discriminate].
  cbn [snd] in *.
  destruct (URL_href (cleanUrl URL_href url_)) as [href |]; [| done].
  destruct (fetchWithTimeout_answer _ METADATA_TIMEOUT_MS w1 response Hout Hlat)
    as (w2 & Hf & _ & Hc2).
  unfold catch, bind. rewrite Hf, Hok. cbn [negb].
  eexists _, w2. split; [reflexivity |]. cbn.
  repeat split; try done. lia.
Qed.

(** X18.  A feed that was fetched but does not parse makes [fetchFeed] fail
    with the error of the parser itself: the promise of [parseFeedXml] is
    returned, not awaited, so the [catch] block does not rewrite the error
    into a message starting with [Failed to fetch feed].  A token was
    taken and one request sent. *)
Theorem fetchFeed_parse_error_is_not_rewritten (url_ : jsstring) (w : world)
    (response : Response) (e : exn) :
  let w1 := snd (acquire "fetch" w) in
  let normalized := cleanUrl URL_href url_ in
  fst (acquire "fetch" w) = Return tt ->
  URL_href normalized <> None ->
  outcome (net (clock w1) normalized) = inr response ->
  latency (net (clock w1) normalized) <= 15000 ->
  ok response = true ->
  parseString (body response) = inl e ->
  exists w',
    fetchFeed net URL_href parseString url_ w = (Throw e, w') /\
    limiter w' = limiter w1 /\ requestCount w' = S (requestCount w).
Proof.
  cbv zeta. intros Ha Hu Hout Hlat Hok Hparse.
  unfold fetchFeed. unfold bind at 1.
  pose proof (requestCount_acquire "fetch" w) as Hc.
  destruct (acquire "fetch" w) as [[[] | e0] w1]; [| discriminate].
  cbn [snd] in *.
  destruct (URL_href (cleanUrl URL_href url_)) as [href |]; [| done].
  destruct (fetchWithTimeout_answer _ WebSearchService.FETCH_TIMEOUT_MS w1
              response Hout Hlat) as (w2 & Hf & Hl2 & Hc2).
  unfold catch, bind. rewrite Hf, Hok. cbn [negb]. unfold ret.
  unfold FeedParser.parseFeedXml. rewrite Hparse. cbn [lift throw].
  exists w2. split; [reflexivity |]. split; [done | lia].
Qed.

(** X19.  Of a page that is not HTML, [extractLinks] returns no link, and
    the document parser is not consulted: the result is the same whatever
    the parser and the URL functions of the page are. *)
Theorem extractLinks_of_other_content (url_ : jsstring) (sameDomainOnly : bool)
    (w : world) (response : Response) :
  let w1 := snd (acquire "fetch" w) in
  let normalized := cleanUrl URL_href url_ in
  fst (acquire "fetch" w) = Return tt ->
  URL_href normalized <> None ->
  outcome (net (clock w1) normalized) = inr response ->
  latency (net (clock w1) normalized) <= 15000 ->
  ok response = true ->
  includes (js "text/html")
    (orStr (headers_get response (js "content-type")) []) = false ->
  exists w',
    extractLinks net URL_href URL_parse URL_resolve load url_ sameDomainOnly w
    = (Return [], w').
Proof.
  cbv zeta. intros Ha Hu Hout Hlat Hok Hct.
  unfold extractLinks. unfold bind at 1.
  destruct (acquire "fetch" w) as [[[] | e0] w1]; [| discriminate].
  cbn [snd] in *.
  destruct (URL_href (cleanUrl URL_href url_)) as [href |]; [| done].
  destruct (fetchWithTimeout_answer _ WebSearchService.FETCH_TIMEOUT_MS w1
              response Hout Hlat) as (w2 & Hf & _ & _).
  unfold catch, bind. rewrite Hf, Hok, Hct. cbn [negb]. now exists w2.
Qed.

End AcquisitionFacts.

Lemma fetchSitemap_expansion_witness :
  let expanded :=
    Acquisition.fetchSitemap sitemapSite Scenario.anyUrl
      SitemapDocs.noToString xmlOf (js "https://example.org/sitemap.xml")
      true Scenario.fetchWorld in
  (requestCount (snd expanded) <= 11)%nat /\
  requestCount (snd expanded) = 3%nat /\
  exists r,
    fst expanded = Eff.Return r /\
    Acquisition.type r = Sitemap.urlset /\
    length (default [] (Acquisition.urls r)) = 6%nat.
Proof.
  cbv zeta. split.
  - exact (proj1 (fetchSitemap_expansion sitemapSite Scenario.anyUrl
                    SitemapDocs.noToString xmlOf
                    (js "https://example.org/sitemap.xml")
                    Scenario.fetchWorld)).
  - split; [vm_compute; reflexivity |].
    eexists. split; [vm_compute; reflexivity |]. split; reflexivity.
Defined.

Lemma fetchMetadata_reports_status_witness :
  exists r w',
    Acquisition.fetchMetadata (Scenario.always notFound) Scenario.anyUrl
      Scenario.resolveToItself sampleDocument
      (js "https://example.org/gone") Scenario.fetchWorld
    = (Eff.Return r, w') /\
    Acquisition.statusCode r = 404 /\
    Acquisition.title r = None.
Proof.
  destruct (fetchMetadata_reports_status (Scenario.always notFound)
              Scenario.anyUrl Scenario.resolveToItself sampleDocument
              (js "https://example.org/gone") Scenario.fetchWorld notFound)
    as (r & w' & Hr & Hs & _ & Ht & _).
  - vm_compute. reflexivity.
  - discriminate.
  - reflexivity.
  - simpl. lia.
  - reflexivity.
  - exists r, w'. now repeat split.
Defined.

Lemma fetchFeed_parse_error_is_not_rewritten_witness :
  exists w',
    Acquisition.fetchFeed (Scenario.always Scenario.plainPage)
      Scenario.anyUrl brokenFeed (js "https://example.org/notes.txt")
      Scenario.fetchWorld
    = (Eff.Throw {| Eff.cls := Eff.PlainError;
                    Eff.message := js "Unable to parse XML." |}, w').
Proof.
  destruct (fetchFeed_parse_error_is_not_rewritten
              (Scenario.always Scenario.plainPage) Scenario.anyUrl brokenFeed
              (js "https://example.org/notes.txt") Scenario.fetchWorld
              Scenario.plainPage
              {| Eff.cls := Eff.PlainError;
                 Eff.message := js "Unable to parse XML." |})
    as (w' & Hr & _).
  - vm_compute. reflexivity.
  - discriminate.
  - reflexivity.
  - simpl. lia.
  - reflexivity.
  - reflexivity.
  - now exists w'.
Defined.

Lemma extractLinks_of_other_content_witness :
  exists w',
    Acquisition.extractLinks (Scenario.always Scenario.plainPage)
      Scenario.anyUrl exampleParse Scenario.resolveToItself linkedDocument
      (js "https://example.org/notes.txt") true Scenario.fetchWorld
    = (Eff.Return [], w').
Proof.
  apply (extractLinks_of_other_content (Scenario.always Scenario.plainPage)
           Scenario.anyUrl exampleParse Scenario.resolveToItself
           linkedDocument (js "https://example.org/notes.txt") true
           Scenario.fetchWorld Scenario.plainPage).
  - vm_compute. reflexivity.
  - discriminate.
  - reflexivity.
  - simpl. lia.
  - reflexivity.
  - vm_compute. reflexivity.
Defined.

(** ** Searches *)

Section SearchMore.
Import Eff HttpUtils SearXNGService.

Variable net : Z -> jsstring -> reply.
Variable URL_withParams
  : jsstring -> list (jsstring * jsstring) -> option jsstring.

(** Refilling twice at the same time is refilling once. *)
Lemma acquire_refill_again (s : RateLimiter.t) (op : string) (m r : Q)
    (now : Z) :
  RateLimiter.acquire_refill (RateLimiter.acquire_refill s op m r now)
    op m r now
  = RateLimiter.acquire_refill s op m r now.
Proof.
  unfold RateLimiter.acquire_refill at 2.
  destruct (0 <? now - orZ (RateLimiter.lastRefill s !! op) now) eqn:E.
  - unfold RateLimiter.acquire_refill. cbn [RateLimiter.lastRefill].
    rewrite lookup_insert_eq.
    replace (now - orZ (Some now) now) with 0; [now rewrite E |].
    unfold orZ. destruct (now =? 0) eqn:E0; lia.
  - unfold RateLimiter.acquire_refill. now rewrite E.
Qed.

(** A class that shows a token has one for the [acquire] that follows at
    the same time. *)
Lemma token_seen_is_granted (s s1 : RateLimiter.t) (op : string) (now n : Z) :
  RateLimiter.getRemainingTokens s op now = (n, s1) ->
  1 <= n ->
  exists s2, RateLimiter.acquire_begin s1 op now = RateLimiter.Consumed s2.
Proof.
  intros Hget Hn.
  destruct (RateLimiter.maxTokens s !! op) as [m |] eqn:Hm.
  2: { unfold RateLimiter.getRemainingTokens in Hget. rewrite Hm in Hget.
       cbn in Hget. injection Hget as <- <-. lia. }
  destruct (Qeq_bool m 0) eqn:Em.
  { unfold RateLimiter.getRemainingTokens in Hget. rewrite Hm in Hget.
    cbn [truthyQ] in Hget. rewrite Em in Hget. cbn in Hget.
    injection Hget as <- <-. lia. }
  destruct (RateLimiter.refillRate s !! op) as [r |] eqn:Hr.
  2: { unfold RateLimiter.getRemainingTokens in Hget. rewrite Hm, Hr in Hget.
       cbn [truthyQ] in Hget. rewrite Em in Hget. cbn in Hget.
       injection Hget as <- <-. lia. }
  destruct (Qeq_bool r 0) eqn:Er.
  { unfold RateLimiter.getRemainingTokens in Hget. rewrite Hm, Hr in Hget.
    cbn [truthyQ] in Hget. rewrite Em, Er in Hget. cbn in Hget.
    injection Hget as <- <-. lia. }
  rewrite (getRemainingTokens_refill s op now m r Hm Hr Em Er) in Hget.
  injection Hget as <- <-.
  destruct (acquire_refill_config s op m r now) as [Hcm Hcr].
  unfold RateLimiter.acquire_begin.
  rewrite Hcm, Hcr, Hm, Hr. cbn [truthyQ orQ]. rewrite Em, Er. cbn [negb orb].
  rewrite acquire_refill_again.
  fold (RateLimiter.tokensOf (RateLimiter.acquire_refill s op m r now) op).
  set (k := RateLimiter.tokensOf _ op) in *.
  assert (Qltb k 1 = false) as ->; [| eauto].
  apply Qltb_ge. unfold floor0 in Hn.
  assert (1 <= Qfloor k) as Hf by lia.
  pose proof (Qfloor_le k) as Hk.
  apply (Qle_trans _ (inject_Z (Qfloor k))); [| exact Hk].
  change 1%Q with (inject_Z 1). now rewrite <- Zle_Qle.
Qed.

Lemma fetchAbortable_events (u : jsstring) (timeoutMs : Z) (w : world) :
  events (snd (fetchAbortable net u timeoutMs w)) = events w ++ [Fetched u].
Proof.
  unfold fetchAbortable.
  destruct (timeoutMs <? latency (net (clock w) u)); [done |].
  now destruct (outcome (net (clock w) u)).
Qed.

(** After its request, [request] only computes. *)
Lemma searxng_request_world (searchUrl : jsstring) (max : Z) (w : world) :
  snd (request net searchUrl max w)
  = snd (fetchAbortable net searchUrl 20000 w).
Proof.
  unfold request, bind.
  destruct (fetchAbortable net searchUrl 20000 w) as [[response | e] w1];
    [| done].
  destruct (negb (ok response)).
  { now repeat match goal with
               | |- context [if ?b then _ else _] => destruct b
               end. }
  destruct (negb (includes _ _)); [done |].
  now destruct (json response).
Qed.

(** The world after [search], from the point where the limiter has been
    consulted. *)
Lemma search_events (params : SearXNGSearchParams) (w : world) :
  let w' := snd (search net URL_withParams params w) in
  events w' = events w \/
  exists searchUrl,
    buildSearchUrl URL_withParams (searxng_base_url params) params
    = Some searchUrl /\
    events w' = events w ++ [Fetched searchUrl].
Proof.
  cbv zeta.
  remember (search net URL_withParams params w) as res eqn:Hres.
  revert Hres. unfold search.
  destruct (negb (truthy (searxng_base_url params)) || _);
    [intros ->; now left |].
  destruct (negb (truthy (query params)) || _); [intros ->; now left |].
  unfold bind at 1. unfold getRemainingTokens.
  destruct (RateLimiter.getRemainingTokens (limiter w) "searxng" (clock w))
    as [n s1] eqn:Hget.
  destruct (n <? 1) eqn:Hn; [intros ->; now left |].
  apply Z.ltb_ge in Hn.
  destruct (token_seen_is_granted _ _ _ _ _ Hget Hn) as [s2 Hs2].
  unfold bind at 1. unfold acquire. cbn [limiter clock events].
  rewrite Hs2.
  destruct (buildSearchUrl URL_withParams (searxng_base_url params) params)
    as [searchUrl |]; [| intros ->; now left].
  intros Hres. right. exists searchUrl. split; [done |].
  revert Hres. unfold catch.
  pose proof (searxng_request_world searchUrl
                (Z.min (Z.max 1 (if default 10 (max_results params) =? 0
                                 then 10
                                 else default 10 (max_results params))) 50)
                {| limiter := s2; clock := clock w; events := events w |})
    as Hw.
  pose proof (fetchAbortable_events searchUrl 20000
                {| limiter := s2; clock := clock w; events := events w |})
    as He.
  cbv zeta.
  destruct (request net searchUrl _ _) as [[results | e] w2];
    cbn [snd] in *.
  - intros ->. cbn [snd]. now rewrite Hw, He.
  - destruct (isAbortError e); intros ->; cbn [Error throw snd];
      now rewrite Hw, He.
Qed.

(** X20.  A search never suspends its caller, although it calls [acquire]:
    the call is made only after the limiter has shown a token, and the
    token is still there.  A search sends at most one request, to the
    address [buildSearchUrl] gives. *)
Theorem search_never_waits (params : SearXNGSearchParams) (w : world) :
  let w' := snd (search net URL_withParams params w) in
  waits (events w') = waits (events w) /\
  (fetches (events w') = fetches (events w) \/
   exists searchUrl,
     buildSearchUrl URL_withParams (searxng_base_url params) params
     = Some searchUrl /\
     fetches (events w') = fetches (events w) ++ [searchUrl]).
Proof.
  cbv zeta. destruct (search_events params w) as [-> | (u & Hu & ->)].
  - split; [done | now left].
  - rewrite waits_app, fetches_app. cbn. rewrite app_nil_r.
    split; [done |]. right. now exists u.
Qed.

Lemma length_slice0 {A} (n : Z) (l : list A) :
  0 <= n -> (length (slice0 n l) <= Z.to_nat n)%nat.
Proof.
  intros Hn. unfold slice0.
  destruct (0 <=? n) eqn:E; [| lia].
  rewrite length_take. lia.
Qed.

Lemma request_results (searchUrl : jsstring) (max : Z) (w w' : world)
    (results : list SearXNGResult) :
  0 <= max ->
  request net searchUrl max w = (Return results, w') ->
  (length results <= Z.to_nat max)%nat /\
  Forall (fun r => url r <> [] /\
                   1 <= len (title r) <= 500 /\ len (snippet r) <= 500)
    results.
Proof.
  intros Hmax. unfold request, bind.
  destruct (fetchAbortable net searchUrl 20000 w) as [[response | e] w1];
    [| discriminate].
  destruct (negb (ok response)).
  { repeat match goal with
           | |- context [if ?b then _ else _] => destruct b
           end; discriminate. }
  destruct (negb (includes _ _)); [discriminate |].
  destruct (json response) as [data |]; [| discriminate].
  intros [= <- <-]. split.
  - etransitivity; [apply List.filter_length_le |].
    rewrite length_map. now apply length_slice0.
  - apply Forall_forall. intros r Hr.
    apply list_elem_of_In, filter_In in Hr as [Hin Hurl].
    apply in_map_iff in Hin as (raw & <- & _).
    cbn [url title snippet] in *. split; [| split].
    + now destruct (orStr (r_url raw) []).
    + split; [| apply len_substring_le; lia].
      assert (substring (orStr (r_title raw) (js "No title")) 0 500 <> [])
        as Hne.
      { apply substring_prefix_nonempty; [lia |].
        now apply orStr_nonempty. }
      destruct (substring _ 0 500); [done |]. unfold len. cbn. lia.
    + apply len_substring_le. lia.
Qed.

(** What a search returns is what its request returned. *)
Lemma search_Return (params : SearXNGSearchParams) (w w' : world)
    (results : list SearXNGResult) :
  search net URL_withParams params w = (Return results, w') ->
  exists searchUrl w2,
    request net searchUrl
      (Z.min (Z.max 1 (if default 10 (max_results params) =? 0
                       then 10
                       else default 10 (max_results params))) 50) w2
    = (Return results, w').
Proof.
  unfold search.
  destruct (negb (truthy (searxng_base_url params)) || _); [discriminate |].
  destruct (negb (truthy (query params)) || _); [discriminate |].
  unfold bind at 1.
  destruct (getRemainingTokens "searxng" w) as [[n | e] w1]; [| discriminate].
  destruct (n <? 1); [discriminate |].
  unfold bind at 1.
  destruct (acquire "searxng" w1) as [[[] | e] w2]; [| discriminate].
  destruct (buildSearchUrl URL_withParams (searxng_base_url params) params)
    as [searchUrl |]; [| discriminate].
  cbv zeta. unfold catch.
  set (max := Z.min (Z.max 1 _) 50).
  destruct (request net searchUrl max w2) as [[res | e] w3] eqn:Hreq.
  2: { destruct (isAbortError e); discriminate. }
  intros [= <- <-]. now exists searchUrl, w2.
Qed.

(** A search sends at most one request. *)
Lemma search_count (params : SearXNGSearchParams) (w : world) :
  (requestCount (snd (search net URL_withParams params w))
   <= requestCount w + 1)%nat.
Proof.
  unfold requestCount.
  destruct (search_events params w) as [-> | (u & _ & ->)]; [lia |].
  rewrite fetches_app, length_app. cbn. lia.
Qed.

(** X21.  The results of a search are at most 50, and at most as many as
    were asked for when between 1 and 50 were asked for; every result has
    an address, a title of 1 to 500 characters and a snippet of at most
    500. *)
Theorem search_results_bounded (params : SearXNGSearchParams) (w w' : world)
    (results : list SearXNGResult) :
  search net URL_withParams params w = (Return results, w') ->
  (length results <= 50)%nat /\
  (forall n, max_results params = Some n -> 1 <= n <= 50 ->
             (length results <= Z.to_nat n)%nat) /\
  Forall (fun r => url r <> [] /\
                   1 <= len (title r) <= 500 /\ len (snippet r) <= 500)
    results.
Proof.
  intros Hs. destruct (search_Return _ _ _ _ Hs) as (searchUrl & w2 & Hreq).
  revert Hreq. set (max := Z.min (Z.max 1 _) 50). intros Hreq.
  assert (1 <= max <= 50) as Hmax by (subst max; lia).
  destruct (request_results searchUrl max w2 w' results) as [Hlen Hall];
    [lia | done |].
  split; [lia |]. split; [| done].
  intros k Hk Hrange. subst max. rewrite Hk in Hlen.
  cbv [from_option id] in Hlen.
  destruct (k =? 0) eqn:E0; lia.
Qed.

(** X22.  A search never fails with an [AbortError]: a request that took
    more than 20 seconds fails with a plain [Error].  When the network
    itself raises no [RateLimitError], a search fails with one in two cases
    only: the limiter showed no token, and no request was sent; or the
    instance answered 429 to the one request. *)
Theorem search_failures (params : SearXNGSearchParams) (w w' : world)
    (e : exn) :
  search net URL_withParams params w = (Throw e, w') ->
  isAbortError e = false /\
  ((forall t u err, outcome (net t u) = inl err ->
                    isRateLimitError err = false) ->
   isRateLimitError e = true ->
   (message e = rateLimitedMessage /\ events w' = events w) \/
   (exists t u response,
      outcome (net t u) = inr response /\ status response = 429 /\
      fetches (events w') = fetches (events w) ++ [u])).
Proof.
  unfold search.
  destruct (negb (truthy (searxng_base_url params)) || _).
  { intros [= <- <-]. split; [done |]. discriminate. }
  destruct (negb (truthy (query params)) || _).
  { intros [= <- <-]. split; [done |]. discriminate. }
  unfold bind at 1. unfold getRemainingTokens.
  destruct (RateLimiter.getRemainingTokens (limiter w) "searxng" (clock w))
    as [n s1] eqn:Hget.
  destruct (n <? 1) eqn:Hn.
  { intros [= <- <-]. split; [done |]. intros _ _. left. now split. }
  apply Z.ltb_ge in Hn.
  destruct (token_seen_is_granted _ _ _ _ _ Hget Hn) as [s2 Hs2].
  unfold bind at 1. unfold acquire. cbn [limiter clock events]. rewrite Hs2.
  destruct (buildSearchUrl URL_withParams (searxng_base_url params) params)
    as [searchUrl |].
  2: { intros [= <- <-]. split; [done |]. discriminate. }
  cbv zeta. unfold catch, request, bind.
  set (w2 := {| limiter := s2; clock := clock w; events := events w |}).
  pose proof (fetchAbortable_events searchUrl 20000 w2) as Hfe.
  destruct (fetchAbortable net searchUrl 20000 w2) as [[response | e1] w3]
    eqn:Hf; cbn [snd] in Hfe.
  - assert (outcome (net (clock w2) searchUrl) = inr response) as Hout.
    { revert Hf. unfold fetchAbortable.
      destruct (20000 <? _); [discriminate |].
      destruct (outcome _); [discriminate |]. now intros [= <- _]. }
    destruct (negb (ok response)).
    + destruct (status response =? 403); [| destruct (status response =? 429)
                                              eqn:E429].
      * intros [= <- <-]. split; [done |]. discriminate.
      * intros [= <- <-]. split; [done |]. intros _ _. right.
        exists (clock w2), searchUrl, response.
        split; [done |]. split; [lia |].
        rewrite Hfe. subst w2. cbn [events]. rewrite fetches_app.
        cbn. done.
      * intros [= <- <-]. split; [done |]. discriminate.
    + destruct (negb (includes _ _)).
      { intros [= <- <-]. split; [done |]. discriminate. }
      destruct (json response); [discriminate |].
      intros [= <- <-]. split; [done |]. discriminate.
  - destruct (isAbortError e1) eqn:Eab.
    + intros [= <- <-]. split; [done |]. discriminate.
    + intros [= <- <-]. split; [done |]. intros Hnet Hrl.
      exfalso. revert Hf. unfold fetchAbortable.
      destruct (20000 <? _).
      * intros [= <- _]. discriminate.
      * destruct (outcome (net (clock w2) searchUrl)) as [err |] eqn:Hout;
          [| discriminate].
        intros [= <- _]. specialize (Hnet _ _ _ Hout). congruence.
Qed.

End SearchMore.

Lemma search_never_waits_witness :
  let w' :=
    snd (SearXNGService.search (Scenario.always foundPages) Scenario.pathOnly
           Scenario.someSearch searxngWorld) in
  Eff.waits (Eff.events w') = [] /\
  Eff.fetches (Eff.events w') = [js "https://search.example.org/search"].
Proof.
  cbv zeta.
  destruct (search_never_waits (Scenario.always foundPages) Scenario.pathOnly
              Scenario.someSearch searxngWorld) as [Hw _].
  split; [exact Hw | vm_compute; reflexivity].
Defined.

Lemma search_results_bounded_witness :
  exists results w',
    SearXNGService.search (Scenario.always foundPages) Scenario.pathOnly
      Scenario.someSearch searxngWorld
    = (Eff.Return results, w') /\
    length results = 1%nat /\ (length results <= 50)%nat.
Proof.
  destruct (SearXNGService.search (Scenario.always foundPages)
              Scenario.pathOnly Scenario.someSearch searxngWorld)
    as [[results | e] w'] eqn:Hrun.
  - exists results, w'. split; [reflexivity |].
    pose proof (search_results_bounded _ _ _ _ _ _ Hrun) as (Hlen & _).
    split; [| exact Hlen].
    vm_compute in Hrun. injection Hrun as <- _. reflexivity.
  - vm_compute in Hrun. discriminate.
Defined.

Lemma search_failures_witness :
  exists e w',
    SearXNGService.search (Scenario.always tooManyRequests) Scenario.pathOnly
      Scenario.someSearch searxngWorld
    = (Eff.Throw e, w') /\
    Eff.isAbortError e = false /\
    Eff.isRateLimitError e = true /\
    Eff.fetches (Eff.events w') = [js "https://search.example.org/search"].
Proof.
  destruct (SearXNGService.search (Scenario.always tooManyRequests)
              Scenario.pathOnly Scenario.someSearch searxngWorld)
    as [[results | e] w'] eqn:Hrun.
  - vm_compute in Hrun. discriminate.
  - exists e, w'. split; [reflexivity |].
    pose proof (search_failures _ _ _ _ _ _ Hrun) as [Hab _].
    split; [exact Hab |].
    vm_compute in Hrun. injection Hrun as <- <-. split; reflexivity.
Defined.

Section SearchUrlFacts.
Import SearXNGService.

Variable URL_withParams
  : jsstring -> list (jsstring * jsstring) -> option jsstring.







End SearchUrlFacts.


(** ** Page metadata *)

Section MetadataFacts.
Import MetadataParser.

Variable load : jsstring -> list Dom.node.
Variable URL_resolve : jsstring -> jsstring -> option jsstring.

Lemma trimmedOr_trimmed (x rest : option jsstring) :
  (forall t, rest = Some t -> t <> [] /\ trim t = t) ->
  forall t, trimmedOr x rest = Some t -> t <> [] /\ trim t = t.
Proof.
  intros Hrest t. unfold trimmedOr.
  destruct x as [s |]; cbn [option_map]; [| apply Hrest].
  destruct (trim s) as [| c s'] eqn:E; [apply Hrest |].
  intros [= <-]. split; [done |]. rewrite <- E. apply trim_idempotent.
Qed.

Lemma orUndefined_nonempty (a b : option jsstring) (i : jsstring) :
  FeedParser.orUndefined a b = Some i -> i <> [].
Proof.
  unfold FeedParser.orUndefined.
  destruct a as [[| c s] |], b as [[| d s'] |]; intros [= <-]; done.
Qed.

(** X24.  A title or a description the metadata parser returns is not
    empty and has no white space around it; an image address it returns
    starts with [http] or is the resolution of the address in the page
    against the URL of the page.  The parser fails only with the
    [TypeError] of an image address that does not resolve. *)
Theorem parseMetadata_fields (html finalUrl : jsstring) :
  (forall m,
     parseMetadataFromHtml load URL_resolve html finalUrl = Eff.Return m ->
     (forall t, title m = Some t -> t <> [] /\ trim t = t) /\
     (forall d, description m = Some d -> d <> [] /\ trim d = d) /\
     (forall i, imageUrl m = Some i ->
                startsWith (js "http") i = true \/
                exists raw, raw <> [] /\ URL_resolve raw finalUrl = Some i)) /\
  (forall e,
     parseMetadataFromHtml load URL_resolve html finalUrl = Eff.Throw e ->
     Eff.cls e = Eff.TypeError /\ Eff.message e = js "Invalid URL").
Proof.
  unfold parseMetadataFromHtml. cbv zeta.
  set (doc := load _).
  set (title_ := trimmedOr _ (trimmedOr _ (trimmedOr (Some _) None))).
  set (description_ := trimmedOr _ (trimmedOr _ (trimmedOr _ None))).
  assert (forall t, title_ = Some t -> t <> [] /\ trim t = t) as Ht.
  { subst title_. repeat apply trimmedOr_trimmed. discriminate. }
  assert (forall d, description_ = Some d -> d <> [] /\ trim d = d) as Hd.
  { subst description_. repeat apply trimmedOr_trimmed. discriminate. }
  clearbody title_ description_.
  destruct (FeedParser.orUndefined _ _) as [i |] eqn:Hi.
  - pose proof (orUndefined_nonempty _ _ _ Hi) as Hne.
    destruct (startsWith (js "http") i) eqn:Hhttp.
    + split; [| discriminate]. intros m [= <-]. cbn.
      repeat split; try (now apply Ht); try (now apply Hd).
      intros i' [= <-]. now left.
    + destruct (URL_resolve i finalUrl) as [abs |] eqn:Hres.
      * split; [| discriminate]. intros m [= <-]. cbn.
        repeat split; try (now apply Ht); try (now apply Hd).
        intros i' [= <-]. right. now exists i.
      * split; [discriminate |]. now intros e [= <-].
  - split; [| discriminate]. intros m [= <-]. cbn.
    repeat split; try (now apply Ht); try (now apply Hd). discriminate.
Qed.

End MetadataFacts.

(** ** Tools *)

Section ToolFacts.
Import Eff HttpUtils ToolExecutor.

Variable net : Z -> jsstring -> reply.
Variable URL_href : jsstring -> option jsstring.
Variable URL_resolve : jsstring -> jsstring -> option jsstring.
Variable load : jsstring -> list Dom.node.
Variable innerHtml : list Dom.node -> option jsstring.
Variable URL_withParams
  : jsstring -> list (jsstring * jsstring) -> option jsstring.

(** A loop whose body adds one entry for each element it is given. *)
Lemma forEach_collect {A B} (Q : A -> Prop) (P : A -> B -> Prop)
    (f : list B -> A -> M (list B)) (l : list A) :
  (forall out x w, Q x ->
     exists e w', f out x w = (Return (out ++ [e]), w') /\ P x e) ->
  Forall Q l ->
  forall out w,
    exists es w',
      Acquisition.forEach f l out w = (Return (out ++ es), w') /\
      Forall2 P l es.
Proof.
  intros Hf. induction 1 as [| x l Hx Hl IH]; intros out w.
  - exists [], w. rewrite app_nil_r. now split.
  - cbn [Acquisition.forEach]. unfold bind.
    destruct (Hf out x w Hx) as (e & w1 & -> & He).
    destruct (IH (out ++ [e]) w1) as (es & w' & -> & Hes).
    exists (e :: es), w'. rewrite <- app_assoc. split; [done |].
    now constructor.
Qed.

Lemma sends_fetchUrl (url_ : jsstring) :
  sendsAtMost 2 (fetchUrl net URL_href URL_resolve load innerHtml url_).
Proof.
  intros w. apply fetchUrl_count.
Qed.




Lemma toFetch_range (n : option Z) : 1 <= toFetch n <= 5.
Proof. unfold toFetch. lia. Qed.

(** X26.  [searxng_search_then_fetch] fetches at most five pages, whatever
    number is asked for: its result has at most five entries, each with an
    address and a title that are not empty and a snippet of at most 500
    characters.  The call sends at most eleven requests, and when it fails
    it has sent at most the request of the search: a page that cannot be
    fetched is an entry of the result, not a failure. *)
Theorem search_then_fetch_bounded (params : SearchThenFetchParams)
    (w : world) :
  let run :=
    executeSearXNGSearchThenFetch net URL_href URL_resolve load innerHtml
      URL_withParams params w in
  (requestCount (snd run) <= requestCount w + 11)%nat /\
  (forall e, fst run = Throw e ->
             (requestCount (snd run) <= requestCount w + 1)%nat) /\
  (forall out,
     fst run = Return out ->
     (length out <= 5)%nat /\
     Forall (fun o => f_url o <> [] /\ f_title o <> [] /\
                      len (f_snippet o) <= 500) out).
Proof.
  cbv zeta.
  remember (executeSearXNGSearchThenFetch net URL_href URL_resolve load
              innerHtml URL_withParams params w) as run eqn:Hrun.
  revert Hrun. unfold executeSearXNGSearchThenFetch.
  assert (forall (msg : jsstring) (r : result (list FetchedResult) * world),
            r = Error msg w ->
            (requestCount (snd r) <= requestCount w + 11)%nat /\
            (forall e, fst r = Throw e ->
                       (requestCount (snd r) <= requestCount w + 1)%nat) /\
            (forall out, fst r = Return out ->
               (length out <= 5)%nat /\
               Forall (fun o => f_url o <> [] /\ f_title o <> [] /\
                                len (f_snippet o) <= 500) out)) as Herr.
  { intros msg r ->. cbn. split; [lia |]. split; [lia |]. intros out [=]. }
  destruct (query params) as [| | | | [| qc qs] | |]; try apply Herr.
  destruct (searxng_base_url params) as [| | | | [| bc bs] | |];
    try apply Herr.
  destruct (negb (truthy (trim (bc :: bs)))); [apply Herr |].
  clear Herr. unfold bind at 1.
  set (sp := {| SearXNGService.searxng_base_url := trim (bc :: bs) |}).
  pose proof (search_count net URL_withParams sp w) as Hcount.
  destruct (SearXNGService.search net URL_withParams sp w)
    as [[results | e] w1] eqn:Hsearch; cbn [snd] in Hcount.
  2: { intros ->. cbn [fst snd]. split; [lia |]. split; [lia |].
       intros out [=]. }
  destruct (search_Return net URL_withParams sp w w1 results Hsearch)
    as (searchUrl & wq & Hreq).
  pose proof (toFetch_range (max_results_to_fetch params)) as Hrange.
  subst sp. cbn [SearXNGService.max_results from_option id] in Hreq.
  cbv [id] in Hreq.
  set (m := Z.min (Z.max 1 _) 50) in Hreq.
  assert (0 <= m <= 5) as Hm.
  { subst m.
    destruct (Z.eqb_spec (toFetch (max_results_to_fetch params)) 0); lia. }
  destruct (request_results net searchUrl m wq w1 results (proj1 Hm) Hreq)
    as [Hlen' Hall].
  assert (length results <= 5)%nat as Hlen by lia.
  clear Hlen' Hreq Hm. clearbody m. clear m wq searchUrl.
  set (step := fun (out : list FetchedResult) (r : SearXNGService.SearXNGResult)
               => _).
  destruct (forEach_collect
              (fun r => SearXNGService.url r <> [] /\
                        len (SearXNGService.snippet r) <= 500)
              (fun _ o => f_url o <> [] /\ f_title o <> [] /\
                          len (f_snippet o) <= 500)
              step results)
    with (out := @nil FetchedResult) (w := w1) as (es & w' & Hloop & Hes).
  { intros out r w0 [Hurl Hsn]. subst step. cbv beta zeta.
    destruct (SearXNGService.url r) as [| c u] eqn:Eu; [done |].
    cbn [truthy negb]. unfold catch, bind, ret.
    assert ((if truthy (SearXNGService.title r)
             then SearXNGService.title r else js "No title") <> []) as Ht.
    { now destruct (SearXNGService.title r). }
    assert (len (substring (SearXNGService.snippet r) 0 500) <= 500) as Hs.
    { apply len_substring_le. lia. }
    destruct (fetchUrlFormatted net URL_href URL_resolve load innerHtml
                (c :: u) w0) as [[content | err] w2];
      eexists _, _; (split; [reflexivity |]); cbn; now repeat split. }
  { eapply Forall_impl; [exact Hall |]. cbv beta. tauto. }
  intros ->. rewrite Hloop. cbn [fst snd].
  pose proof (Forall2_length _ _ _ Hes) as Hl.
  split; [| split; [discriminate |]].
  - pose proof (sends_forEach 2 step results) as Hsend.
    assert (forall out r, sendsAtMost 2 (step out r)) as Hstep.
    { intros out r. subst step. cbv beta zeta.
      destruct (negb (truthy (SearXNGService.url r))); [apply sends_ret |].
      apply (sends_catch 2 0); [lia | | intros; apply sends_ret].
      apply (sends_bind 2 0); [lia | | intros; apply sends_ret].
      unfold fetchUrlFormatted, Acquisition.fetchUrlFormatted.
      apply (sends_bind 2 0); [lia | apply sends_fetchUrl |].
      intros; apply sends_ret. }
    specialize (Hsend Hstep [] w1). rewrite Hloop in Hsend.
    cbn [snd] in Hsend. nia.
  - intros out [= <-]. split; [lia |].
    clear -Hes. induction Hes; constructor; auto.
Qed.

End ToolFacts.


Lemma search_then_fetch_bounded_witness :
  let run :=
    ToolExecutor.executeSearXNGSearchThenFetch
      (Scenario.always foundPages) Scenario.anyUrl Scenario.resolveToItself
      sampleDocument noSerializer Scenario.pathOnly exampleSearchThenFetch
      toolWorld in
  (requestCount (snd run) <= 11)%nat /\
  exists out, fst run = Eff.Return out /\ length out = 1%nat.
Proof.
  cbv zeta. split.
  - exact (proj1 (search_then_fetch_bounded (Scenario.always foundPages)
                    Scenario.anyUrl Scenario.resolveToItself sampleDocument
                    noSerializer Scenario.pathOnly exampleSearchThenFetch
                    toolWorld)).
  - eexists. split; [vm_compute; reflexivity | reflexivity].
Defined.

(** ** Markdown *)

Section MarkdownFacts.
Import Eff Acquisition.

Variable net : Z -> jsstring -> reply.
Variable URL_href : jsstring -> option jsstring.
Variable URL_resolve : jsstring -> jsstring -> option jsstring.
Variable load : jsstring -> list Dom.node.
Variable innerHtml : list Dom.node -> option jsstring.
Variable turndown : jsstring -> option jsstring.

(** X27.  [fetchUrlAsMarkdown] fails exactly when [fetchUrl] fails, and
    with its error: a failure of the conversion to markdown is no failure
    of the call.  What it returns starts with the title line and the
    address of the page as [fetchUrlFormatted] gives them; when the page
    has no HTML content or the conversion fails, it is what
    [fetchUrlFormatted] returns. *)
Theorem fetchUrlAsMarkdown_falls_back (url_ : jsstring) (w : world) :
  let page := fetchUrl net URL_href URL_resolve load innerHtml url_ w in
  let markdown :=
    fetchUrlAsMarkdown net URL_href URL_resolve load innerHtml turndown
      url_ w in
  let plain :=
    fetchUrlFormatted net URL_href URL_resolve load innerHtml url_ w in
  snd markdown = snd page /\
  (forall e, fst markdown = Throw e <-> fst page = Throw e) /\
  (forall result,
     fst page = Return result ->
     exists text,
       fst markdown
       = Return (formatted (WebSearchService.title result)
                   (WebSearchService.url result) text) /\
       (truthy (trim (WebSearchService.content result)) = false \/
        turndown (WebSearchService.content result) = None ->
        markdown = plain)).
Proof.
  cbv zeta. unfold fetchUrlAsMarkdown, fetchUrlFormatted, bind.
  destruct (fetchUrl net URL_href URL_resolve load innerHtml url_ w)
    as [[result | e] w1]; cbn [fst snd].
  - destruct (negb (truthy (trim (WebSearchService.content result)))) eqn:Eb.
    + split; [done |]. split; [split; discriminate |].
      intros r [= <-]. eexists. split; [reflexivity | done].
    + destruct (turndown (WebSearchService.content result)) as [md |] eqn:Et.
      * split; [done |]. split; [split; discriminate |].
        intros r [= <-]. eexists. split; [reflexivity |].
        apply negb_false_iff in Eb. intros [H | H]; congruence.
      * split; [done |]. split; [split; discriminate |].
        intros r [= <-]. eexists. split; [reflexivity | done].
  - split; [done |]. split; [| discriminate].
    intros e'. split; now intros [= ->].
Qed.

End MarkdownFacts.

Lemma fetchUrlAsMarkdown_falls_back_witness :
  Acquisition.fetchUrlAsMarkdown (Scenario.always Scenario.plainPage)
    Scenario.anyUrl Scenario.resolveToItself sampleDocument noSerializer
    noMarkdown (js "https://example.org/notes.txt") Scenario.fetchWorld
  = Acquisition.fetchUrlFormatted (Scenario.always Scenario.plainPage)
      Scenario.anyUrl Scenario.resolveToItself sampleDocument noSerializer
      (js "https://example.org/notes.txt") Scenario.fetchWorld.
Proof.
  destruct (fetchUrlAsMarkdown_falls_back
              (Scenario.always Scenario.plainPage) Scenario.anyUrl
              Scenario.resolveToItself sampleDocument noSerializer noMarkdown
              (js "https://example.org/notes.txt") Scenario.fetchWorld)
    as (_ & _ & H).
  destruct (Acquisition.fetchUrl (Scenario.always Scenario.plainPage)
              Scenario.anyUrl Scenario.resolveToItself sampleDocument
              noSerializer (js "https://example.org/notes.txt")
              Scenario.fetchWorld) as [[result | e] w1] eqn:Hpage.
  - destruct (H result eq_refl) as (text & _ & Hplain).
    apply Hplain. now right.
  - vm_compute in Hpage. discriminate.
Defined.

(** ** Error classes of the fetch operations *)

Section ErrorClasses.
Import Eff HttpUtils Acquisition.

Variable net : Z -> jsstring -> reply.
Variable URL_href : jsstring -> option jsstring.
Variable URL_parse : jsstring -> option URL.
Variable URL_resolve : jsstring -> jsstring -> option jsstring.
Variable load : jsstring -> list Dom.node.
Variable innerHtml : list Dom.node -> option jsstring.
Variable toStringOther : Sitemap.jsval -> jsstring.
Variable xmlParse : jsstring -> exn + list (jsstring * Sitemap.jsval).

Lemma acquire_Throw_plain (op : string) (w w' : world) (e : exn) :
  acquire op w = (Throw e, w') -> cls e = PlainError.
Proof.
  unfold acquire.
  destruct (RateLimiter.acquire_begin _ _ _); now intros [= <- _].
Qed.

Lemma classifyAs_plain {A} (timedOut failed : string) (url_ : jsstring)
    (e0 e : exn) (w0 w' : world) :
  @classifyAs A timedOut failed url_ e0 w0 = (Throw e, w') ->
  cls e = PlainError.
Proof.
  unfold classifyAs, Error, throw.
  repeat match goal with
         | |- context [if ?b then _ else _] => destruct b
         end; now intros [= <- _].
Qed.

(** The shape the operations share: a token, the check of the address,
    and a [try] block whose [catch] rewrites every error. *)
Lemma guarded_errors {A} (m : M A) (h : exn -> M A) (url_ : jsstring)
    (w : world) (e : exn) :
  (forall e0 w0 e' w', h e0 w0 = (Throw e', w') -> cls e' = PlainError) ->
  fst (bind (acquire "fetch")
         (fun _ =>
            match URL_href (cleanUrl URL_href url_) with
            | None => InvalidURL
            | Some _ => catch m h
            end) w) = Throw e ->
  plainOrInvalidUrl e.
Proof.
  intros Hh. unfold bind, catch.
  destruct (acquire "fetch" w) as [[[] | e0] w1] eqn:Ha.
  - destruct (URL_href (cleanUrl URL_href url_)).
    + destruct (m w1) as [[a | e1] w2]; [discriminate |].
      destruct (h e1 w2) as [[a | e2] w3] eqn:Hc; [discriminate |].
      intros [= <-]. left. eapply Hh, Hc.
    + intros [= <-]. now right.
  - intros [= <-]. left. eapply acquire_Throw_plain, Ha.
Qed.

(** X28.  [fetchUrl], [fetchMetadata], [extractLinks] and [fetchSitemap]
    fail only with a plain [Error] or with the [TypeError] of an address
    that is no URL, whatever the network raises: never with a
    [RateLimitError], also when the failure is a rate limit, and never
    with an [AbortError]. *)
Theorem fetch_errors_are_plain (url_ : jsstring) (flag : bool) (w : world)
    (e : exn) :
  fst (fetchUrl net URL_href URL_resolve load innerHtml url_ w) = Throw e \/
  fst (fetchMetadata net URL_href URL_resolve load url_ w) = Throw e \/
  fst (extractLinks net URL_href URL_parse URL_resolve load url_ flag w)
  = Throw e \/
  fst (fetchSitemap net URL_href toStringOther xmlParse url_ flag w)
  = Throw e ->
  plainOrInvalidUrl e /\
  isRateLimitError e = false /\ isAbortError e = false.
Proof.
  intros H.
  assert (plainOrInvalidUrl e) as He.
  { destruct H as [H | [H | [H | H]]]; revert H.
    - unfold fetchUrl, WebSearchService.fetchUrl. cbv zeta.
      apply guarded_errors. intros e0 w0 e' w' Hc.
      now apply classify_shape in Hc.
    - unfold fetchMetadata. cbv zeta.
      apply guarded_errors. intros e0 w0 e' w'. apply classifyAs_plain.
    - unfold extractLinks. cbv zeta.
      apply guarded_errors. intros e0 w0 e' w'. apply classifyAs_plain.
    - unfold fetchSitemap, fetchSitemapWith. cbv zeta.
      apply guarded_errors. intros e0 w0 e' w'. apply classifyAs_plain. }
  split; [exact He |].
  unfold isRateLimitError, isAbortError.
  destruct He as [-> | [-> _]]; now split.
Qed.

End ErrorClasses.

Lemma fetch_errors_are_plain_witness :
  exists e,
    fst (WebSearchService.fetchUrl refusingNetwork Scenario.anyUrl
           Scenario.resolveToItself sampleDocument noSerializer sampleUrl
           Scenario.fetchWorld) = Eff.Throw e /\
    Eff.isRateLimitError e = false /\
    Eff.message e
    = js "Rate limit exceeded. Please wait before trying again.".
Proof.
  destruct (WebSearchService.fetchUrl refusingNetwork Scenario.anyUrl
              Scenario.resolveToItself sampleDocument noSerializer sampleUrl
              Scenario.fetchWorld) as [[r | e] w'] eqn:Hrun.
  - vm_compute in Hrun. discriminate.
  - exists e. split; [reflexivity |].
    destruct (fetch_errors_are_plain refusingNetwork Scenario.anyUrl
                exampleParse Scenario.resolveToItself sampleDocument
                noSerializer SitemapDocs.noToString xmlOf sampleUrl false
                Scenario.fetchWorld e) as (_ & Hrl & _).
    + left. unfold Acquisition.fetchUrl. now rewrite Hrun.
    + split; [exact Hrl |].
      vm_compute in Hrun. now injection Hrun as <- _.
Defined.

(** ** The tool [fetch_url] *)

Section FetchUrlTool.
Import Eff ToolExecutor.

Variable net : Z -> jsstring -> reply.
Variable URL_href : jsstring -> option jsstring.
Variable URL_resolve : jsstring -> jsstring -> option jsstring.
Variable load : jsstring -> list Dom.node.
Variable innerHtml : list Dom.node -> option jsstring.

Lemma take_all_iff {A} (n : nat) (l : list A) :
  take n l = l <-> (length l <= n)%nat.
Proof.
  split.
  - intros H. rewrite <- H at 1. rewrite length_take. lia.
  - apply take_ge.
Qed.

(** X29.  [fetch_url] fails at once, with nothing done, when [url] is no
    string or the empty string.  Otherwise it fails exactly as [fetchUrl]
    does, and what it returns of a page is accurate: [contentLength] is
    the length of the whole text, [textContent] its first 10000
    characters, and [hasMoreContent] is set exactly when [textContent] is
    not the whole text. *)
Theorem executeFetchUrl_summary (url_ : param) (w : world) :
  let run :=
    executeFetchUrl net URL_href URL_resolve load innerHtml url_ w in
  match url_ with
  | PString (c :: s) =>
      let page := fetchUrl net URL_href URL_resolve load innerHtml (c :: s) w in
      snd run = snd page /\
      (forall e, fst run = Throw e <-> fst page = Throw e) /\
      (forall result,
         fst page = Return result ->
         exists p,
           fst run = Return p /\
           url p = WebSearchService.url result /\
           title p = WebSearchService.title result /\
           contentLength p = len (WebSearchService.textContent result) /\
           textContent p
           = take (Z.to_nat 10000) (WebSearchService.textContent result) /\
           (hasMoreContent p = true <->
            textContent p <> WebSearchService.textContent result))
  | _ => exists e, run = (Throw e, w)
  end.
Proof.
  cbv zeta. unfold executeFetchUrl.
  destruct url_ as [| | | | [| c s] | |]; try (eexists; reflexivity).
  unfold bind.
  destruct (fetchUrl net URL_href URL_resolve load innerHtml (c :: s) w)
    as [[result | e] w1]; cbn [fst snd].
  - split; [done |]. split; [split; discriminate |].
    intros r [= <-]. eexists. split; [reflexivity |].
    cbn [summary url title contentLength textContent hasMoreContent].
    rewrite substring_prefix by lia.
    repeat split; try done.
    + intros Hmore Heq. apply Z.ltb_lt in Hmore.
      apply take_all_iff in Heq. unfold len in Hmore. lia.
    + intros Hne. apply Z.ltb_lt. unfold len.
      destruct (Z_lt_le_dec 10000
                  (Z.of_nat (length (WebSearchService.textContent result))))
        as [Hlt | Hle]; [exact Hlt |].
      exfalso. apply Hne. apply take_all_iff. lia.
  - split; [done |]. split; [| discriminate].
    intros e'. split; now intros [= ->].
Qed.

End FetchUrlTool.

Lemma executeFetchUrl_summary_witness :
  exists p w',
    ToolExecutor.executeFetchUrl (Scenario.always Scenario.plainPage)
      Scenario.anyUrl Scenario.resolveToItself sampleDocument noSerializer
      (ToolExecutor.PString (js "https://example.org/notes.txt"))
      Scenario.fetchWorld
    = (Eff.Return p, w') /\
    ToolExecutor.contentLength p = 10 /\
    ToolExecutor.hasMoreContent p = false.
Proof.
  pose proof (executeFetchUrl_summary (Scenario.always Scenario.plainPage)
                Scenario.anyUrl Scenario.resolveToItself sampleDocument
                noSerializer
                (ToolExecutor.PString (js "https://example.org/notes.txt"))
                Scenario.fetchWorld) as H.
  cbv zeta iota beta in H. destruct H as (_ & _ & H).
  destruct (ToolExecutor.fetchUrl (Scenario.always Scenario.plainPage)
              Scenario.anyUrl Scenario.resolveToItself sampleDocument
              noSerializer (js "https://example.org/notes.txt")
              Scenario.fetchWorld) as [[result | e] w1] eqn:Hpage.
  - destruct (H result (f_equal fst Hpage)) as (p & Hp & _).
    vm_compute in Hp. injection Hp as <-.
    eexists _, _. split; [vm_compute; reflexivity |]. split; reflexivity.
  - vm_compute in Hpage. discriminate.
Defined.
